(** * GameArena: the canvas mini-game of endless-arena-champions

    A shallow embedding of [src/components/GameArena.tsx]: the React
    component's state, its handlers ([checkCollisions], [handleMouseMove],
    [startGame], [endGame], [render], [gameLoop]), its three [useEffect]
    hooks, and the event loop that drives them.

    Conventions.
    - JavaScript numbers that hold coordinates and random draws are real
      numbers ([R]); scores, values, the countdown and the canvas size are
      integers ([Z]).  The pickup test, the win rate and the listing price
      are computed with the IEEE 754 double-precision operations, [double]
      being the rounding to the nearest double, ties to even; the remaining
      arithmetic is exact.
    - A handler is a closure over the values of the render that created it.
      It is a function of that render's [State] and returns the calls it
      makes, in program order, as a [list Action]: the state setters are
      queued and applied in order by [reduce], the two callback props are
      the component's notifications.
    - [Math.random()] is a function [rnd : nat -> R] giving the successive
      draws of one handler call; [Date.now()] is an argument. *)

From Stdlib Require Import Reals Lra Lia ZArith List Bool String DecimalString.
From Stdlib Require Import Sorted Ascii.
Import ListNotations.

Open Scope Z_scope.

(** ** Data model *)

Inductive GameState := waiting | playing | ended.

Definition GameState_eqb (a b : GameState) : bool :=
  match a, b with
  | waiting, waiting | playing, playing | ended, ended => true
  | _, _ => false
  end.

Inductive CollectibleType := coin | powerup.

Module Player.
Record t := mk {
  id : string;
  nftId : string;
  x : R;
  y : R;
  score : Z;
  health : Z;
  color : string;
  name : string
}.
End Player.

Module Collectible.
Record t := mk {
  id : string;
  x : R;
  y : R;
  type : CollectibleType;
  value : Z
}.
End Collectible.

(** The four [useState] cells, as one render sees them. *)
Record State := mkState {
  gameState : GameState;
  currentPlayer : Player.t;
  collectibles : list Collectible.t;
  timeLeft : Z
}.

(** What a handler does: queue a state update or call a callback prop. *)
Inductive Action :=
| setGameState (g : GameState)
| setTimeLeft (t : Z)
| setCurrentPlayer (f : Player.t -> Player.t)
| setCollectibles (cs : list Collectible.t)
| setCollectiblesFn (f : list Collectible.t -> list Collectible.t)
| onScoreUpdate (score : Z)
| onGameEnd (finalScore : Z).

(** React applies the queued updates of a batch in the order of the calls. *)
Definition reduce1 (s : State) (a : Action) : State :=
  match a with
  | setGameState g => mkState g (currentPlayer s) (collectibles s) (timeLeft s)
  | setTimeLeft t => mkState (gameState s) (currentPlayer s) (collectibles s) t
  | setCurrentPlayer f =>
      mkState (gameState s) (f (currentPlayer s)) (collectibles s) (timeLeft s)
  | setCollectibles cs => mkState (gameState s) (currentPlayer s) cs (timeLeft s)
  | setCollectiblesFn f =>
      mkState (gameState s) (currentPlayer s) (f (collectibles s)) (timeLeft s)
  | onScoreUpdate _ | onGameEnd _ => s
  end.

Definition reduce (s : State) (q : list Action) : State := fold_left reduce1 q s.

Definition isCallback (a : Action) : bool :=
  match a with
  | onScoreUpdate _ | onGameEnd _ => true
  | _ => false
  end.

(** The notifications a batch sends to the parent component. *)
Definition callbacks (q : list Action) : list Action := filter isCallback q.

(** ** JavaScript helpers *)

(** [a < b] and [a > b] on numbers. *)
Definition js_lt (a b : R) : bool := if Rlt_dec a b then true else false.
Definition js_gt (a b : R) : bool := js_lt b a.

(** *** Double-precision arithmetic *)

Definition pow2 (k : Z) : R := powerRZ 2 k.

(** The nearest integer, a half going to the even neighbour. *)
Definition nearestEven (x : R) : Z :=
  let f := Zfloor x in
  if Rlt_dec (x - IZR f) (1 / 2) then f
  else if Rlt_dec (1 / 2) (x - IZR f) then f + 1
  else if Z.even f then f else f + 1.

(** The exponent of the last place of the doubles around [x]: 52 below
    the binary exponent of [x], and -1074 for the subnormal range. *)
Definition ulpExp (x : R) : Z :=
  Z.max (Z.log2 (Zfloor (Rabs x * pow2 1074)) - 52) 0 - 1074.

(** The double nearest to [x], ties to even.  Overflow to [Infinity] is
    left out: the comparisons made on the results come out the same. *)
Definition double (x : R) : R :=
  (IZR (nearestEven (x / pow2 (ulpExp x))) * pow2 (ulpExp x))%R.

(** The values a double holds: 53 bits of mantissa, exponent from -1074. *)
Definition representable (a : R) : Prop :=
  exists m k : Z, Z.abs m < 2 ^ 53 /\ -1074 <= k /\ a = (IZR m * pow2 k)%R.

(** [a - b], [a + b], [a * b] and [a / b] on numbers. *)
Definition js_sub (a b : R) : R := double (a - b).
Definition js_add (a b : R) : R := double (a + b).
Definition js_mul (a b : R) : R := double (a * b).
Definition js_div (a b : R) : R := double (a / b).

Definition Math_sqrt (x : R) : R := double (sqrt x).

(** [Math.pow(x, 2)], taken as the correctly rounded square; the language
    leaves the accuracy of [Math.pow] to the engine. *)
Definition Math_pow2 (x : R) : R := js_mul x x.

(** Template-literal interpolation of an integer. *)
Definition showZ (n : Z) : string := NilZero.string_of_int (Z.to_int n).

(** [Array.prototype.filter] with a callback that also performs actions. *)
Fixpoint filterA {A : Type} (f : A -> bool * list Action) (l : list A)
  : list A * list Action :=
  match l with
  | [] => ([], [])
  | a :: l' =>
      let (keep, q) := f a in
      let (kept, q') := filterA f l' in
      (if keep then a :: kept else kept, q ++ q')
  end.

(** ** Spawning collectibles *)

(** The object literal both spawn sites build: four draws, in the order of
    the properties [x], [y], [type], [value], starting at draw [k]. *)
Definition newCollectible (id : string) (rnd : nat -> R) (k : nat) : Collectible.t :=
  Collectible.mk id
    (rnd k * 550 + 25)%R
    (rnd (k + 1)%nat * 350 + 25)%R
    (if js_gt (rnd (k + 2)%nat) (7 / 10)%R then powerup else coin)
    (if js_gt (rnd (k + 3)%nat) (7 / 10)%R then 50 else 10).

(** [for (let i = 0; i < 10; i++) newCollectibles.push(...)]: [n] iterations
    left, loop index [i]. *)
Fixpoint spawnLoop (n : nat) (i : nat) (rnd : nat -> R)
    (newCollectibles : list Collectible.t) : list Collectible.t :=
  match n with
  | O => newCollectibles
  | S n' =>
      spawnLoop n' (S i) rnd
        (newCollectibles ++
           [newCollectible ("collectible-" ++ showZ (Z.of_nat i)) rnd (4 * i)])
  end.

Definition spawnCollectibles (rnd : nat -> R) : list Action :=
  [setCollectibles (spawnLoop 10 0 rnd [])].

(** ** Collision check *)

Definition distance (p : Player.t) (c : Collectible.t) : R :=
  Math_sqrt
    (js_add (Math_pow2 (js_sub (Player.x p) (Collectible.x c)))
            (Math_pow2 (js_sub (Player.y p) (Collectible.y c)))).

Definition withScore (prev : Player.t) (newScore : Z) : Player.t :=
  Player.mk (Player.id prev) (Player.nftId prev) (Player.x prev) (Player.y prev)
    newScore (Player.health prev) (Player.color prev) (Player.name prev).

(** The callback given to [collectibles.filter]: [currentPlayer] is the
    value captured by the closure, not the pending state. *)
Definition collide (s : State) (collectible : Collectible.t) : bool * list Action :=
  if js_lt (distance (currentPlayer s) collectible) 20 then
    let newScore := Player.score (currentPlayer s) + Collectible.value collectible in
    (false, [setCurrentPlayer (fun prev => withScore prev newScore);
             onScoreUpdate newScore])
  else (true, []).

Definition checkCollisions (s : State) (rnd : nat -> R) (now : Z) : list Action :=
  let (newCollectibles, q) := filterA (collide s) (collectibles s) in
  q ++
  if negb (List.length newCollectibles =? List.length (collectibles s))%nat then
    setCollectibles newCollectibles ::
    (if (List.length newCollectibles <? 5)%nat then
       [setCollectiblesFn (fun prev =>
          prev ++ [newCollectible ("collectible-" ++ showZ now) rnd 0])]
     else [])
  else [].


(** ** Pointer, start and end handlers *)

(** [canvasRef.current]: the canvas element with its logical size and
    whether [getContext('2d')] yields a context. *)
Inductive Context2D := context2D.

Record Canvas := mkCanvas {
  width : Z;
  height : Z;
  has2d : bool
}.

Definition getContext (canvas : Canvas) : option Context2D :=
  if has2d canvas then Some context2D else None.

Definition withPosition (prev : Player.t) (x y : R) : Player.t :=
  Player.mk (Player.id prev) (Player.nftId prev) x y
    (Player.score prev) (Player.health prev) (Player.color prev) (Player.name prev).

(** [rectLeft] and [rectTop] are [left] and [top] of
    [canvas.getBoundingClientRect()]. *)
Definition handleMouseMove (canvasRef : option Canvas) (s : State)
    (clientX clientY rectLeft rectTop : R) : list Action :=
  if negb (GameState_eqb (gameState s) playing) then []
  else
    match canvasRef with
    | None => []
    | Some canvas =>
        let x := (clientX - rectLeft)%R in
        let y := (clientY - rectTop)%R in
        [setCurrentPlayer (fun prev =>
           withPosition prev
             (Rmax 15 (Rmin x (IZR (width canvas) - 15)))
             (Rmax 15 (Rmin y (IZR (height canvas) - 15))))]
    end.

Definition startGame (rnd : nat -> R) : list Action :=
  [setGameState playing;
   setTimeLeft 60;
   setCurrentPlayer (fun prev =>
     Player.mk (Player.id prev) (Player.nftId prev) (Player.x prev) (Player.y prev)
       0 100 (Player.color prev) (Player.name prev))]
  ++ spawnCollectibles rnd.

Definition endGame (s : State) : list Action :=
  [setGameState ended; onGameEnd (Player.score (currentPlayer s))].

(** ** Rendering *)

(** The calls made on the 2D context, in order. *)
Inductive DrawCmd :=
| fillStyle (v : string)
| strokeStyle (v : string)
| lineWidth (v : R)
| fillRect (x y w h : R)
| strokeRect (x y w h : R)
| beginPath
| moveTo (x y : R)
| lineTo (x y : R)
| arc (x y radius startAngle endAngle : R)
| stroke
| fill
| shadowColor (v : string)
| shadowBlur (v : R)
| font (v : string)
| textAlign (v : string)
| fillText (text : string) (x y : R).

(** A call either completes or throws. *)
Inductive Completion (A : Type) :=
| Normal (a : A)
| Throw (error : string).
Arguments Normal {A} a.
Arguments Throw {A} error.

Definition bind {A B : Type} (m : Completion A) (k : A -> Completion B)
  : Completion B :=
  match m with
  | Normal a => k a
  | Throw e => Throw e
  end.

(** Property access on a nullable value. *)
Definition deref {A : Type} (o : option A) : Completion A :=
  match o with
  | Some a => Normal a
  | None => Throw "TypeError"
  end.

Definition isNull {A : Type} (o : option A) : bool :=
  match o with Some _ => false | None => true end.

(** [for (let i = 0; i < bound; i += 50) body(i)]: the indices are
    0, 50, ... below [bound], that is ceil(bound / 50) of them. *)
Definition forStep50 (bound : Z) (body : Z -> list DrawCmd) : list DrawCmd :=
  flat_map (fun k => body (50 * Z.of_nat k))
    (seq 0 (Z.to_nat ((bound + 49) / 50))).

Definition typeColour (t : CollectibleType) : string :=
  match t with coin => "#fbbf24" | powerup => "#10b981" end.

Definition drawCollectible (collectible : Collectible.t) : list DrawCmd :=
  [fillStyle (typeColour (Collectible.type collectible));
   beginPath;
   arc (Collectible.x collectible) (Collectible.y collectible) 8 0 (PI * 2);
   fill;
   shadowColor (typeColour (Collectible.type collectible));
   shadowBlur 10;
   fill;
   shadowBlur 0].

Definition paint (canvas : Canvas) (s : State) : list DrawCmd :=
  let w := IZR (width canvas) in
  let h := IZR (height canvas) in
  let p := currentPlayer s in
  [fillStyle "#1a1a1a"; fillRect 0 0 w h;
   strokeStyle "#8b5cf6"; lineWidth 3; strokeRect 0 0 w h;
   strokeStyle "#2a2a2a"; lineWidth 1]
  ++ forStep50 (width canvas)
       (fun i => [beginPath; moveTo (IZR i) 0; lineTo (IZR i) h; stroke])
  ++ forStep50 (height canvas)
       (fun i => [beginPath; moveTo 0 (IZR i); lineTo w (IZR i); stroke])
  ++ flat_map drawCollectible (collectibles s)
  ++ [fillStyle (Player.color p); strokeStyle "#ffffff"; lineWidth 2;
      beginPath; arc (Player.x p) (Player.y p) 15 0 (PI * 2); fill; stroke;
      shadowColor (Player.color p); shadowBlur 15; fill; shadowBlur 0;
      fillStyle "#ffffff"; font "12px Arial"; textAlign "center";
      fillText (Player.name p) (Player.x p) (Player.y p - 25)].

Definition render (canvasRef : option Canvas) (s : State)
  : Completion (list DrawCmd) :=
  let canvas := canvasRef in
  let ctx := match canvas with Some c => getContext c | None => None end in
  if isNull ctx || isNull canvas then Normal []
  else
    bind (deref ctx) (fun _ =>
    bind (deref canvas) (fun canvas' =>
    Normal (paint canvas' s))).

(** One animation frame.  The result is what was drawn, the actions of
    [checkCollisions], and whether [gameLoop] requested itself again. *)
Definition gameLoop (canvasRef : option Canvas) (s : State) (rnd : nat -> R)
    (now : Z) : Completion (list DrawCmd * list Action * bool) :=
  bind (render canvasRef s) (fun drawn =>
    let q := checkCollisions s rnd now in
    Normal (drawn, q, GameState_eqb (gameState s) playing)).

(** ** Effects and the event loop *)

(** The component between two events: the committed state, the canvas ref,
    and the callbacks the host has pending.  A pending callback is recorded
    as the [State] of the render that created its closure.
    - [frame]: the animation frame [gameLoopRef.current] identifies.  Every
      [requestAnimationFrame] call stores its id there, and a new request is
      made only by the frame that just ran or after the cleanup cancelled the
      previous one, so at most one frame is pending.
    - [timer]: the timeout of the countdown effect. *)
Record Arena := mkArena {
  state : State;
  canvasRef : option Canvas;
  frame : option State;
  timer : option State
}.

(** Game-loop effect, dependencies [gameState, currentPlayer, collectibles]:
    when playing it requests a frame for this render's [gameLoop] and
    returns a cleanup that cancels [gameLoopRef.current]. *)
Definition loopEffect (s : State) : option State :=
  if GameState_eqb (gameState s) playing then Some s else None.

(** Countdown effect, dependencies [gameState, timeLeft]. *)
Inductive TimerEffect :=
| armTimeout      (* setTimeout(..., 1000), with clearTimeout as cleanup *)
| callEndGame     (* endGame() *)
| noTimer.

Definition timerEffect (s : State) : TimerEffect :=
  if GameState_eqb (gameState s) playing && (timeLeft s >? 0) then armTimeout
  else if (timeLeft s =? 0) && GameState_eqb (gameState s) playing then callEndGame
  else noTimer.

(** The callback of the armed timeout. *)
Definition timeoutCallback (s : State) : list Action :=
  [setTimeLeft (timeLeft s - 1)].

Definition isSetCurrentPlayer (a : Action) : bool :=
  match a with setCurrentPlayer _ => true | _ => false end.

Definition isSetCollectibles (a : Action) : bool :=
  match a with setCollectibles _ | setCollectiblesFn _ => true | _ => false end.

(** Commit a batch [q] and run the effects of the re-render.  An effect
    runs when one of its dependencies changed: [gameState] and [timeLeft]
    by value, [currentPlayer] and [collectibles] by identity, and every
    setter call of this component stores a fresh object.  Cleanups run
    before bodies; an effect has a cleanup when its previous run returned
    one, and that run saw the dependencies of the old state.  The boolean
    tells whether the countdown effect called [endGame]. *)
Definition rerender (q : list Action) (a : Arena) : Arena * bool :=
  let old := state a in
  let new := reduce old q in
  let gameStateChanged := negb (GameState_eqb (gameState old) (gameState new)) in
  let loopDeps :=
    gameStateChanged || existsb isSetCurrentPlayer q || existsb isSetCollectibles q in
  let timerDeps := gameStateChanged || negb (timeLeft old =? timeLeft new) in
  let frame1 :=
    if loopDeps then
      match loopEffect old with Some _ => None | None => frame a end
    else frame a in
  let timer1 :=
    if timerDeps then
      match timerEffect old with armTimeout => None | _ => timer a end
    else timer a in
  let frame2 :=
    if loopDeps then
      match loopEffect new with Some c => Some c | None => frame1 end
    else frame1 in
  if timerDeps then
    match timerEffect new with
    | armTimeout => (mkArena new (canvasRef a) frame2 (Some new), false)
    | callEndGame => (mkArena new (canvasRef a) frame2 timer1, true)
    | noTimer => (mkArena new (canvasRef a) frame2 timer1, false)
    end
  else (mkArena new (canvasRef a) frame2 timer1, false).

(** A batch handled to completion: [endGame], called from the countdown
    effect, queues a further batch that is committed the same way; [fuel]
    bounds that nesting.  The second component is the notifications. *)
Fixpoint settle (fuel : nat) (q : list Action) (a : Arena) : Arena * list Action :=
  let (a', ending) := rerender q a in
  if ending then
    match fuel with
    | O => (a', callbacks q)
    | S fuel' =>
        let (a'', out) := settle fuel' (endGame (state a')) a' in
        (a'', callbacks q ++ out)
    end
  else (a', callbacks q).

(** What the host delivers to the component. *)
Inductive Event :=
| Click (rnd : nat -> R)                       (* a start button: startGame *)
| MouseMove (clientX clientY rectLeft rectTop : R)  (* onMouseMove of the canvas *)
| AnimationFrame (rnd : nat -> R) (now : Z)    (* the pending frame fires *)
| Timeout.                                     (* the pending timeout fires *)

Record Outcome := mkOutcome {
  next : Arena;
  notified : list Action;
  drawn : list DrawCmd
}.

Definition settled (q : list Action) (a : Arena) (d : list DrawCmd) : Outcome :=
  let (a', out) := settle 2 q a in mkOutcome a' out d.

(** One event, handled to completion.  Event handlers of the UI are those
    of the latest render; a frame or timeout runs the closure that was
    registered.  A callback that is not pending does not fire. *)
Definition step (a : Arena) (e : Event) : Outcome :=
  match e with
  | Click rnd => settled (startGame rnd) a []
  | MouseMove clientX clientY rectLeft rectTop =>
      settled
        (handleMouseMove (canvasRef a) (state a) clientX clientY rectLeft rectTop)
        a []
  | AnimationFrame rnd now =>
      match frame a with
      | None => mkOutcome a [] []
      | Some c =>
          match gameLoop (canvasRef a) c rnd now with
          | Throw _ =>
              mkOutcome (mkArena (state a) (canvasRef a) None (timer a)) [] []
          | Normal (d, q, again) =>
              settled q
                (mkArena (state a) (canvasRef a)
                   (if again then Some c else None) (timer a)) d
          end
      end
  | Timeout =>
      match timer a with
      | None => mkOutcome a [] []
      | Some c =>
          settled (timeoutCallback c)
            (mkArena (state a) (canvasRef a) (frame a) None) []
      end
  end.

(** Mounting: the initial state comes from the [player] prop; the first
    effect sizes the canvas and spawns collectibles when the canvas and its
    context exist; the other two effects find [waiting] and do nothing. *)
Definition mount (player : Player.t) (canvas : option Canvas) (rnd : nat -> R)
  : Arena :=
  let s0 := mkState waiting player [] 60 in
  match canvas with
  | None => mkArena s0 None (loopEffect s0) None
  | Some cv =>
      match getContext cv with
      | None => mkArena s0 (Some cv) (loopEffect s0) None
      | Some _ =>
          fst (settle 2 (spawnCollectibles rnd)
                 (mkArena s0 (Some (mkCanvas 600 400 (has2d cv)))
                    (loopEffect s0) None))
      end
  end.

(** States the component can be in. *)
Inductive reachable : Arena -> Prop :=
| reach_mount player canvas rnd : reachable (mount player canvas rnd)
| reach_step a e : reachable a -> reachable (next (step a e)).

(** ** Vocabulary of the statements *)

(** The pickup test of [checkCollisions] for the player of [s]. *)
Definition near (s : State) (c : Collectible.t) : bool :=
  js_lt (distance (currentPlayer s) c) 20.

(** The Euclidean distance between the centres, which [distance] computes
    in double precision. *)
Definition euclid (p : Player.t) (c : Collectible.t) : R :=
  sqrt ((Player.x p - Collectible.x c) ^ 2 + (Player.y p - Collectible.y c) ^ 2).

(** The collectibles a tick on [s] leaves and takes. *)
Definition keptBy (s : State) : list Collectible.t :=
  filter (fun c => negb (near s c)) (collectibles s).

Definition takenBy (s : State) : list Collectible.t :=
  filter (near s) (collectibles s).

(** The actions one collected item contributes. *)
Definition pickup (s : State) (c : Collectible.t) : list Action :=
  if near s c then snd (collide s c) else [].

(** The score a tick on [s] ends with: every pickup stores the captured
    score plus its own value. *)
Definition scoreAfter (s : State) : Z :=
  fold_left
    (fun _ c => Player.score (currentPlayer s) + Collectible.value c)
    (takenBy s) (Player.score (currentPlayer s)).

(** The collectibles a tick on [s] ends with. *)
Definition collectiblesAfter (s : State) (rnd : nat -> R) (now : Z)
  : list Collectible.t :=
  match takenBy s with
  | [] => collectibles s
  | _ :: _ =>
      keptBy s ++
      (if (List.length (keptBy s) <? 5)%nat
       then [newCollectible ("collectible-" ++ showZ now) rnd 0] else [])
  end.

(** The state after the batch of one collision check on [s]. *)
Definition tick (s : State) (rnd : nat -> R) (now : Z) : State :=
  reduce s (checkCollisions s rnd now).

(** The player [startGame] stores. *)
Definition resetPlayer (prev : Player.t) : Player.t :=
  Player.mk (Player.id prev) (Player.nftId prev) (Player.x prev) (Player.y prev)
    0 100 (Player.color prev) (Player.name prev).

Definition scoreOf (a : Arena) : Z := Player.score (currentPlayer (state a)).

Definition count (a : Arena) : nat := List.length (collectibles (state a)).

(** Draws of [Math.random()] lie in [0, 1). *)
Definition validDraws (rnd : nat -> R) : Prop := forall k, (0 <= rnd k < 1)%R.

Definition spawnedValue (c : Collectible.t) : Prop :=
  Collectible.value c = 10 \/ Collectible.value c = 50.

(** What a pending frame's closure shares with the committed state. *)
Definition sameLoopView (c s : State) : Prop :=
  gameState c = gameState s /\
  currentPlayer c = currentPlayer s /\
  collectibles c = collectibles s.

(** While playing exactly the current render's loop is pending; otherwise
    no frame is. *)
Definition FrameOK (a : Arena) : Prop :=
  match gameState (state a) with
  | playing => exists c, frame a = Some c /\ sameLoopView c (state a)
  | _ => frame a = None
  end.

(** While playing the countdown is positive and its timeout is pending;
    otherwise no timeout is. *)
Definition TimerOK (a : Arena) : Prop :=
  match gameState (state a) with
  | playing =>
      0 < timeLeft (state a) /\
      exists c, timer a = Some c /\ timeLeft c = timeLeft (state a)
  | _ => timer a = None
  end.

(** The invariant of the event loop. *)
Record Inv (a : Arena) : Prop := mkInv {
  inv_time : 0 <= timeLeft (state a) <= 60;
  inv_values : Forall spawnedValue (collectibles (state a));
  inv_frame : FrameOK a;
  inv_timer : TimerOK a
}.

(** Whether [render] finds a canvas with a 2D context. *)
Definition surfaceAvailable (canvasRef : option Canvas) : bool :=
  match canvasRef with
  | Some canvas => has2d canvas
  | None => false
  end.

Definition isClick (e : Event) : bool :=
  match e with Click _ => true | _ => false end.

(** A sequence of events, with the notifications it produces. *)
Fixpoint run (a : Arena) (es : list Event) : Arena * list Action :=
  match es with
  | [] => (a, [])
  | e :: es' =>
      let o := step a e in
      let (a', out) := run (next o) es' in
      (a', notified o ++ out)
  end.

Definition sumValues (cs : list Collectible.t) : Z :=
  fold_right (fun c acc => Collectible.value c + acc) 0 cs.

(** ** A concrete run *)

(** Every draw is 0.5. *)
Definition half : nat -> R := fun _ => (1 / 2)%R.

(** The [player] prop as the page passes it: id [player-1], centre of the
    arena, the page's current score (0 on a fresh page), full health.  The
    NFT id, colour and name stand for those of the selected character. *)
Definition propsPlayer : Player.t :=
  Player.mk "player-1" "nft-1" 300 200 0 100 "#8b5cf6" "Champion".

(** A canvas element as created: default size, 2D context available. *)
Definition freshCanvas : Canvas := mkCanvas 300 150 true.

Definition mounted : Arena := mount propsPlayer (Some freshCanvas) half.

(** The start button pressed on the mounted component. *)
Definition started : Arena := next (step mounted (Click half)).

(** With every draw 0.5 a spawned collectible is a coin worth 10 at the
    centre of the arena. *)
Definition atCentre (c : Collectible.t) : Prop :=
  Collectible.x c = 300%R /\ Collectible.y c = 200%R /\
  Collectible.type c = coin /\ Collectible.value c = 10.

(** Draws that make a power-up worth 10: the type draw is 0.8, all others
    0.5. *)
Definition mixed : nat -> R :=
  fun k => if (k =? 2)%nat then (8 / 10)%R else (1 / 2)%R.

(** A round started on a component that mounted without a canvas. *)
Definition startedBlind : Arena :=
  next (step (mount propsPlayer None half) (Click half)).

(** An arena whose canvas ref now holds [canvas]. *)
Definition withCanvas (a : Arena) (canvas : option Canvas) : Arena :=
  mkArena (state a) canvas (frame a) (timer a).

(** An active round in its last second. *)
Definition lastSecond : Arena :=
  let s := mkState playing propsPlayer [] 1 in
  mkArena s (Some (mkCanvas 600 400 true)) (Some s) (Some s).

(** An active round with five coins, one of them under the player. *)
Definition fiveCoins : Arena :=
  let far := Collectible.mk "collectible-1" 25 25 coin 10 in
  let s :=
    mkState playing propsPlayer
      [Collectible.mk "collectible-0" 300 200 coin 10; far; far; far; far] 60 in
  mkArena s (Some (mkCanvas 600 400 true)) (Some s) (Some s).

(** Draws, all of them doubles, that put the first collectible at
    (25.757180158105086, 25.35753340521021) and make the other nine coins
    at the centre (300, 200). *)
Definition grazingDraws : nat -> R :=
  fun k =>
    if (k =? 0)%nat then (775008244976 / 562949953421312)%R
    else if (k =? 1)%nat then (575066896599 / 562949953421312)%R
    else (1 / 2)%R.

(** A round started with these draws, the pointer then moved to (33, 44). *)
Definition grazing : Arena :=
  next (step (next (step mounted (Click grazingDraws))) (MouseMove 33 44 0 0)).

(** ** Further vocabulary *)

(** The rectangle the pointer handler clamps to on the 600 x 400 canvas. *)
Definition inArena (p : Player.t) : Prop :=
  (15 <= Player.x p <= 585)%R /\ (15 <= Player.y p <= 385)%R.

(** The canvas, when there is one, has the size the first effect gives it. *)
Definition arenaCanvas (canvasRef : option Canvas) : Prop :=
  match canvasRef with
  | Some canvas => width canvas = 600 /\ height canvas = 400
  | None => True
  end.

(** The margin both spawn sites keep from the border. *)
Definition inSpawnArea (c : Collectible.t) : Prop :=
  (25 <= Collectible.x c < 575)%R /\ (25 <= Collectible.y c < 375)%R.

(** The loop indices of [forStep50], in order. *)
Definition gridStops (bound : Z) : list Z :=
  map (fun k => 50 * Z.of_nat k) (seq 0 (Z.to_nat ((bound + 49) / 50))).

Definition isArc (d : DrawCmd) : bool :=
  match d with arc _ _ _ _ _ => true | _ => false end.

Definition tenfold (z : Z) : Prop := 0 <= z /\ (10 | z).

(** * The page around the arena

    The functions of the page component ([Index]) that receive the arena's
    notifications, and the helpers they call: [createTransaction] of the
    transaction modal and [generateRandomNFT] of the character card.

    A call reads [Math.random()] and [Date.now()] through a [Host]: the
    successive results of each within that call.  The base-36 text of a
    number, [toString(36)], is a parameter. *)

Record Host := mkHost {
  random : nat -> R;
  now : nat -> Z
}.

Definition validHost (h : Host) : Prop := validDraws (random h).

(** ** Characters *)

Inductive Rarity := Common | Rare | Epic | Legendary.

Definition Rarity_eqb (a b : Rarity) : bool :=
  match a, b with
  | Common, Common | Rare, Rare | Epic, Epic | Legendary, Legendary => true
  | _, _ => false
  end.

Module NFTCharacterData.
Record t := mk {
  id : string;
  name : string;
  image : string;
  rarity : Rarity;
  level : Z;
  power : Z;
  defense : Z;
  speed : Z;
  special : string;
  color : string;
  wins : Z;
  totalGames : Z
}.
End NFTCharacterData.

(** [arr[i]] for a number [i]: undefined outside the array. *)
Definition at_ {A : Type} (arr : list A) (i : Z) : option A :=
  if i <? 0 then None else nth_error arr (Z.to_nat i).

(** [arr.indexOf(x)]: the first position of [x], or -1. *)
Fixpoint indexOfFrom (x : Rarity) (arr : list Rarity) (i : Z) : Z :=
  match arr with
  | [] => -1
  | y :: arr' => if Rarity_eqb y x then i else indexOfFrom x arr' (i + 1)
  end.

Definition indexOf (arr : list Rarity) (x : Rarity) : Z := indexOfFrom x arr 0.

Definition names : list string :=
  ["CyberKnight"; "NeonWarrior"; "PlasmaHunter"; "VoidWalker"; "StarBreaker";
   "TechMage"; "QuantumRider"; "EtherGuard"; "BlockLord"; "CryptoSage"]%string.

Definition rarities : list Rarity := [Common; Rare; Epic; Legendary].

Definition colors : list string :=
  ["#8b5cf6"; "#06b6d4"; "#10b981"; "#f59e0b"; "#ef4444"; "#ec4899"]%string.

Definition specials : list string :=
  ["Lightning Strike"; "Shield Boost"; "Speed Burst"; "Double Score";
   "Health Regen"; "Coin Magnet"; "Time Freeze"; "Power Surge"]%string.

(** [id || fallback]: the empty string is falsy like a missing argument. *)
Definition orElse (id : option string) (fallback : string) : string :=
  match id with
  | Some s => if (s =? "")%string then fallback else s
  | None => fallback
  end.

Definition isFalsy (id : option string) : bool :=
  match id with
  | Some s => (s =? "")%string
  | None => true
  end.

(** The generator.  Draw 0 picks the rarity; the id fallback, evaluated
    only for a falsy [id], takes the next draw; the remaining fields take
    one draw each in the order of the object literal.  [None] stands for a
    character with an undefined field (an array read out of range). *)
Definition generateRandomNFT (toString36 : R -> string) (h : Host)
    (id : option string) : option NFTCharacterData.t :=
  let rnd := random h in
  let k := if isFalsy id then 1%nat else 0%nat in
  match at_ rarities (Zfloor (rnd 0%nat * IZR (Z.of_nat (List.length rarities)))) with
  | None => None
  | Some rarity =>
      let rarityMultiplier := indexOf rarities rarity + 1 in
      match
        at_ names (Zfloor (rnd (1 + k)%nat * IZR (Z.of_nat (List.length names)))),
        at_ specials (Zfloor (rnd (6 + k)%nat * IZR (Z.of_nat (List.length specials)))),
        at_ colors (Zfloor (rnd (7 + k)%nat * IZR (Z.of_nat (List.length colors))))
      with
      | Some name, Some special, Some color =>
          Some (NFTCharacterData.mk
            (orElse id
               ("nft-" ++ showZ (now h 0%nat) ++ "-"
                ++ substring 2 9 (toString36 (rnd 1%nat))))
            name
            ""
            rarity
            (Zfloor (rnd (2 + k)%nat * 10) + 1)
            (Zfloor (rnd (3 + k)%nat * 50) + rarityMultiplier * 10)
            (Zfloor (rnd (4 + k)%nat * 50) + rarityMultiplier * 10)
            (Zfloor (rnd (5 + k)%nat * 50) + rarityMultiplier * 10)
            special
            color
            (Zfloor (rnd (8 + k)%nat * 20))
            (Zfloor (rnd (9 + k)%nat * 30) + 5))
      | _, _, _ => None
      end
  end.

(** [Math.round]: the nearest integer, halves upwards. *)
Definition js_round (x : R) : Z := Zfloor (x + 1 / 2).

(** The win rate the character card shows. *)
Definition winRate (character : NFTCharacterData.t) : Z :=
  if NFTCharacterData.totalGames character >? 0 then
    js_round
      (js_mul
         (js_div (IZR (NFTCharacterData.wins character))
                 (IZR (NFTCharacterData.totalGames character)))
         100)
  else 0.

(** ** Transactions *)

Inductive TxType := mint | trade | upgrade | bridge | leaderboard.

Inductive TxStatus := pending | confirmed | failed.

Module Transaction.
Record t := mk {
  id : string;
  type : TxType;
  status : TxStatus;
  hash : string;
  from : option string;
  to : option string;
  amount : option R;
  currency : option string;
  gasUsed : option Z;
  timestamp : Z;
  blockNumber : option Z;
  details : string
}.
End Transaction.

(** [Partial<Transaction>]: every property may be absent. *)
Module Partial.
Record t := mk {
  id : option string;
  type : option TxType;
  status : option TxStatus;
  hash : option string;
  from : option string;
  to : option string;
  amount : option R;
  currency : option string;
  gasUsed : option Z;
  timestamp : option Z;
  blockNumber : option Z;
  details : option string
}.
End Partial.

Definition noOptions : Partial.t :=
  Partial.mk None None None None None None None None None None None None.

(** One property of [{...base, ...options}]. *)
Definition over {A : Type} (base : A) (o : option A) : A :=
  match o with Some v => v | None => base end.

Definition overOpt {A : Type} (base : option A) (o : option A) : option A :=
  match o with Some v => Some v | None => base end.

Definition spread (base : Transaction.t) (options : Partial.t) : Transaction.t :=
  Transaction.mk
    (over (Transaction.id base) (Partial.id options))
    (over (Transaction.type base) (Partial.type options))
    (over (Transaction.status base) (Partial.status options))
    (over (Transaction.hash base) (Partial.hash options))
    (overOpt (Transaction.from base) (Partial.from options))
    (overOpt (Transaction.to base) (Partial.to options))
    (overOpt (Transaction.amount base) (Partial.amount options))
    (overOpt (Transaction.currency base) (Partial.currency options))
    (overOpt (Transaction.gasUsed base) (Partial.gasUsed options))
    (over (Transaction.timestamp base) (Partial.timestamp options))
    (overOpt (Transaction.blockNumber base) (Partial.blockNumber options))
    (over (Transaction.details base) (Partial.details options)).

Fixpoint repeatString (s : string) (n : nat) : string :=
  match n with
  | O => ""
  | S n' => s ++ repeatString s n'
  end.

(** [s.repeat(count)]: a negative count throws a RangeError. *)
Definition js_repeat (s : string) (count : Z) : Completion string :=
  if count <? 0 then Throw "RangeError" else Normal (repeatString s (Z.to_nat count)).

(** The stem of the hash: at most 13 characters of the draw's text. *)
Definition baseHashOf (toString36 : R -> string) (h : Host) : string :=
  substring 2 13 (toString36 (random h 0%nat)).

(** [createTransaction]: draw 0 gives the hash stem, the clock is read for
    the id and again for the timestamp, draws 1 and 2 give gas and block. *)
Definition createTransaction (toString36 : R -> string) (h : Host)
    (type : TxType) (details : string) (options : Partial.t)
  : Completion Transaction.t :=
  let baseHash := substring 2 13 (toString36 (random h 0%nat)) in
  bind (js_repeat "0" (64 - Z.of_nat (String.length baseHash))) (fun zeros =>
  Normal (spread
    (Transaction.mk
       ("tx-" ++ showZ (now h 0%nat))
       type
       pending
       ("0x" ++ baseHash ++ zeros)
       None None None None
       (Some (Zfloor (random h 1%nat * 100000) + 21000))
       (now h 1%nat)
       (Some (Zfloor (random h 2%nat * 1000000) + 18000000))
       details)
    options)).

(** ** The page component *)

(** The host as a later part of the same call sees it: [draws] results of
    [Math.random()] and [clocks] of [Date.now()] have been consumed. *)
Definition shift (h : Host) (draws clocks : nat) : Host :=
  mkHost (fun k => random h (draws + k)%nat) (fun k => now h (clocks + k)%nat).

Record Toast := mkToast {
  title : string;
  description : string;
  variant : option string
}.

Module Index.

Record Modal := mkModal {
  isOpen : bool;
  transaction : option Transaction.t
}.

(** The page's state cells the handlers below touch, the timeouts of
    [showTransaction] that have not fired yet (oldest first; they share one
    delay, so they fire in that order) and the toasts shown so far. *)
Record t := mk {
  playerCharacter : option NFTCharacterData.t;
  playerCollection : list NFTCharacterData.t;
  currentScore : Z;
  totalEarnings : R;
  transactionModal : Modal;
  confirmations : list Transaction.t;
  toasts : list Toast
}.

Definition showTransaction (page : t) (transaction : Transaction.t) : t :=
  mk (playerCharacter page) (playerCollection page) (currentScore page)
    (totalEarnings page)
    (mkModal true (Some transaction))
    (confirmations page ++ [transaction])
    (toasts page).

(** The timeout of the oldest pending [showTransaction] fires. *)
Definition confirmationDue (page : t) (h : Host) : t :=
  match confirmations page with
  | [] => page
  | transaction :: rest =>
      let confirmedTransaction :=
        Transaction.mk
          (Transaction.id transaction) (Transaction.type transaction)
          confirmed
          (Transaction.hash transaction) (Transaction.from transaction)
          (Transaction.to transaction) (Transaction.amount transaction)
          (Transaction.currency transaction) (Transaction.gasUsed transaction)
          (Transaction.timestamp transaction)
          (Some (Zfloor (random h 0%nat * 1000000) + 18000000))
          (Transaction.details transaction) in
      mk (playerCharacter page) (playerCollection page) (currentScore page)
        (totalEarnings page)
        (mkModal true (Some confirmedTransaction))
        rest
        (toasts page ++
           [mkToast "✅ Transaction Confirmed"
              (Transaction.details transaction ++ " - View on Endless Explorer")
              None])
  end.

(** [onClose] of the transaction modal. *)
Definition closeTransactionModal (page : t) : t :=
  mk (playerCharacter page) (playerCollection page) (currentScore page)
    (totalEarnings page) (mkModal false None) (confirmations page) (toasts page).

Definition handleScoreUpdate (page : t) (score : Z) : t :=
  mk (playerCharacter page) (playerCollection page) score
    (totalEarnings page) (transactionModal page) (confirmations page)
    (toasts page).

Definition addEarnings (page : t) (delta : R) : t :=
  mk (playerCharacter page) (playerCollection page) (currentScore page)
    (totalEarnings page + delta)%R (transactionModal page) (confirmations page)
    (toasts page).

Definition handleGameEnd (toString36 : R -> string) (h : Host) (page : t)
    (finalScore : Z) : Completion t :=
  if finalScore >? 0 then
    bind
      (createTransaction toString36 h leaderboard
         ("Recorded high score of " ++ showZ finalScore ++ " points on leaderboard")
         (Partial.mk None None None None None None
            (Some (IZR finalScore * (1 / 1000))%R) (Some "ENDLESS"%string)
            None None None None))
      (fun transaction =>
         Normal (addEarnings (showTransaction page transaction)
                   (IZR finalScore * (1 / 10))%R))
  else Normal page.

(** [playerCollection.find(c => c.id === characterId)]. *)
Definition findCharacter (collection : list NFTCharacterData.t)
    (characterId : string) : option NFTCharacterData.t :=
  find (fun c => (NFTCharacterData.id c =? characterId)%string) collection.

Definition upgraded (character : NFTCharacterData.t) : NFTCharacterData.t :=
  NFTCharacterData.mk
    (NFTCharacterData.id character) (NFTCharacterData.name character)
    (NFTCharacterData.image character) (NFTCharacterData.rarity character)
    (NFTCharacterData.level character + 1)
    (Z.min 100 (NFTCharacterData.power character + 5))
    (Z.min 100 (NFTCharacterData.defense character + 5))
    (Z.min 100 (NFTCharacterData.speed character + 5))
    (NFTCharacterData.special character) (NFTCharacterData.color character)
    (NFTCharacterData.wins character) (NFTCharacterData.totalGames character).

Definition handleUpgradeNFT (toString36 : R -> string) (h : Host) (page : t)
    (characterId : string) : Completion t :=
  match findCharacter (playerCollection page) characterId with
  | None => Normal page
  | Some character =>
      let upgradedCharacter := upgraded character in
      bind
        (createTransaction toString36 h upgrade
           ("Upgraded " ++ NFTCharacterData.name character ++ " to Level "
            ++ showZ (NFTCharacterData.level upgradedCharacter))
           (Partial.mk None None None None None None
              (Some (1 / 10)%R) (Some "ETH"%string) None None None None))
        (fun transaction =>
           let page1 := showTransaction page transaction in
           Normal
             (mk
                (match playerCharacter page1 with
                 | Some pc =>
                     if (NFTCharacterData.id pc =? characterId)%string
                     then Some upgradedCharacter else Some pc
                 | None => None
                 end)
                (map (fun c =>
                        if (NFTCharacterData.id c =? characterId)%string
                        then upgradedCharacter else c)
                   (playerCollection page1))
                (currentScore page1) (totalEarnings page1)
                (transactionModal page1) (confirmations page1) (toasts page1)))
  end.

Definition handleTradeNFT (toString36 : R -> string) (h : Host) (page : t)
    (characterId : string) : Completion t :=
  match findCharacter (playerCollection page) characterId with
  | None => Normal page
  | Some character =>
      bind
        (createTransaction toString36 (shift h 1 0) trade
           ("Listed " ++ NFTCharacterData.name character
            ++ " for trade on marketplace")
           (Partial.mk None None None None None None
              (Some (js_add (js_mul (random h 0%nat) 2) (1 / 2)))
              (Some "ETH"%string)
              None None None None))
        (fun transaction =>
           let page1 := showTransaction page transaction in
           Normal
             (mk (playerCharacter page1) (playerCollection page1)
                (currentScore page1) (totalEarnings page1)
                (transactionModal page1) (confirmations page1)
                (toasts page1 ++
                   [mkToast "🛒 NFT Listed"
                      (NFTCharacterData.name character
                       ++ " is now available on the marketplace")
                      None])))
  end.

(** The verification transaction of a leaderboard entry: it is built
    already confirmed and shown without a confirmation timeout. *)
Definition handleViewTransaction (toString36 : R -> string) (h : Host) (page : t)
    (entryId : string) : Completion t :=
  bind (js_repeat "0" 60) (fun zeros =>
  bind
    (createTransaction toString36 (shift h 1 0) leaderboard
       "Leaderboard entry verification transaction"
       (Partial.mk None None (Some confirmed)
          (Some ("0x" ++ entryId ++ zeros)%string)
          None None None None None None
          (Some (Zfloor (random h 0%nat * 1000000) + 18000000)) None))
    (fun mockTransaction =>
       Normal
         (mk (playerCharacter page) (playerCollection page) (currentScore page)
            (totalEarnings page) (mkModal true (Some mockTransaction))
            (confirmations page) (toasts page)))).

(** What the page does with one notification of the arena. *)
Definition deliver (toString36 : R -> string) (h : Host) (page : t)
    (a : Action) : Completion t :=
  match a with
  | onScoreUpdate score => Normal (handleScoreUpdate page score)
  | onGameEnd finalScore => handleGameEnd toString36 h page finalScore
  | _ => Normal page
  end.

(** The notifications of one event, in order; [hosts k] serves the call
    for the [k]-th of them. *)
Fixpoint deliverAll (toString36 : R -> string) (hosts : nat -> Host) (page : t)
    (q : list Action) : Completion t :=
  match q with
  | [] => Normal page
  | a :: q' =>
      bind (deliver toString36 (hosts 0%nat) page a) (fun page' =>
        deliverAll toString36 (fun k => hosts (S k)) page' q')
  end.

End Index.

(** ** The leaderboard *)

Module LeaderboardEntry.
Record t := mk {
  id : string;
  playerName : string;
  nftId : string;
  nftName : string;
  score : Z;
  rank : Z;
  blockchain : string;
  timestamp : Z;
  verified : bool
}.
End LeaderboardEntry.

(** The [currentPlayer] prop of the leaderboard. *)
Module CurrentPlayer.
Record t := mk {
  name : string;
  nftId : string;
  score : Z
}.
End CurrentPlayer.

(** [Array.prototype.sort] is stable: for a comparator that orders
    consistently its result is the one stable arrangement, computed here by
    insertion.  [cmp a b <= 0] keeps [a] before [b]. *)
Fixpoint insertBy {A : Type} (cmp : A -> A -> Z) (x : A) (l : list A) : list A :=
  match l with
  | [] => [x]
  | y :: l' => if cmp x y <=? 0 then x :: l else y :: insertBy cmp x l'
  end.

Definition js_sort {A : Type} (cmp : A -> A -> Z) (l : list A) : list A :=
  fold_right (insertBy cmp) [] l.

(** [arr.map((entry, index) => f(entry, index))], from index [i]. *)
Fixpoint mapIndexFrom {A B : Type} (f : A -> Z -> B) (i : Z) (l : list A) : list B :=
  match l with
  | [] => []
  | x :: l' => f x i :: mapIndexFrom f (i + 1) l'
  end.

Definition byScoreDesc (a b : LeaderboardEntry.t) : Z :=
  LeaderboardEntry.score b - LeaderboardEntry.score a.

Definition withRank (entry : LeaderboardEntry.t) (index : Z) : LeaderboardEntry.t :=
  LeaderboardEntry.mk
    (LeaderboardEntry.id entry) (LeaderboardEntry.playerName entry)
    (LeaderboardEntry.nftId entry) (LeaderboardEntry.nftName entry)
    (LeaderboardEntry.score entry) (index + 1)
    (LeaderboardEntry.blockchain entry) (LeaderboardEntry.timestamp entry)
    (LeaderboardEntry.verified entry).

(** The five fixed entries; each reads the clock once. *)
Definition mockEntries (now : nat -> Z) : list LeaderboardEntry.t :=
  [LeaderboardEntry.mk "entry-1" "CryptoMaster" "nft-legendary-001" "NeonWarrior"
     2850 1 "Endless" (now 0%nat - 3600000) true;
   LeaderboardEntry.mk "entry-2" "BlockChainer" "nft-epic-045" "CyberKnight"
     2420 2 "Endless" (now 1%nat - 7200000) true;
   LeaderboardEntry.mk "entry-3" "NFTHunter" "nft-rare-123" "PlasmaHunter"
     2180 3 "Endless" (now 2%nat - 10800000) true;
   LeaderboardEntry.mk "entry-4" "ArenaKing" "nft-epic-078" "VoidWalker"
     1950 4 "Endless" (now 3%nat - 14400000) true;
   LeaderboardEntry.mk "entry-5" "ChainWarrior" "nft-legendary-002" "StarBreaker"
     1820 5 "Endless" (now 4%nat - 18000000) true].

(** The entry built for the current player before sorting. *)
Definition playerEntry (now : nat -> Z) (currentPlayer : CurrentPlayer.t)
  : LeaderboardEntry.t :=
  LeaderboardEntry.mk "current-player" (CurrentPlayer.name currentPlayer)
    (CurrentPlayer.nftId currentPlayer) "Your NFT"
    (CurrentPlayer.score currentPlayer)
    (Z.of_nat
       (List.length
          (filter (fun entry =>
                     LeaderboardEntry.score entry >? CurrentPlayer.score currentPlayer)
             (mockEntries now))) + 1)
    "Endless" (now 5%nat) false.

(** [generateLeaderboard]: the list it stores with [setLeaderboard]. *)
Definition generateLeaderboard (now : nat -> Z) (currentPlayer : option CurrentPlayer.t)
  : list LeaderboardEntry.t :=
  match currentPlayer with
  | Some cp =>
      if CurrentPlayer.score cp >? 0 then
        mapIndexFrom withRank 0
          (js_sort byScoreDesc (mockEntries now ++ [playerEntry now cp]))
      else mockEntries now
  | None => mockEntries now
  end.

(** [formatTimestamp] of the leaderboard, at clock [nowMs]: [%] keeps the
    sign of the dividend, [Math.floor] of the quotients rounds down. *)
Definition formatTimestamp (nowMs timestamp : Z) : string :=
  let diff := nowMs - timestamp in
  let hours := diff / 3600000 in
  let minutes := Z.rem diff 3600000 / 60000 in
  if hours >? 0 then (showZ hours ++ "h ago")%string
  else (showZ minutes ++ "m ago")%string.

(** Scores from high to low. *)
Definition scoreOrder (a b : LeaderboardEntry.t) : Prop :=
  LeaderboardEntry.score b <= LeaderboardEntry.score a.

(** The mock entries that stay above, and go below, an entry of score [s]. *)
Definition aboveScore (s : Z) (l : list LeaderboardEntry.t) : list LeaderboardEntry.t :=
  filter (fun e => s <=? LeaderboardEntry.score e) l.

Definition belowScore (s : Z) (l : list LeaderboardEntry.t) : list LeaderboardEntry.t :=
  filter (fun e => LeaderboardEntry.score e <? s) l.

(** ** The bridge *)

Inductive GameType := RPG | Strategy | Racing | Adventure.

Module PartnerGame.
Record t := mk {
  id : string;
  name : string;
  description : string;
  type : GameType;
  compatibility : list string;
  rewards : string;
  playerCount : Z;
  isLive : bool
}.
End PartnerGame.

Definition partnerGames : list PartnerGame.t :=
  [PartnerGame.mk "endless-rpg" "Endless Quest RPG"
     "Epic fantasy adventure with your NFT heroes" RPG
     ["All rarities"; "Power-based scaling"]%string
     "Rare loot & XP multipliers" 15420 true;
   PartnerGame.mk "cyber-racers" "Cyber Racers: Endless"
     "High-speed racing with NFT vehicles" Racing
     ["Speed stats matter"; "Epic+ preferred"]%string
     "Racing tokens & trophies" 8730 true;
   PartnerGame.mk "magic-realms" "Magic Realms"
     "Spell-casting battles and magical quests" Adventure
     ["Magic-based characters"; "Level scaling"]%string
     "Spell scrolls & artifacts" 12150 false;
   PartnerGame.mk "guild-wars" "Guild Wars: Endless"
     "Strategic guild battles and territory control" Strategy
     ["Team strategy focus"; "Defense stats key"]%string
     "Guild tokens & territory NFTs" 6840 true].

Definition isRPG (t : GameType) : bool :=
  match t with RPG => true | _ => false end.

Definition getBridgeBenefits (character : option NFTCharacterData.t)
    (game : PartnerGame.t) : list string :=
  match character with
  | None => []
  | Some character =>
      let benefits := ["Cross-game progression"; "Unique rewards"]%string in
      let benefits :=
        if Rarity_eqb (NFTCharacterData.rarity character) Legendary
        then benefits ++ ["VIP access"%string] else benefits in
      let benefits :=
        if NFTCharacterData.power character >? 70
        then benefits ++ ["Power bonus"%string] else benefits in
      let benefits :=
        if isRPG (PartnerGame.type game) && (NFTCharacterData.level character >? 5)
        then benefits ++ ["Level advantage"%string] else benefits in
      benefits
  end.

Module BridgeModal.

(** The click on a game card: [game.isLive && setSelectedGame(game.id)]. *)
Definition selectGame (selectedGame : option string) (game : PartnerGame.t)
  : option string :=
  if PartnerGame.isLive game then Some (PartnerGame.id game) else selectedGame.

(** The cards clicked one after the other. *)
Definition selectGames (selectedGame : option string) (clicks : list PartnerGame.t)
  : option string :=
  fold_left selectGame clicks selectedGame.

(** What [handleBridge] calls. *)
Inductive Call :=
| onBridge (gameId characterId : string)
| onClose.

Definition handleBridge (selectedGame : option string)
    (character : option NFTCharacterData.t) : list Call :=
  match selectedGame, character with
  | Some gameId, Some character =>
      if (gameId =? "")%string then []
      else [onBridge gameId (NFTCharacterData.id character); onClose]
  | _, _ => []
  end.

End BridgeModal.

(** The live game among the cards clicked that was clicked last. *)
Fixpoint lastLive (clicks : list PartnerGame.t) : option PartnerGame.t :=
  match clicks with
  | [] => None
  | game :: rest =>
      match lastLive rest with
      | Some later => Some later
      | None => if PartnerGame.isLive game then Some game else None
      end
  end.

(** [s.replace(c, '')] for a one-character pattern: the first occurrence
    goes. *)
Fixpoint removeFirst (c : Ascii.ascii) (s : string) : string :=
  match s with
  | EmptyString => EmptyString
  | String d s' => if Ascii.eqb d c then s' else String d (removeFirst c s')
  end.

(** [s.padEnd(targetLength, c)] for a one-character pad. *)
Definition padEnd (s : string) (targetLength : nat) (c : Ascii.ascii) : string :=
  (s ++ repeatString (String c "") (targetLength - String.length s))%string.

(** The own properties of the [games] object of [handleBridgeNFT]. *)
Definition games : list (string * string) :=
  [("endless-rpg", "Endless Quest RPG"); ("cyber-racers", "Cyber Racers: Endless");
   ("magic-realms", "Magic Realms"); ("guild-wars", "Guild Wars: Endless")]%string.

Fixpoint ownProperty (obj : list (string * string)) (key : string) : option string :=
  match obj with
  | [] => None
  | (k, v) :: obj' => if (k =? key)%string then Some v else ownProperty obj' key
  end.

(** [`${games[gameId]}`]: an own property prints its value; for any other
    key [inherited] gives the text, "undefined" unless the key names a
    property of [Object.prototype]. *)
Definition gameText (inherited : string -> string) (gameId : string) : string :=
  match ownProperty games gameId with
  | Some v => v
  | None => inherited gameId
  end.

Definition bridgeAddress (gameId : string) : string :=
  ("0x" ++ padEnd (removeFirst "-"%char gameId) 40 "0"%char)%string.

Definition handleBridgeNFT (toString36 : R -> string) (inherited : string -> string)
    (h : Host) (page : Index.t) (gameId characterId : string)
  : Completion Index.t :=
  match Index.findCharacter (Index.playerCollection page) characterId with
  | None => Normal page
  | Some character =>
      bind
        (createTransaction toString36 h bridge
           ("Bridged " ++ NFTCharacterData.name character ++ " to "
            ++ gameText inherited gameId)
           (Partial.mk None None None None None (Some (bridgeAddress gameId))
              None None None None None None))
        (fun transaction =>
           let page1 := Index.showTransaction page transaction in
           Normal
             (Index.mk (Index.playerCharacter page1) (Index.playerCollection page1)
                (Index.currentScore page1) (Index.totalEarnings page1)
                (Index.transactionModal page1) (Index.confirmations page1)
                (Index.toasts page1 ++
                   [mkToast "🌉 NFT Bridged"
                      (NFTCharacterData.name character ++ " is now active in "
                       ++ gameText inherited gameId)
                      None])))
  end.

(** ** Concrete page inputs *)

(** A host whose every draw is 0.5, at clock 1700000000000. *)
Definition halfHost : Host := mkHost half (fun _ => 1700000000000).

(** The base-36 text of 0.5. *)
Definition halfText : R -> string := fun _ => "0.i"%string.

(** A page before any transaction, with one character. *)
Definition rookie : NFTCharacterData.t :=
  NFTCharacterData.mk "starter-001" "Arena Rookie" "" Common 3 40 25 98
    "Shield Boost" "#8b5cf6" 4 10.

(** A character with 23 wins in 40 games: 57.5 percent. *)
Definition seasoned : NFTCharacterData.t :=
  NFTCharacterData.mk "nft-0575" "Arena Veteran" "" Rare 5 60 55 50
    "Time Slow" "#06b6d4" 23 40.

Definition freshPage : Index.t :=
  Index.mk (Some rookie) [rookie] 0 0 (Index.mkModal false None) [] [].

(** A transaction as [createTransaction] makes it. *)
Definition demoTx : Transaction.t :=
  Transaction.mk "tx-1700000000000" upgrade pending
    "0xi000000000000000000000000000000000000000000000000000000000000000"
    None None (Some (1 / 10)%R) (Some "ETH"%string) (Some 71000)
    1700000000000 (Some 18500000) "Upgraded Arena Rookie to Level 4".

(** ** Double-precision arithmetic *)

Lemma pow2_pos (k : Z) : (0 < pow2 k)%R.
Proof. apply powerRZ_lt. lra. Qed.

Lemma pow2_add (a b : Z) : pow2 (a + b) = (pow2 a * pow2 b)%R.
Proof. apply powerRZ_add. lra. Qed.

Lemma pow2_IZR (n : Z) : 0 <= n -> pow2 n = IZR (2 ^ n).
Proof.
  intros Hn. destruct n as [|p|p]; [reflexivity| |lia].
  unfold pow2, powerRZ. rewrite pow_IZR, positive_nat_Z. reflexivity.
Qed.

Lemma pow2_opp (k : Z) : pow2 (- k) = (/ pow2 k)%R.
Proof. apply powerRZ_neg'. Qed.

Lemma pow2_le (a b : Z) : a <= b -> (pow2 a <= pow2 b)%R.
Proof.
  intros H. replace b with (a + (b - a)) by lia. rewrite pow2_add.
  rewrite (pow2_IZR (b - a)) by lia.
  assert (H0 : 1 <= 2 ^ (b - a))
    by (assert (0 < 2 ^ (b - a)) by (apply Z.pow_pos_nonneg; lia); lia).
  apply IZR_le in H0. pose proof (pow2_pos a). nra.
Qed.

Lemma pow2_div (x : R) (a b : Z) : (x * pow2 a / pow2 b = x * pow2 (a - b))%R.
Proof.
  unfold Z.sub. rewrite pow2_add, pow2_opp. unfold Rdiv. ring.
Qed.

(** Rounding to the nearest integer. *)
Lemma nearestEven_IZR (n : Z) : nearestEven (IZR n) = n.
Proof.
  unfold nearestEven. rewrite ZfloorZ.
  destruct (Rlt_dec _ _) as [_|H]; [reflexivity | exfalso; lra].
Qed.

Lemma nearestEven_bound (x : R) :
  (x - 1 / 2 <= IZR (nearestEven x) <= x + 1 / 2)%R.
Proof.
  unfold nearestEven. pose proof (Zfloor_bound x) as Hb.
  destruct (Rlt_dec _ _) as [H1|H1]; [lra|].
  destruct (Rlt_dec _ _) as [H2|H2]; [rewrite plus_IZR; lra|].
  destruct (Z.even _); [|rewrite plus_IZR]; lra.
Qed.

Lemma nearestEven_le (x : R) (n : Z) : (x <= IZR n)%R -> nearestEven x <= n.
Proof.
  intros H. unfold nearestEven. pose proof (Zfloor_bound x) as Hb.
  assert (Hf : Zfloor x <= n).
  { apply Z.lt_succ_r. apply lt_IZR. rewrite succ_IZR. lra. }
  destruct (Z.eq_dec (Zfloor x) n) as [E|E].
  - assert (x = IZR n) by (rewrite E in Hb; lra). subst x.
    rewrite ZfloorZ. destruct (Rlt_dec _ _) as [_|H1]; [lia | exfalso; lra].
  - destruct (Rlt_dec _ _); [lia|]. destruct (Rlt_dec _ _); [lia|].
    destruct (Z.even _); lia.
Qed.

Lemma nearestEven_ge (x : R) (n : Z) : (IZR n <= x)%R -> n <= nearestEven x.
Proof.
  intros H. unfold nearestEven.
  pose proof (Zfloor_lub n x H) as Hf.
  destruct (Rlt_dec _ _); [lia|]. destruct (Rlt_dec _ _); [lia|].
  destruct (Z.even _); lia.
Qed.

Lemma nearestEven_near (x : R) (m : Z) :
  (Rabs (x - IZR m) < 1 / 2)%R -> nearestEven x = m.
Proof.
  intros H. apply Rabs_def2 in H. destruct H as [H1 H2].
  pose proof (nearestEven_bound x) as Hb.
  assert (L : nearestEven x < m + 1).
  { apply lt_IZR. rewrite plus_IZR. lra. }
  assert (U : m - 1 < nearestEven x).
  { apply lt_IZR. rewrite minus_IZR. lra. }
  lia.
Qed.

Lemma nearestEven_opp (x : R) : nearestEven (- x) = - nearestEven x.
Proof.
  pose proof (Zfloor_bound x) as Hb.
  destruct (Req_dec x (IZR (Zfloor x))) as [E|E].
  - rewrite E, <- opp_IZR, !nearestEven_IZR. reflexivity.
  - assert (Hf : Zfloor (- x) = - Zfloor x - 1).
    { apply Zfloor_eq. rewrite minus_IZR, opp_IZR. lra. }
    unfold nearestEven. rewrite Hf, minus_IZR, opp_IZR.
    destruct (Rlt_dec (x - _) _) as [A|A];
      destruct (Rlt_dec (- x - _) _) as [B|B]; try (exfalso; lra).
    + destruct (Rlt_dec _ (- x - _)) as [C|C]; [lia | exfalso; lra].
    + destruct (Rlt_dec _ (x - _)) as [C|C]; [lia | exfalso; lra].
    + destruct (Rlt_dec _ (x - _)) as [C|C];
        destruct (Rlt_dec _ (- x - _)) as [D|D]; try (exfalso; lra).
      replace (- Zfloor x - 1) with (- (Zfloor x + 1)) by lia.
      rewrite Z.even_opp, Z.even_add. simpl (Z.even 1).
      destruct (Z.even (Zfloor x)); simpl; lia.
Qed.

(** The exponent of the last place. *)
Lemma ulpExp_min (x : R) : -1074 <= ulpExp x.
Proof. unfold ulpExp. lia. Qed.

Lemma ulpExp_opp (x : R) : ulpExp (- x) = ulpExp x.
Proof. unfold ulpExp. rewrite Rabs_Ropp. reflexivity. Qed.

Lemma ulpExp_le (x : R) (k : Z) :
  -1074 <= k -> (Rabs x < pow2 (k + 53))%R -> ulpExp x <= k.
Proof.
  intros Hk Hx. unfold ulpExp.
  set (X := (Rabs x * pow2 1074)%R).
  assert (HX : (0 <= X < IZR (2 ^ (k + 1127)))%R).
  { unfold X. rewrite <- pow2_IZR by lia.
    replace (k + 1127) with (k + 53 + 1074) by lia. rewrite pow2_add.
    pose proof (pow2_pos 1074). pose proof (Rabs_pos x). split; nra. }
  pose proof (Zfloor_bound X) as Hb.
  assert (H0 : 0 <= Zfloor X) by (apply (Zfloor_lub 0); lra).
  assert (H1 : Zfloor X < 2 ^ (k + 1127)) by (apply lt_IZR; lra).
  assert (H2 : Z.log2 (Zfloor X) < k + 1127).
  { destruct (Z.eq_dec (Zfloor X) 0) as [E|E].
    - rewrite E. simpl. lia.
    - apply Z.log2_lt_pow2; lia. }
  lia.
Qed.

Lemma ulpExp_ge (x : R) (k : Z) :
  -1074 <= k -> (pow2 (k + 52) <= Rabs x)%R -> k <= ulpExp x.
Proof.
  intros Hk Hx. unfold ulpExp.
  set (X := (Rabs x * pow2 1074)%R).
  assert (HX : (IZR (2 ^ (k + 1126)) <= X)%R).
  { unfold X. rewrite <- pow2_IZR by lia.
    replace (k + 1126) with (k + 52 + 1074) by lia. rewrite pow2_add.
    pose proof (pow2_pos 1074). nra. }
  apply Zfloor_lub in HX.
  assert (H0 : 0 < 2 ^ (k + 1126)) by (apply Z.pow_pos_nonneg; lia).
  assert (H2 : k + 1126 <= Z.log2 (Zfloor X)) by (apply Z.log2_le_pow2; lia).
  lia.
Qed.

Lemma ulpExp_gt_inv (x : R) (k : Z) :
  -1074 <= k -> k < ulpExp x -> (pow2 (k + 53) <= Rabs x)%R.
Proof.
  intros Hk H. destruct (Rle_or_lt (pow2 (k + 53)) (Rabs x)) as [L|L];
    [assumption|].
  pose proof (ulpExp_le x k Hk L). lia.
Qed.

Lemma representable_IZR (n : Z) : Z.abs n < 2 ^ 53 -> representable (IZR n).
Proof.
  intros H. exists n, 0. split; [assumption|]. split; [lia|].
  unfold pow2. simpl. lra.
Qed.

Lemma representable_opp (a : R) : representable a -> representable (- a).
Proof.
  intros (m & k & Hm & Hk & E). exists (- m), k.
  rewrite Z.abs_opp, opp_IZR, E. repeat split; try assumption. ring.
Qed.

Lemma Rabs_dyadic (m k : Z) :
  Rabs (IZR m * pow2 k) = (IZR (Z.abs m) * pow2 k)%R.
Proof.
  rewrite Rabs_mult, <- abs_IZR, (Rabs_pos_eq (pow2 k)); [reflexivity|].
  apply Rlt_le, pow2_pos.
Qed.

(** A multiple of a lower power of two is a whole number of it. *)
Lemma dyadic_scale (m k u : Z) :
  u <= k -> (IZR m * pow2 k / pow2 u = IZR (m * 2 ^ (k - u)))%R.
Proof.
  intros H. rewrite pow2_div, mult_IZR, <- pow2_IZR by lia. reflexivity.
Qed.

Lemma double_opp (x : R) : double (- x) = (- double x)%R.
Proof.
  unfold double. rewrite ulpExp_opp.
  replace (- x / pow2 (ulpExp x))%R with (- (x / pow2 (ulpExp x)))%R
    by (unfold Rdiv; ring).
  rewrite nearestEven_opp, opp_IZR. ring.
Qed.

Lemma representable_ulpExp (m k : Z) :
  Z.abs m < 2 ^ 53 -> -1074 <= k -> ulpExp (IZR m * pow2 k) <= k.
Proof.
  intros Hm Hk. apply ulpExp_le; [assumption|].
  rewrite Rabs_dyadic, (Rmult_comm _ (pow2 k)), pow2_add.
  rewrite (pow2_IZR 53) by lia. apply IZR_lt in Hm.
  pose proof (pow2_pos k). nra.
Qed.

(** A double is its own rounding. *)
Lemma double_representable (a : R) : representable a -> double a = a.
Proof.
  intros (m & k & Hm & Hk & E). subst a.
  pose proof (representable_ulpExp m k Hm Hk) as Hu.
  unfold double. rewrite dyadic_scale by assumption.
  rewrite nearestEven_IZR, <- dyadic_scale by assumption.
  pose proof (pow2_pos (ulpExp (IZR m * pow2 k))). field. lra.
Qed.

Lemma double_IZR (n : Z) : Z.abs n < 2 ^ 53 -> double (IZR n) = IZR n.
Proof. intros H. apply double_representable, representable_IZR, H. Qed.

(** Rounding does not cross a double. *)
Lemma double_le_pos (x a : R) :
  representable a -> (0 <= x <= a)%R -> (double x <= a)%R.
Proof.
  intros (m & k & Hm & Hk & E) Hx. subst a.
  destruct (Z_le_gt_dec (ulpExp x) k) as [Hu|Hu].
  - unfold double. pose proof (pow2_pos (ulpExp x)) as Hp.
    assert (H : (x / pow2 (ulpExp x) <= IZR (m * 2 ^ (k - ulpExp x)))%R).
    { rewrite <- dyadic_scale by assumption.
      unfold Rdiv. apply Rmult_le_compat_r; [|lra].
      apply Rlt_le, Rinv_0_lt_compat, Hp. }
    apply nearestEven_le, IZR_le in H.
    rewrite <- dyadic_scale in H by assumption.
    apply (Rmult_le_compat_r (pow2 (ulpExp x))) in H; [|lra].
    replace (IZR m * pow2 k / pow2 (ulpExp x) * pow2 (ulpExp x))%R
      with (IZR m * pow2 k)%R in H by (field; lra).
    exact H.
  - exfalso.
    pose proof (ulpExp_gt_inv x k Hk ltac:(lia)) as L.
    rewrite Rabs_pos_eq in L by lra.
    assert (U : (IZR m * pow2 k < pow2 (k + 53))%R).
    { rewrite (Z.add_comm k), pow2_add, (pow2_IZR 53) by lia.
      assert (m < 2 ^ 53) by lia. apply IZR_lt in H.
      pose proof (pow2_pos k). nra. }
    lra.
Qed.

Lemma double_ge_pos (x a : R) :
  representable a -> (0 <= a <= x)%R -> (a <= double x)%R.
Proof.
  intros (m & k & Hm & Hk & E) Hx. subst a.
  pose proof (pow2_pos (ulpExp x)) as Hp.
  destruct (Z_le_gt_dec (ulpExp x) k) as [Hu|Hu].
  - unfold double.
    assert (H : (IZR (m * 2 ^ (k - ulpExp x)) <= x / pow2 (ulpExp x))%R).
    { rewrite <- dyadic_scale by assumption.
      unfold Rdiv. apply Rmult_le_compat_r; [|lra].
      apply Rlt_le, Rinv_0_lt_compat, Hp. }
    apply nearestEven_ge, IZR_le in H.
    rewrite <- dyadic_scale in H by assumption.
    apply (Rmult_le_compat_r (pow2 (ulpExp x))) in H; [|lra].
    replace (IZR m * pow2 k / pow2 (ulpExp x) * pow2 (ulpExp x))%R
      with (IZR m * pow2 k)%R in H by (field; lra).
    exact H.
  - pose proof (ulpExp_min x) as Hmin.
    pose proof (ulpExp_gt_inv x (ulpExp x - 1) ltac:(lia) ltac:(lia)) as L.
    rewrite Rabs_pos_eq in L by lra.
    replace (ulpExp x - 1 + 53) with (52 + ulpExp x) in L by lia.
    assert (H : (IZR (2 ^ 52) <= x / pow2 (ulpExp x))%R).
    { rewrite <- pow2_IZR by lia. rewrite pow2_add in L.
      apply (Rmult_le_reg_r (pow2 (ulpExp x))); [assumption|].
      replace (x / pow2 (ulpExp x) * pow2 (ulpExp x))%R with x by (field; lra).
      exact L. }
    apply nearestEven_ge, IZR_le in H. rewrite <- pow2_IZR in H by lia.
    apply (Rmult_le_compat_r (pow2 (ulpExp x))) in H; [|lra].
    rewrite <- pow2_add in H. unfold double.
    assert (U : (IZR m * pow2 k < pow2 (52 + ulpExp x))%R).
    { apply Rlt_le_trans with (pow2 (53 + k)).
      - rewrite pow2_add, (pow2_IZR 53) by lia.
        assert (Hm' : m < 2 ^ 53) by lia. apply IZR_lt in Hm'.
        pose proof (pow2_pos k). nra.
      - apply pow2_le. lia. }
    lra.
Qed.

Lemma representable_0 : representable 0.
Proof. apply (representable_IZR 0). reflexivity. Qed.

Lemma double_nonneg (x : R) : (0 <= x)%R -> (0 <= double x)%R.
Proof. intros H. apply double_ge_pos; [apply representable_0 | lra]. Qed.

Lemma double_le (x a : R) : representable a -> (x <= a)%R -> (double x <= a)%R.
Proof.
  intros Ha Hx. destruct (Rle_or_lt 0 x) as [P|N].
  - apply double_le_pos; [assumption | lra].
  - assert (H : (0 <= double (- x))%R) by (apply double_nonneg; lra).
    rewrite double_opp in H.
    destruct (Rle_or_lt 0 a) as [Pa|Na]; [lra|].
    assert (G : (- a <= double (- x))%R).
    { apply double_ge_pos; [apply representable_opp, Ha | lra]. }
    rewrite double_opp in G. lra.
Qed.

Lemma double_ge (x a : R) : representable a -> (a <= x)%R -> (a <= double x)%R.
Proof.
  intros Ha Hx.
  assert (H : (double (- x) <= - a)%R)
    by (apply double_le; [apply representable_opp, Ha | lra]).
  rewrite double_opp in H. lra.
Qed.

(** The rounding error is at most half a unit in the last place. *)
Lemma double_error (x : R) :
  (Rabs (double x - x) <= pow2 (ulpExp x) / 2)%R.
Proof.
  pose proof (pow2_pos (ulpExp x)) as Hp.
  pose proof (nearestEven_bound (x / pow2 (ulpExp x))) as [L U].
  set (n := IZR (nearestEven (x / pow2 (ulpExp x)))) in *.
  replace (double x - x)%R
    with ((n - x / pow2 (ulpExp x)) * pow2 (ulpExp x))%R
    by (unfold double; fold n; field; lra).
  apply Rabs_le. split; nra.
Qed.

Lemma double_relative (x : R) :
  (Rabs (double x - x) <= pow2 (-53) * Rabs x + pow2 (-1075))%R.
Proof.
  pose proof (double_error x) as H. pose proof (ulpExp_min x) as Hmin.
  pose proof (Rabs_pos x) as Hx.
  pose proof (pow2_pos (-53)) as H53. pose proof (pow2_pos (-1075)) as H1075.
  assert (Hhalf : forall e, (pow2 e / 2 = pow2 (e - 1))%R).
  { intros e. unfold Z.sub. rewrite pow2_add, pow2_opp.
    unfold pow2 at 3. simpl. lra. }
  rewrite Hhalf in H.
  destruct (Z.eq_dec (ulpExp x) (-1074)) as [E|E].
  - rewrite E in H. change (-1074 - 1) with (-1075) in H. nra.
  - pose proof (ulpExp_gt_inv x (ulpExp x - 1) ltac:(lia) ltac:(lia)) as L.
    replace (ulpExp x - 1 + 53) with (53 + (ulpExp x - 1)) in L by lia.
    rewrite pow2_add in L.
    assert (I : (pow2 (-53) * pow2 53 = 1)%R).
    { rewrite <- pow2_add. reflexivity. }
    pose proof (pow2_pos (ulpExp x - 1)). pose proof (pow2_pos 53).
    assert (G : (pow2 (ulpExp x - 1) <= pow2 (-53) * Rabs x)%R).
    { replace (pow2 (ulpExp x - 1))
        with (pow2 (-53) * (pow2 53 * pow2 (ulpExp x - 1)))%R
        by (rewrite <- Rmult_assoc, I; ring).
      apply Rmult_le_compat_l; lra. }
    lra.
Qed.

(** A real strictly within half a unit of a double with a full mantissa
    rounds to it. *)
Lemma double_near (x : R) (m k : Z) :
  2 ^ 52 < Z.abs m < 2 ^ 53 -> -1074 <= k ->
  (Rabs (x - IZR m * pow2 k) < pow2 k / 2)%R ->
  double x = (IZR m * pow2 k)%R.
Proof.
  intros [Hm1 Hm2] Hk Hx.
  pose proof (pow2_pos k) as Hp.
  assert (Ha : (Rabs (IZR m * pow2 k) = IZR (Z.abs m) * pow2 k)%R)
    by apply Rabs_dyadic.
  assert (T1 := Rabs_triang (x - IZR m * pow2 k) (IZR m * pow2 k)).
  replace (x - IZR m * pow2 k + IZR m * pow2 k)%R with x in T1 by ring.
  assert (T2 := Rabs_triang (IZR m * pow2 k - x) x).
  replace (IZR m * pow2 k - x + x)%R with (IZR m * pow2 k)%R in T2 by ring.
  rewrite (Rabs_minus_sym (IZR m * pow2 k) x) in T2.
  assert (B1 : (IZR (Z.abs m) <= IZR (2 ^ 53) - 1)%R).
  { rewrite <- minus_IZR. apply IZR_le. lia. }
  assert (B2 : (IZR (2 ^ 52) + 1 <= IZR (Z.abs m))%R).
  { rewrite <- plus_IZR. apply IZR_le. lia. }
  assert (Eu : ulpExp x = k).
  { apply Z.le_antisymm.
    - apply ulpExp_le; [assumption|].
      rewrite (Z.add_comm k), pow2_add, (pow2_IZR 53) by lia. nra.
    - apply ulpExp_ge; [assumption|].
      rewrite (Z.add_comm k), pow2_add, (pow2_IZR 52) by lia. nra. }
  unfold double. rewrite Eu. f_equal. f_equal.
  apply nearestEven_near.
  replace (x / pow2 k - IZR m)%R with ((x - IZR m * pow2 k) / pow2 k)%R
    by (field; lra).
  unfold Rdiv at 1. rewrite Rabs_mult, (Rabs_pos_eq (/ pow2 k))
    by (apply Rlt_le, Rinv_0_lt_compat, Hp).
  apply (Rmult_lt_reg_r (pow2 k)); [assumption|].
  rewrite Rmult_assoc, Rinv_l by lra. lra.
Qed.

Lemma pow2_neg (n : Z) : 0 <= n -> pow2 (- n) = (/ IZR (2 ^ n))%R.
Proof. intros H. rewrite pow2_opp, pow2_IZR by assumption. reflexivity. Qed.

Lemma unit_roundoff : pow2 (-53) = (/ 9007199254740992)%R.
Proof. change (-53) with (- (53)). rewrite pow2_neg by lia. reflexivity. Qed.

Lemma tiny_bound : (0 < pow2 (-1075) <= / 1267650600228229401496703205376)%R.
Proof.
  split; [apply pow2_pos|].
  apply Rle_trans with (pow2 (-100)); [apply pow2_le; lia|].
  change (-100) with (- (100)). rewrite pow2_neg by lia. apply Rle_refl.
Qed.

Lemma Rabs_close (a x e : R) :
  (Rabs (a - x) <= e)%R -> (Rabs x - e <= Rabs a <= Rabs x + e)%R.
Proof.
  intros H. unfold Rabs in *.
  destruct (Rcase_abs (a - x)), (Rcase_abs x), (Rcase_abs a); lra.
Qed.

Lemma Rabs_le_inv (x b : R) : (Rabs x <= b)%R -> (- b <= x <= b)%R.
Proof. unfold Rabs. destruct (Rcase_abs x); lra. Qed.

Lemma square_abs (a : R) : (a * a = Rabs a * Rabs a)%R.
Proof. unfold Rabs. destruct (Rcase_abs a); ring. Qed.

(** The rounding of [x] in terms of the unit roundoff [u] and the
    smallest half-spacing [t]. *)
Lemma double_bounds (x : R) :
  exists t : R,
    (0 < t <= / 1267650600228229401496703205376)%R /\
    t = pow2 (-1075) /\
    (Rabs x * (1 - / 9007199254740992) - t <= Rabs (double x)
     <= Rabs x * (1 + / 9007199254740992) + t)%R.
Proof.
  exists (pow2 (-1075)). split; [apply tiny_bound|]. split; [reflexivity|].
  pose proof (double_relative x) as H. rewrite unit_roundoff in H.
  apply Rabs_close in H. lra.
Qed.

(** The rounded square of a rounded number. *)
Lemma rounded_square_upper (x : R) :
  (Rabs x <= 20)%R ->
  (js_mul (double x) (double x)
   <= x * x * ((1 + / 9007199254740992) * (1 + / 9007199254740992)
               * (1 + / 9007199254740992))
      + 200 * pow2 (-1075))%R.
Proof.
  intros Hx.
  destruct (double_bounds x) as (t & Ht & Et & H1).
  unfold js_mul. rewrite (square_abs x), (square_abs (double x)).
  destruct (double_bounds (Rabs (double x) * Rabs (double x)))
    as (t' & _ & Et' & H2).
  rewrite <- Et. rewrite <- Et in Et'. subst t'.
  pose proof (Rabs_pos x) as Px. pose proof (Rabs_pos (double x)) as Pa.
  set (X := Rabs x) in *. set (A := Rabs (double x)) in *.
  assert (PA : (0 <= A * A)%R) by nra.
  rewrite (Rabs_pos_eq (A * A)) in H2 by assumption.
  assert (PD : (0 <= double (A * A))%R) by (apply double_nonneg, PA).
  rewrite (Rabs_pos_eq (double (A * A))) in H2 by assumption.
  set (D := double (A * A)) in *. clearbody D A X. clear Et.
  set (u := (/ 9007199254740992)%R) in *.
  assert (Hu : (0 < u <= / 9007199254740992)%R) by (unfold u; lra).
  clearbody u.
  assert (B : (A <= X * (1 + u) + t)%R) by lra.
  assert (SA : (A * A <= (X * (1 + u) + t) * (X * (1 + u) + t))%R)
    by (apply Rmult_le_compat; lra).
  assert (E : ((X * (1 + u) + t) * (X * (1 + u) + t)
               <= X * X * ((1 + u) * (1 + u)) + 81 * t)%R).
  { assert (K1 : (X * u <= 20 * u)%R) by (apply Rmult_le_compat_r; lra).
    assert (K2 : (t * (2 * X * (1 + u) + t) <= t * 81)%R)
      by (apply Rmult_le_compat_l; lra).
    replace ((X * (1 + u) + t) * (X * (1 + u) + t))%R
      with (X * X * ((1 + u) * (1 + u)) + t * (2 * X * (1 + u) + t))%R by ring.
    lra. }
  assert (S2 : (D <= A * A * (1 + u) + t)%R) by lra.
  assert (S3 : (A * A * (1 + u)
                <= (X * X * ((1 + u) * (1 + u)) + 81 * t) * (1 + u))%R)
    by (apply Rmult_le_compat_r; lra).
  assert (K4 : (t * u <= t * 1)%R) by (apply Rmult_le_compat_l; lra).
  replace (X * X * ((1 + u) * (1 + u) * (1 + u)))%R
    with ((X * X * ((1 + u) * (1 + u)) + 81 * t) * (1 + u)
          - 81 * t - 81 * (t * u))%R by ring.
  lra.
Qed.

Lemma rounded_square_lower (x : R) :
  (Rabs x <= 32)%R ->
  (x * x * ((1 - / 9007199254740992) * (1 - / 9007199254740992)
            * (1 - / 9007199254740992))
   - 200 * pow2 (-1075)
   <= js_mul (double x) (double x))%R.
Proof.
  intros Hx.
  destruct (double_bounds x) as (t & Ht & Et & H1).
  unfold js_mul. rewrite (square_abs x), (square_abs (double x)).
  destruct (double_bounds (Rabs (double x) * Rabs (double x)))
    as (t' & _ & Et' & H2).
  rewrite <- Et. rewrite <- Et in Et'. subst t'.
  pose proof (Rabs_pos x) as Px. pose proof (Rabs_pos (double x)) as Pa.
  set (X := Rabs x) in *. set (A := Rabs (double x)) in *.
  assert (PA : (0 <= A * A)%R) by nra.
  rewrite (Rabs_pos_eq (A * A)) in H2 by assumption.
  assert (PD : (0 <= double (A * A))%R) by (apply double_nonneg, PA).
  rewrite (Rabs_pos_eq (double (A * A))) in H2 by assumption.
  set (D := double (A * A)) in *. clearbody D A X. clear Et.
  set (u := (/ 9007199254740992)%R) in *.
  assert (Hu : (0 < u <= / 9007199254740992)%R) by (unfold u; lra).
  clearbody u.
  assert (E : (X * X * ((1 - u) * (1 - u)) - 64 * t <= A * A)%R).
  { assert (PY : (0 <= X * (1 - u))%R) by (apply Rmult_le_pos; lra).
    assert (UY : (X * (1 - u) <= 32)%R).
    { assert (0 <= X * u)%R by (apply Rmult_le_pos; lra). lra. }
    replace (X * X * ((1 - u) * (1 - u)))%R
      with ((X * (1 - u)) * (X * (1 - u)))%R by ring.
    set (Y := (X * (1 - u))%R) in *. clearbody Y.
    destruct (Rle_or_lt Y t) as [S|S].
    - assert (K1 : (Y * Y <= t * t)%R) by (apply Rmult_le_compat; lra).
      assert (K2 : (t * t <= t * 1)%R) by (apply Rmult_le_compat_l; lra).
      lra.
    - assert (K1 : ((Y - t) * (Y - t) <= A * A)%R)
        by (apply Rmult_le_compat; lra).
      assert (K2 : (t * (2 * Y) <= t * 64)%R)
        by (apply Rmult_le_compat_l; lra).
      assert (K3 : (0 <= t * t)%R) by (apply Rmult_le_pos; lra).
      replace ((Y - t) * (Y - t))%R with (Y * Y - t * (2 * Y) + t * t)%R
        in K1 by ring.
      lra. }
  assert (S2 : (A * A * (1 - u) - t <= D)%R) by lra.
  assert (S3 : ((X * X * ((1 - u) * (1 - u)) - 64 * t) * (1 - u)
                <= A * A * (1 - u))%R)
    by (apply Rmult_le_compat_r; lra).
  assert (K4 : (0 <= t * u)%R) by (apply Rmult_le_pos; lra).
  replace (X * X * ((1 - u) * (1 - u) * (1 - u)))%R
    with ((X * X * ((1 - u) * (1 - u)) - 64 * t) * (1 - u)
          + 64 * t - 64 * (t * u))%R by ring.
  lra.
Qed.

Lemma double_abs (x : R) : Rabs (double x) = double (Rabs x).
Proof.
  unfold Rabs at 2. destruct (Rcase_abs x) as [N|P].
  - rewrite double_opp. apply Rabs_left1.
    assert (H : (0 <= double (- x))%R) by (apply double_nonneg; lra).
    rewrite double_opp in H. lra.
  - apply Rabs_pos_eq, double_nonneg. lra.
Qed.

Ltac dyadic m k :=
  exists m, (- k)%Z; split; [reflexivity|]; split; [lia|];
  rewrite pow2_neg by lia;
  let v := eval vm_compute in (2 ^ k)%Z in change (2 ^ k)%Z with v;
  lra.

Lemma representable_below_400 : representable (400 - / 4398046511104).
Proof. dyadic 7036874417766396 44. Qed.

Lemma representable_below_20 : representable (20 - / 281474976710656).
Proof. dyadic 5629499534213119 48. Qed.

Lemma abs_le_of_square (x b : R) :
  (0 <= b)%R -> (x * x <= b * b)%R -> (Rabs x <= b)%R.
Proof.
  intros Hb H. rewrite square_abs in H. pose proof (Rabs_pos x) as P.
  destruct (Rle_or_lt (Rabs x) b) as [L|L]; [assumption|].
  assert (b * b < Rabs x * Rabs x)%R by (apply Rmult_le_0_lt_compat; lra).
  lra.
Qed.

(** Well inside the radius the computed distance is below 20. *)
Lemma computed_inside (px py cx cy : R) :
  (sqrt ((px - cx) ^ 2 + (py - cy) ^ 2) <= 20 - / 10000000000000)%R ->
  (Math_sqrt (js_add (Math_pow2 (js_sub px cx)) (Math_pow2 (js_sub py cy))) < 20)%R.
Proof.
  intros H. unfold Math_sqrt, js_add, Math_pow2, js_sub.
  set (dx := (px - cx)%R) in *. set (dy := (py - cy)%R) in *.
  replace (dx ^ 2 + dy ^ 2)%R with (dx * dx + dy * dy)%R in H by ring.
  assert (Px : (0 <= dx * dx)%R) by (rewrite square_abs; apply Rmult_le_pos; apply Rabs_pos).
  assert (Py : (0 <= dy * dy)%R) by (rewrite square_abs; apply Rmult_le_pos; apply Rabs_pos).
  set (E := (dx * dx + dy * dy)%R) in *.
  assert (PE : (0 <= E /\ dx * dx <= E /\ dy * dy <= E)%R) by (unfold E; lra).
  assert (HE : (E <= (20 - / 10000000000000) * (20 - / 10000000000000))%R).
  { rewrite <- (sqrt_sqrt E) by lra.
    pose proof (sqrt_pos E). apply Rmult_le_compat; lra. }
  assert (Bx : (Rabs dx <= 20)%R) by (apply abs_le_of_square; lra).
  assert (By : (Rabs dy <= 20)%R) by (apply abs_le_of_square; lra).
  pose proof (rounded_square_upper dx Bx) as Ux.
  pose proof (rounded_square_upper dy By) as Uy.
  pose proof tiny_bound as Ht.
  set (sx := js_mul (double dx) (double dx)) in *.
  set (sy := js_mul (double dy) (double dy)) in *.
  assert (Sx : (0 <= sx)%R).
  { unfold sx, js_mul. apply double_nonneg. rewrite square_abs.
    apply Rmult_le_pos; apply Rabs_pos. }
  assert (Sy : (0 <= sy)%R).
  { unfold sy, js_mul. apply double_nonneg. rewrite square_abs.
    apply Rmult_le_pos; apply Rabs_pos. }
  set (c := ((1 + / 9007199254740992) * (1 + / 9007199254740992)
             * (1 + / 9007199254740992))%R) in *.
  assert (Hc : (0 <= c)%R) by (unfold c; lra).
  assert (T : (sx + sy <= 400 - / 4398046511104)%R).
  { assert (K : (E * c <= (20 - / 10000000000000) * (20 - / 10000000000000) * c)%R)
      by (apply Rmult_le_compat_r; assumption).
    unfold E in K. unfold c in K. unfold c in Ux, Uy. lra. }
  assert (S : (double (sx + sy) <= 400 - / 4398046511104)%R)
    by (apply double_le; [apply representable_below_400 | assumption]).
  assert (S0 : (0 <= double (sx + sy))%R) by (apply double_nonneg; lra).
  assert (Q : (sqrt (double (sx + sy)) <= 20 - / 281474976710656)%R).
  { rewrite <- (sqrt_square (20 - / 281474976710656)) by lra.
    apply sqrt_le_1_alt. lra. }
  assert (D : (double (sqrt (double (sx + sy))) <= 20 - / 281474976710656)%R)
    by (apply double_le; [apply representable_below_20 | assumption]).
  lra.
Qed.

(** Well outside the radius the computed distance is 20 or more. *)
Lemma computed_outside (px py cx cy : R) :
  (20 + / 10000000000000 <= sqrt ((px - cx) ^ 2 + (py - cy) ^ 2))%R ->
  (20 <= Math_sqrt (js_add (Math_pow2 (js_sub px cx)) (Math_pow2 (js_sub py cy))))%R.
Proof.
  intros H. unfold Math_sqrt, js_add, Math_pow2, js_sub.
  set (dx := (px - cx)%R) in *. set (dy := (py - cy)%R) in *.
  replace (dx ^ 2 + dy ^ 2)%R with (dx * dx + dy * dy)%R in H by ring.
  assert (Px : (0 <= dx * dx)%R) by (rewrite square_abs; apply Rmult_le_pos; apply Rabs_pos).
  assert (Py : (0 <= dy * dy)%R) by (rewrite square_abs; apply Rmult_le_pos; apply Rabs_pos).
  set (E := (dx * dx + dy * dy)%R) in *.
  assert (PE : (0 <= E)%R) by (unfold E; lra).
  assert (HE : ((20 + / 10000000000000) * (20 + / 10000000000000) <= E)%R).
  { rewrite <- (sqrt_sqrt E) by lra. apply Rmult_le_compat; lra. }
  set (sx := js_mul (double dx) (double dx)) in *.
  set (sy := js_mul (double dy) (double dy)) in *.
  assert (Sx : (0 <= sx)%R).
  { unfold sx, js_mul. apply double_nonneg. rewrite square_abs.
    apply Rmult_le_pos; apply Rabs_pos. }
  assert (Sy : (0 <= sy)%R).
  { unfold sy, js_mul. apply double_nonneg. rewrite square_abs.
    apply Rmult_le_pos; apply Rabs_pos. }
  assert (Far : forall d, (32 <= Rabs d)%R ->
                 (1024 <= js_mul (double d) (double d))%R).
  { intros d Hd. unfold js_mul.
    apply double_ge; [apply (representable_IZR 1024); reflexivity|].
    rewrite square_abs, double_abs.
    assert (G : (32 <= double (Rabs d))%R)
      by (apply double_ge; [apply (representable_IZR 32); reflexivity | assumption]).
    replace 1024%R with (32 * 32)%R by lra. apply Rmult_le_compat; lra. }
  assert (T : (400 <= sx + sy)%R).
  { destruct (Rle_or_lt 32 (Rabs dx)) as [Fx|Nx].
    { pose proof (Far dx Fx). fold sx in H0. lra. }
    destruct (Rle_or_lt 32 (Rabs dy)) as [Fy|Ny].
    { pose proof (Far dy Fy). fold sy in H0. lra. }
    pose proof (rounded_square_lower dx (Rlt_le _ _ Nx)) as Lx.
    pose proof (rounded_square_lower dy (Rlt_le _ _ Ny)) as Ly.
    fold sx in Lx. fold sy in Ly. pose proof tiny_bound as Ht.
    set (c := ((1 - / 9007199254740992) * (1 - / 9007199254740992)
               * (1 - / 9007199254740992))%R) in *.
    assert (Hc : (0 <= c)%R) by (unfold c; lra).
    assert (K : ((20 + / 10000000000000) * (20 + / 10000000000000) * c <= E * c)%R)
      by (apply Rmult_le_compat_r; assumption).
    unfold E in K. unfold c in K, Lx, Ly. lra. }
  assert (S : (400 <= double (sx + sy))%R)
    by (apply double_ge; [apply (representable_IZR 400); reflexivity | assumption]).
  assert (Q : (20 <= sqrt (double (sx + sy)))%R).
  { rewrite <- (sqrt_square 20) at 1 by lra. apply sqrt_le_1_alt. lra. }
  apply double_ge; [apply (representable_IZR 20); reflexivity | assumption].
Qed.

Ltac literal_pow2 k :=
  rewrite (pow2_neg k) by lia;
  let v := eval vm_compute in (2 ^ k)%Z in change (2 ^ k)%Z with v.

(** [double x] for a real [x] strictly within half a unit of [m / 2^k]. *)
Ltac rounds_to m k :=
  rewrite (double_near _ m (- k));
  [ literal_pow2 k; try lra
  | split; reflexivity
  | lia
  | literal_pow2 k; apply Rabs_def1; lra ].

(** At this point 20 is computed for a distance that is smaller. *)
Lemma computed_grazing :
  Math_sqrt
    (js_add (Math_pow2 (js_sub 33 (453125105320925 / 17592186044416)))
            (Math_pow2 (js_sub 44 (7137511124671225 / 281474976710656))))
  = 20%R.
Proof.
  unfold Math_sqrt, js_add, Math_pow2, js_sub, js_mul.
  assert (Dx : double (33 - 453125105320925 / 17592186044416)
               = (127417034144803 / 17592186044416)%R).
  { rewrite double_representable; [lra|]. dyadic 127417034144803 44. }
  assert (Dy : double (44 - 7137511124671225 / 281474976710656)
               = (5247387850597639 / 281474976710656)%R).
  { rewrite double_representable; [lra|]. dyadic 5247387850597639 48. }
  rewrite Dx, Dy.
  assert (Sx : double (127417034144803 / 17592186044416
                       * (127417034144803 / 17592186044416))
               = (7382868984795047 / 140737488355328)%R)
    by (rounds_to 7382868984795047 47).
  assert (Sy : double (5247387850597639 / 281474976710656
                       * (5247387850597639 / 281474976710656))
               = (6114015794667018 / 17592186044416)%R)
    by (rounds_to 6114015794667018 44).
  rewrite Sx, Sy.
  assert (S : double (7382868984795047 / 140737488355328
                      + 6114015794667018 / 17592186044416)
              = (7036874417766399 / 17592186044416)%R)
    by (rounds_to 7036874417766399 44).
  rewrite S.
  rewrite (double_near _ 5629499534213120 (- (48))).
  - literal_pow2 48. lra.
  - split; reflexivity.
  - lia.
  - literal_pow2 48.
    set (s := (7036874417766399 / 17592186044416)%R).
    assert (U : (sqrt s < 20)%R).
    { rewrite <- (sqrt_square 20) by lra. apply sqrt_lt_1_alt. unfold s. lra. }
    assert (L : (20 - / 562949953421312 < sqrt s)%R).
    { rewrite <- (sqrt_square (20 - / 562949953421312)) by lra.
      apply sqrt_lt_1_alt. unfold s. lra. }
    apply Rabs_def1; lra.
Qed.

(** ** Basic facts *)

Lemma js_lt_true (a b : R) : js_lt a b = true <-> (a < b)%R.
Proof.
  unfold js_lt. destruct (Rlt_dec a b); split; intros; auto; discriminate.
Qed.

Lemma js_lt_false (a b : R) : js_lt a b = false <-> (b <= a)%R.
Proof.
  unfold js_lt. destruct (Rlt_dec a b); split; intros; auto; try discriminate; lra.
Qed.

(** The computed distance against the exact one: they order the same way
    against 20 outside a band of 1e-13 around it. *)
Lemma distance_inside (p : Player.t) (c : Collectible.t) :
  (euclid p c <= 20 - / 10000000000000)%R -> (distance p c < 20)%R.
Proof. apply computed_inside. Qed.

Lemma distance_outside (p : Player.t) (c : Collectible.t) :
  (20 + / 10000000000000 <= euclid p c)%R -> (20 <= distance p c)%R.
Proof. apply computed_outside. Qed.

Lemma euclid_le (p : Player.t) (c : Collectible.t) (b : R) :
  (0 <= b)%R ->
  ((Player.x p - Collectible.x c) ^ 2 + (Player.y p - Collectible.y c) ^ 2
   <= b * b)%R ->
  (euclid p c <= b)%R.
Proof.
  intros Hb H. unfold euclid. rewrite <- (sqrt_square b) by assumption.
  apply sqrt_le_1_alt, H.
Qed.

Lemma euclid_ge (p : Player.t) (c : Collectible.t) (b : R) :
  (0 <= b)%R ->
  (b * b
   <= (Player.x p - Collectible.x c) ^ 2 + (Player.y p - Collectible.y c) ^ 2)%R ->
  (b <= euclid p c)%R.
Proof.
  intros Hb H. unfold euclid. rewrite <- (sqrt_square b) at 1 by assumption.
  apply sqrt_le_1_alt, H.
Qed.

(** Sufficient conditions for the pickup test on squared distances: 399
    and 401 are well inside and outside the band. *)
Lemma near_inside (s : State) (c : Collectible.t) :
  ((Player.x (currentPlayer s) - Collectible.x c) ^ 2 +
   (Player.y (currentPlayer s) - Collectible.y c) ^ 2 <= 399)%R ->
  near s c = true.
Proof.
  intros H. unfold near. apply js_lt_true, distance_inside.
  apply euclid_le; lra.
Qed.

Lemma near_outside (s : State) (c : Collectible.t) :
  (401 <= (Player.x (currentPlayer s) - Collectible.x c) ^ 2 +
          (Player.y (currentPlayer s) - Collectible.y c) ^ 2)%R ->
  near s c = false.
Proof.
  intros H. unfold near. apply js_lt_false, distance_outside.
  apply euclid_ge; lra.
Qed.

Lemma GameState_eqb_eq (a b : GameState) : GameState_eqb a b = true <-> a = b.
Proof. destruct a, b; simpl; split; intros; congruence. Qed.

Lemma reduce_app (s : State) (q1 q2 : list Action) :
  reduce s (q1 ++ q2) = reduce (reduce s q1) q2.
Proof. unfold reduce. apply fold_left_app. Qed.

Lemma callbacks_app (q1 q2 : list Action) :
  callbacks (q1 ++ q2) = callbacks q1 ++ callbacks q2.
Proof. unfold callbacks. apply filter_app. Qed.

Lemma filterA_collide (s : State) (cs : list Collectible.t) :
  filterA (collide s) cs =
  (filter (fun c => negb (near s c)) cs, flat_map (pickup s) cs).
Proof.
  induction cs as [|c cs IH]; simpl; [reflexivity|].
  rewrite IH. unfold pickup, collide, near.
  destruct (js_lt (distance (currentPlayer s) c) 20); reflexivity.
Qed.

Lemma filter_neg_length {A : Type} (f : A -> bool) (l : list A) :
  (List.length (filter (fun x => negb (f x)) l) + List.length (filter f l)
   = List.length l)%nat.
Proof.
  induction l as [|x l IH]; simpl; [reflexivity|].
  destruct (f x); simpl; lia.
Qed.

Lemma filter_all {A : Type} (f : A -> bool) (l : list A) :
  List.length (filter f l) = List.length l -> filter f l = l.
Proof.
  induction l as [|x l IH]; simpl; [reflexivity|].
  destruct (f x); simpl; intros H.
  - f_equal. apply IH. lia.
  - pose proof (filter_length_le f l). lia.
Qed.

Lemma checkCollisions_eq (s : State) (rnd : nat -> R) (now : Z) :
  checkCollisions s rnd now =
  flat_map (pickup s) (collectibles s) ++
  match takenBy s with
  | [] => []
  | _ :: _ =>
      setCollectibles (keptBy s) ::
      (if (List.length (keptBy s) <? 5)%nat then
         [setCollectiblesFn (fun prev =>
            prev ++ [newCollectible ("collectible-" ++ showZ now) rnd 0])]
       else [])
  end.
Proof.
  unfold checkCollisions. rewrite filterA_collide. fold (keptBy s).
  f_equal.
  pose proof (filter_neg_length (near s) (collectibles s)) as H.
  fold (keptBy s) in H. fold (takenBy s) in H.
  destruct (takenBy s) as [|t ts] eqn:E.
  - simpl in H. replace (List.length (keptBy s)) with (List.length (collectibles s)) by lia.
    rewrite Nat.eqb_refl. reflexivity.
  - simpl in H.
    destruct (Nat.eqb_spec (List.length (keptBy s)) (List.length (collectibles s))); [lia|].
    reflexivity.
Qed.

Lemma withScore_same (p : Player.t) : withScore p (Player.score p) = p.
Proof. destruct p; reflexivity. Qed.

Lemma reduce_pickups (s : State) (cs : list Collectible.t) : forall s0,
  reduce s0 (flat_map (pickup s) cs) =
  mkState (gameState s0)
    (withScore (currentPlayer s0)
       (fold_left
          (fun _ c => Player.score (currentPlayer s) + Collectible.value c)
          (filter (near s) cs) (Player.score (currentPlayer s0))))
    (collectibles s0) (timeLeft s0).
Proof.
  induction cs as [|c cs IH]; intros s0; simpl.
  - rewrite withScore_same. destruct s0; reflexivity.
  - rewrite reduce_app. unfold pickup at 1, collide.
    fold (near s c). destruct (near s c); simpl.
    + rewrite IH. reflexivity.
    + apply IH.
Qed.

Lemma tick_eq (s : State) (rnd : nat -> R) (now : Z) :
  tick s rnd now =
  mkState (gameState s) (withScore (currentPlayer s) (scoreAfter s))
    (collectiblesAfter s rnd now) (timeLeft s).
Proof.
  unfold tick. rewrite checkCollisions_eq, reduce_app, reduce_pickups.
  unfold scoreAfter, collectiblesAfter. fold (takenBy s).
  destruct (takenBy s) as [|t ts]; [reflexivity|].
  destruct (List.length (keptBy s) <? 5)%nat; simpl; [reflexivity|].
  rewrite app_nil_r. reflexivity.
Qed.

Lemma checkCollisions_view (c s : State) (rnd : nat -> R) (now : Z) :
  currentPlayer c = currentPlayer s -> collectibles c = collectibles s ->
  checkCollisions c rnd now = checkCollisions s rnd now.
Proof.
  intros Hp Hc. unfold checkCollisions, collide. rewrite Hp, Hc. reflexivity.
Qed.

(** ** The re-render *)

Lemma reduce_keeps_player (q : list Action) : forall s,
  existsb isSetCurrentPlayer q = false ->
  currentPlayer (reduce s q) = currentPlayer s.
Proof.
  induction q as [|a q IH]; intros s H; simpl in *; [reflexivity|].
  apply orb_false_iff in H as [Ha Hq].
  unfold reduce in *. simpl. rewrite IH by assumption.
  destruct a; simpl in *; congruence.
Qed.

Lemma reduce_keeps_collectibles (q : list Action) : forall s,
  existsb isSetCollectibles q = false ->
  collectibles (reduce s q) = collectibles s.
Proof.
  induction q as [|a q IH]; intros s H; simpl in *; [reflexivity|].
  apply orb_false_iff in H as [Ha Hq].
  unfold reduce in *. simpl. rewrite IH by assumption.
  destruct a; simpl in *; congruence.
Qed.

Lemma rerender_state (q : list Action) (a : Arena) :
  state (fst (rerender q a)) = reduce (state a) q.
Proof.
  unfold rerender.
  destruct (_ || negb (timeLeft _ =? timeLeft _)); [|reflexivity].
  destruct (timerEffect _); reflexivity.
Qed.

Lemma rerender_canvasRef (q : list Action) (a : Arena) :
  canvasRef (fst (rerender q a)) = canvasRef a.
Proof.
  unfold rerender.
  destruct (_ || negb (timeLeft _ =? timeLeft _)); [|reflexivity].
  destruct (timerEffect _); reflexivity.
Qed.

(** [endGame] is called when the re-render finds the round playing with a
    countdown of 0 that it did not have before. *)
Lemma rerender_ending (q : list Action) (a : Arena) :
  snd (rerender q a) = true <->
  gameState (reduce (state a) q) = playing /\
  timeLeft (reduce (state a) q) = 0 /\
  (gameState (state a) <> playing \/ timeLeft (state a) <> 0).
Proof.
  unfold rerender, timerEffect.
  set (new := reduce (state a) q). set (old := state a).
  destruct (gameState old) eqn:Eo, (gameState new) eqn:En; simpl;
    destruct (Z.eqb_spec (timeLeft old) (timeLeft new)) as [Et|Et]; simpl;
    destruct (Z.gtb_spec (timeLeft new) 0) as [Eg|Eg]; simpl;
    try destruct (Z.eqb_spec (timeLeft new) 0) as [Ez|Ez]; simpl;
    (split; [intros Hyp | intros (H1 & H2 & [H3|H3])]);
    try discriminate; try reflexivity; try congruence; try lia;
    repeat split; auto; try lia; try (left; discriminate); try (right; lia).
Qed.

Lemma endGame_not_ending (s : State) (a : Arena) :
  snd (rerender (endGame s) a) = false.
Proof.
  destruct (snd (rerender (endGame s) a)) eqn:E; [|reflexivity].
  apply rerender_ending in E as (H & _). discriminate.
Qed.

(** One nested batch is all there is: any fuel above 0 gives the result. *)
Lemma settle_fuel (n : nat) (q : list Action) (a : Arena) :
  settle (S n) q a = settle 2 q a.
Proof.
  simpl. destruct (rerender q a) as [a' ending].
  destruct ending; [|reflexivity].
  pose proof (endGame_not_ending (state a') a') as E.
  destruct n; simpl; destruct (rerender (endGame (state a')) a'); simpl in E;
    subst; reflexivity.
Qed.

Lemma settle_plain (q : list Action) (a : Arena) :
  snd (rerender q a) = false ->
  settle 2 q a = (fst (rerender q a), callbacks q).
Proof.
  intros H. simpl. destruct (rerender q a) as [a' ending]. simpl in *.
  subst. reflexivity.
Qed.

Lemma settle_ending (q : list Action) (a : Arena) :
  snd (rerender q a) = true ->
  settle 2 q a =
  (fst (rerender (endGame (reduce (state a) q)) (fst (rerender q a))),
   callbacks q ++ [onGameEnd (Player.score (currentPlayer (reduce (state a) q)))]).
Proof.
  intros H. simpl. rewrite <- (rerender_state q a).
  destruct (rerender q a) as [a' ending]. simpl in *. subst.
  pose proof (endGame_not_ending (state a') a') as E.
  destruct (rerender (endGame (state a')) a'). simpl in *. subst. reflexivity.
Qed.

Lemma rerender_frame (q : list Action) (a : Arena) :
  frame (fst (rerender q a)) =
  if negb (GameState_eqb (gameState (state a)) (gameState (reduce (state a) q)))
     || existsb isSetCurrentPlayer q || existsb isSetCollectibles q
  then
    match loopEffect (reduce (state a) q) with
    | Some c => Some c
    | None => match loopEffect (state a) with Some _ => None | None => frame a end
    end
  else frame a.
Proof.
  unfold rerender.
  destruct (_ || negb (timeLeft _ =? timeLeft _));
    [destruct (timerEffect (reduce _ _))|];
    destruct (_ || existsb isSetCollectibles q); reflexivity.
Qed.

Lemma rerender_timer (q : list Action) (a : Arena) :
  timer (fst (rerender q a)) =
  if negb (GameState_eqb (gameState (state a)) (gameState (reduce (state a) q)))
     || negb (timeLeft (state a) =? timeLeft (reduce (state a) q))
  then
    match timerEffect (reduce (state a) q) with
    | armTimeout => Some (reduce (state a) q)
    | _ => match timerEffect (state a) with armTimeout => None | _ => timer a end
    end
  else timer a.
Proof.
  unfold rerender.
  destruct (_ || negb (timeLeft _ =? timeLeft _)); [|reflexivity].
  destruct (timerEffect (reduce _ _)); reflexivity.
Qed.

Lemma sameLoopView_refl (s : State) : sameLoopView s s.
Proof. repeat split. Qed.

Lemma rerender_FrameOK (q : list Action) (a : Arena) :
  FrameOK a -> FrameOK (fst (rerender q a)).
Proof.
  unfold FrameOK. intros H.
  rewrite rerender_state, rerender_frame. unfold loopEffect.
  set (new := reduce (state a) q) in *.
  destruct (existsb isSetCurrentPlayer q) eqn:Ep;
    destruct (existsb isSetCollectibles q) eqn:Ec;
    destruct (gameState (state a)) eqn:Eo, (gameState new) eqn:En; simpl;
    auto; try (exists new; split; [reflexivity | apply sameLoopView_refl]).
  destruct H as (c & Hc & Hg & Hp & Hcs). exists c. split; [assumption|].
  unfold sameLoopView. subst new.
  rewrite reduce_keeps_player, reduce_keeps_collectibles by assumption.
  repeat split; congruence.
Qed.

Lemma rerender_TimerOK (q : list Action) (a : Arena) :
  TimerOK a \/
    (timer a = None /\ timeLeft (reduce (state a) q) <> timeLeft (state a)) ->
  0 <= timeLeft (reduce (state a) q) ->
  snd (rerender q a) = false ->
  TimerOK (fst (rerender q a)).
Proof.
  intros H Hpos Hend.
  assert (Hne : ~ (gameState (reduce (state a) q) = playing /\
                   timeLeft (reduce (state a) q) = 0 /\
                   (gameState (state a) <> playing \/ timeLeft (state a) <> 0))).
  { intros C. apply rerender_ending in C. congruence. }
  clear Hend. revert H Hne.
  unfold TimerOK. rewrite rerender_state, rerender_timer. unfold timerEffect.
  set (new := reduce (state a) q) in *.
  destruct (gameState (state a)) eqn:Eo, (gameState new) eqn:En; simpl;
    destruct (Z.eqb_spec (timeLeft (state a)) (timeLeft new)) as [Et|Et]; simpl;
    destruct (Z.gtb_spec (timeLeft new) 0) as [Eg|Eg]; simpl;
    try destruct (Z.eqb_spec (timeLeft new) 0) as [Ez|Ez]; simpl;
    try destruct (Z.gtb_spec (timeLeft (state a)) 0) as [Eg'|Eg']; simpl;
    try destruct (Z.eqb_spec (timeLeft (state a)) 0) as [Ez'|Ez']; simpl;
    intros [H|[H H']] Hne; auto; try congruence; try lia;
    try (split; [lia | exists new; split; reflexivity]);
    try (destruct H as (H1 & c & H2 & H3); split; [lia | exists c; split; congruence]);
    try (exfalso; apply Hne; repeat split; auto; try lia;
         first [left; discriminate | right; lia]);
    try (destruct H as (H1 & _); lia).
Qed.

Lemma rerender_timer_cleared (q : list Action) (a : Arena) :
  TimerOK a \/ timer a = None ->
  snd (rerender q a) = true ->
  timer (fst (rerender q a)) = None.
Proof.
  intros H Hend. apply rerender_ending in Hend as (Hg & Ht & Hold).
  revert H. unfold TimerOK. rewrite rerender_timer. unfold timerEffect.
  rewrite Hg, Ht. simpl.
  destruct (gameState (state a)) eqn:Eo; simpl;
    destruct (Z.eqb_spec (timeLeft (state a)) 0) as [Ez|Ez]; simpl;
    try destruct (Z.gtb_spec (timeLeft (state a)) 0) as [Ep|Ep]; simpl;
    intros [H|H]; auto; try (destruct Hold; congruence);
    destruct H as (H & _); lia.
Qed.

(** The invariant survives any batch that keeps the countdown in range and
    the collectible values spawned ones.  The timeout that just fired has
    left [timer] empty; its batch changes [timeLeft]. *)
Lemma settle_Inv (q : list Action) (a : Arena) :
  FrameOK a ->
  TimerOK a \/
    (timer a = None /\ timeLeft (reduce (state a) q) <> timeLeft (state a)) ->
  0 <= timeLeft (reduce (state a) q) <= 60 ->
  Forall spawnedValue (collectibles (reduce (state a) q)) ->
  Inv (fst (settle 2 q a)).
Proof.
  intros Hf Ht Hr Hv.
  destruct (snd (rerender q a)) eqn:E.
  - rewrite settle_ending by assumption. simpl.
    assert (Hc : timer (fst (rerender q a)) = None).
    { apply rerender_timer_cleared; [|assumption].
      destruct Ht as [Ht|[Ht _]]; auto. }
    pose proof (rerender_FrameOK q a Hf) as Hf'.
    pose proof (rerender_FrameOK (endGame (reduce (state a) q)) _ Hf') as Hf''.
    apply rerender_ending in E as (Eg & Ez & _).
    set (a' := fst (rerender q a)) in *.
    assert (Es : state (fst (rerender (endGame (reduce (state a) q)) a')) =
                 mkState ended (currentPlayer (reduce (state a) q))
                   (collectibles (reduce (state a) q))
                   (timeLeft (reduce (state a) q))).
    { rewrite rerender_state. unfold a'. rewrite rerender_state. reflexivity. }
    constructor.
    + rewrite Es. simpl. lia.
    + rewrite Es. simpl. assumption.
    + assumption.
    + assert (Es' : state a' = reduce (state a) q) by apply rerender_state.
      unfold TimerOK. rewrite Es. simpl. rewrite rerender_timer.
      unfold timerEffect. simpl. rewrite !Es', Eg, Ez. simpl. assumption.
  - rewrite settle_plain by assumption. simpl.
    constructor.
    + rewrite rerender_state. assumption.
    + rewrite rerender_state. assumption.
    + apply rerender_FrameOK. assumption.
    + apply rerender_TimerOK; [assumption | lia | assumption].
Qed.

(** ** Handlers *)

Lemma newCollectible_value (id : string) (rnd : nat -> R) (k : nat) :
  spawnedValue (newCollectible id rnd k).
Proof.
  unfold spawnedValue, newCollectible. simpl.
  destruct (js_gt _ _); [right | left]; reflexivity.
Qed.

Lemma spawnLoop_values (rnd : nat -> R) (n : nat) : forall i acc,
  Forall spawnedValue acc -> Forall spawnedValue (spawnLoop n i rnd acc).
Proof.
  induction n as [|n IH]; intros i acc H; simpl; [assumption|].
  apply IH. apply Forall_app. split; [assumption|].
  constructor; [apply newCollectible_value | constructor].
Qed.

Lemma spawnLoop_length (rnd : nat -> R) (n : nat) : forall i acc,
  List.length (spawnLoop n i rnd acc) = (List.length acc + n)%nat.
Proof.
  induction n as [|n IH]; intros i acc; simpl; [lia|].
  rewrite IH, length_app. simpl. lia.
Qed.

Arguments spawnLoop : simpl never.
Arguments showZ : simpl never.

Lemma reduce_startGame (s : State) (rnd : nat -> R) :
  reduce s (startGame rnd) =
  mkState playing (resetPlayer (currentPlayer s)) (spawnLoop 10 0 rnd []) 60.
Proof. reflexivity. Qed.

Lemma reduce_handleMouseMove (cv : option Canvas) (s : State) (cx cy l t : R) :
  gameState (reduce s (handleMouseMove cv s cx cy l t)) = gameState s /\
  collectibles (reduce s (handleMouseMove cv s cx cy l t)) = collectibles s /\
  timeLeft (reduce s (handleMouseMove cv s cx cy l t)) = timeLeft s /\
  Player.score (currentPlayer (reduce s (handleMouseMove cv s cx cy l t)))
  = Player.score (currentPlayer s).
Proof.
  unfold handleMouseMove.
  destruct (negb _); [repeat split|].
  destruct cv; repeat split.
Qed.

Lemma render_normal (cv : option Canvas) (s : State) :
  exists d, render cv s = Normal d.
Proof.
  unfold render, getContext.
  destruct cv as [c|]; simpl; [|eauto].
  destruct (has2d c); simpl; eauto.
Qed.

Lemma next_settled (q : list Action) (a : Arena) (d : list DrawCmd) :
  next (settled q a d) = fst (settle 2 q a).
Proof. unfold settled. destruct (settle 2 q a). reflexivity. Qed.

Lemma notified_settled (q : list Action) (a : Arena) (d : list DrawCmd) :
  notified (settled q a d) = snd (settle 2 q a).
Proof. unfold settled. destruct (settle 2 q a). reflexivity. Qed.

Lemma keptBy_values (s : State) :
  Forall spawnedValue (collectibles s) -> Forall spawnedValue (keptBy s).
Proof.
  unfold keptBy. intros H. rewrite Forall_forall in *.
  intros c Hc. apply filter_In in Hc as [Hc _]. auto.
Qed.

Lemma collectiblesAfter_values (s : State) (rnd : nat -> R) (now : Z) :
  Forall spawnedValue (collectibles s) ->
  Forall spawnedValue (collectiblesAfter s rnd now).
Proof.
  intros H. unfold collectiblesAfter.
  destruct (takenBy s); [assumption|].
  apply Forall_app. split; [apply keptBy_values; assumption|].
  destruct (_ <? _)%nat; constructor; [apply newCollectible_value | constructor].
Qed.

(** The frame that runs while the invariant holds is the current render's:
    its batch is that of a collision check on the committed state. *)
Lemma step_frame (a : Arena) (rnd : nat -> R) (now : Z) :
  Inv a -> gameState (state a) = playing ->
  exists d,
    render (canvasRef a) (state a) = Normal d /\
    step a (AnimationFrame rnd now) =
    settled (checkCollisions (state a) rnd now) a d.
Proof.
  intros [_ _ Hf _] Hp. unfold FrameOK in Hf. rewrite Hp in Hf.
  destruct Hf as (c & Hc & Hg & Hpl & Hcs).
  destruct (render_normal (canvasRef a) (state a)) as [d Hd].
  exists d. split; [assumption|].
  assert (Hd' : render (canvasRef a) c = Normal d).
  { rewrite <- Hd. unfold render, paint. rewrite Hpl, Hcs. reflexivity. }
  unfold step, gameLoop. rewrite Hc, Hd'. simpl.
  rewrite (checkCollisions_view c (state a)) by assumption.
  rewrite Hg, Hp. simpl. rewrite <- Hc. destruct a; reflexivity.
Qed.

Lemma step_idle_frame (a : Arena) (rnd : nat -> R) (now : Z) :
  Inv a -> gameState (state a) <> playing ->
  step a (AnimationFrame rnd now) = mkOutcome a [] [].
Proof.
  intros [_ _ Hf _] Hp. unfold FrameOK in Hf.
  unfold step. destruct (gameState (state a)); try congruence; rewrite Hf; reflexivity.
Qed.

Lemma step_idle_timeout (a : Arena) :
  Inv a -> gameState (state a) <> playing ->
  step a Timeout = mkOutcome a [] [].
Proof.
  intros [_ _ _ Ht] Hp. unfold TimerOK in Ht.
  unfold step. destruct (gameState (state a)); try congruence; rewrite Ht; reflexivity.
Qed.

(** Every event preserves the invariant. *)
Lemma step_Inv (a : Arena) (e : Event) : Inv a -> Inv (next (step a e)).
Proof.
  intros HI. pose proof HI as [Ht Hv Hf Htm].
  destruct e as [rnd | cx cy l t | rnd now | ].
  - simpl. rewrite next_settled. apply settle_Inv; auto;
      rewrite reduce_startGame; simpl; [lia|].
    apply spawnLoop_values. constructor.
  - simpl. rewrite next_settled.
    destruct (reduce_handleMouseMove (canvasRef a) (state a) cx cy l t)
      as (_ & Hc & Htl & _).
    apply settle_Inv; auto; congruence.
  - destruct (gameState (state a)) eqn:Eg;
      try (rewrite step_idle_frame by (auto; congruence); assumption).
    destruct (step_frame a rnd now HI Eg) as (d & _ & Hs).
    rewrite Hs, next_settled. fold (tick (state a) rnd now).
    apply settle_Inv; auto; fold (tick (state a) rnd now); rewrite tick_eq; simpl; auto.
    apply collectiblesAfter_values. assumption.
  - destruct (gameState (state a)) eqn:Eg;
      try (rewrite step_idle_timeout by (auto; congruence); assumption).
    unfold TimerOK in Htm. rewrite Eg in Htm.
    destruct Htm as (Hpos & c & Hc & Hlt).
    unfold step. rewrite Hc, next_settled.
    apply settle_Inv; simpl.
    + unfold FrameOK in *. simpl. assumption.
    + right. split; [reflexivity|]. lia.
    + lia.
    + assumption.
Qed.

Lemma mount_Inv (player : Player.t) (canvas : option Canvas) (rnd : nat -> R) :
  Inv (mount player canvas rnd).
Proof.
  assert (H0 : forall cv, Inv (mkArena (mkState waiting player [] 60) cv None None)).
  { intros cv. constructor; simpl; try reflexivity; [lia | constructor]. }
  unfold mount.
  destruct canvas as [cv|]; [|apply H0].
  destruct (getContext cv); [|apply H0].
  apply settle_Inv.
  - apply H0.
  - left. apply H0.
  - simpl. lia.
  - simpl. apply spawnLoop_values. constructor.
Qed.

Lemma reachable_Inv (a : Arena) : reachable a -> Inv a.
Proof.
  induction 1 as [player canvas rnd | a e _ IH].
  - apply mount_Inv.
  - apply step_Inv. assumption.
Qed.

(** ** Outcome of each event *)

Lemma not_ending_same (q : list Action) (a : Arena) :
  gameState (reduce (state a) q) = gameState (state a) ->
  timeLeft (reduce (state a) q) = timeLeft (state a) ->
  snd (rerender q a) = false.
Proof.
  intros Hg Ht. destruct (snd (rerender q a)) eqn:E; [|reflexivity].
  apply rerender_ending in E as (H1 & H2 & [H3|H3]); congruence.
Qed.

Lemma not_ending_nonzero (q : list Action) (a : Arena) :
  timeLeft (reduce (state a) q) <> 0 -> snd (rerender q a) = false.
Proof.
  intros Ht. destruct (snd (rerender q a)) eqn:E; [|reflexivity].
  apply rerender_ending in E as (H1 & H2 & _). congruence.
Qed.

Lemma settled_plain (q : list Action) (a : Arena) (d : list DrawCmd) :
  snd (rerender q a) = false ->
  settled q a d = mkOutcome (fst (rerender q a)) (callbacks q) d.
Proof. intros H. unfold settled. rewrite settle_plain by assumption. reflexivity. Qed.

Lemma step_click (a : Arena) (rnd : nat -> R) :
  state (next (step a (Click rnd))) =
    mkState playing (resetPlayer (currentPlayer (state a)))
      (spawnLoop 10 0 rnd []) 60 /\
  notified (step a (Click rnd)) = [].
Proof.
  unfold step. rewrite settled_plain.
  - simpl. rewrite rerender_state. split; reflexivity.
  - apply not_ending_nonzero. rewrite reduce_startGame. simpl. lia.
Qed.

Lemma step_mouse (a : Arena) (cx cy l t : R) :
  state (next (step a (MouseMove cx cy l t))) =
    reduce (state a) (handleMouseMove (canvasRef a) (state a) cx cy l t) /\
  notified (step a (MouseMove cx cy l t)) = [].
Proof.
  destruct (reduce_handleMouseMove (canvasRef a) (state a) cx cy l t)
    as (Hg & _ & Ht & _).
  unfold step. rewrite settled_plain by (apply not_ending_same; assumption).
  simpl. rewrite rerender_state. split; [reflexivity|].
  unfold handleMouseMove. destruct (negb _); [reflexivity|].
  destruct (canvasRef a); reflexivity.
Qed.

Lemma step_tick (a : Arena) (rnd : nat -> R) (now : Z) :
  Inv a -> gameState (state a) = playing ->
  exists d,
    render (canvasRef a) (state a) = Normal d /\
    step a (AnimationFrame rnd now) =
    mkOutcome
      (fst (rerender (checkCollisions (state a) rnd now) a))
      (callbacks (checkCollisions (state a) rnd now)) d /\
    state (next (step a (AnimationFrame rnd now))) = tick (state a) rnd now.
Proof.
  intros HI Hp. destruct (step_frame a rnd now HI Hp) as (d & Hd & Hs).
  exists d. split; [assumption|].
  assert (E : snd (rerender (checkCollisions (state a) rnd now) a) = false).
  { apply not_ending_same; fold (tick (state a) rnd now); rewrite tick_eq;
      reflexivity. }
  rewrite Hs, settled_plain by assumption. split; [reflexivity|].
  simpl. apply rerender_state.
Qed.

(** The timeout that is pending while playing. *)
Lemma step_timeout (a : Arena) :
  Inv a -> gameState (state a) = playing ->
  step a Timeout =
  settled [setTimeLeft (timeLeft (state a) - 1)]
    (mkArena (state a) (canvasRef a) (frame a) None) [].
Proof.
  intros [_ _ _ Ht] Hp. unfold TimerOK in Ht. rewrite Hp in Ht.
  destruct Ht as (_ & c & Hc & Hl).
  unfold step, timeoutCallback. rewrite Hc, Hl. reflexivity.
Qed.

Lemma step_timeout_state (a : Arena) :
  Inv a -> gameState (state a) = playing ->
  state (next (step a Timeout)) =
  mkState (if timeLeft (state a) =? 1 then ended else playing)
    (currentPlayer (state a)) (collectibles (state a)) (timeLeft (state a) - 1)
  /\
  notified (step a Timeout) =
  if timeLeft (state a) =? 1
  then [onGameEnd (Player.score (currentPlayer (state a)))] else [].
Proof.
  intros HI Hp. rewrite step_timeout by assumption.
  rewrite next_settled, notified_settled.
  set (a1 := mkArena (state a) (canvasRef a) (frame a) None).
  set (q := [setTimeLeft (timeLeft (state a) - 1)]).
  assert (Hr : reduce (state a1) q =
               mkState playing (currentPlayer (state a)) (collectibles (state a))
                 (timeLeft (state a) - 1)).
  { unfold q, a1. simpl. unfold reduce. simpl. rewrite Hp. reflexivity. }
  destruct (Z.eqb_spec (timeLeft (state a)) 1) as [E|E].
  - assert (He : snd (rerender q a1) = true).
    { apply rerender_ending. rewrite Hr. simpl. repeat split; [lia|].
      right. lia. }
    rewrite settle_ending by assumption. simpl fst. simpl snd.
    rewrite rerender_state, rerender_state, Hr. split; reflexivity.
  - assert (He : snd (rerender q a1) = false).
    { apply not_ending_nonzero. rewrite Hr. simpl. lia. }
    rewrite settle_plain by assumption. simpl fst. simpl snd.
    rewrite rerender_state, Hr. split; reflexivity.
Qed.

(** ** The concrete run *)

Lemma last_cons {B : Type} (cs : list B) : forall b c,
  last (b :: cs) c = last cs b.
Proof.
  induction cs as [|d cs IH]; intros b c; [reflexivity|].
  change (last (b :: d :: cs) c) with (last (d :: cs) c).
  rewrite !IH. reflexivity.
Qed.

Lemma last_In {B : Type} (cs : list B) : forall c, In (last cs c) (c :: cs).
Proof.
  induction cs as [|d cs IH]; intros c; [left; reflexivity|].
  rewrite last_cons. right. apply IH.
Qed.

Lemma fold_left_last {A B : Type} (f : B -> A) (l : list B) : forall x,
  fold_left (fun _ c => f c) l x =
  match l with [] => x | c :: cs => f (last cs c) end.
Proof.
  induction l as [|c cs IH]; intros x; [reflexivity|].
  simpl fold_left. rewrite IH. destruct cs as [|b cs]; [reflexivity|].
  rewrite last_cons. reflexivity.
Qed.

Lemma scoreAfter_eq (s : State) :
  scoreAfter s =
  match takenBy s with
  | [] => Player.score (currentPlayer s)
  | c :: cs => Player.score (currentPlayer s) + Collectible.value (last cs c)
  end.
Proof.
  unfold scoreAfter.
  apply (fold_left_last
           (fun c => Player.score (currentPlayer s) + Collectible.value c)).
Qed.

Lemma filter_keep_all {A : Type} (f : A -> bool) (l : list A) :
  Forall (fun x => f x = true) l ->
  filter f l = l /\ filter (fun x => negb (f x)) l = [].
Proof.
  induction 1 as [|x l Hx _ [IH1 IH2]]; simpl; [split; reflexivity|].
  rewrite Hx. simpl. rewrite IH1, IH2. split; reflexivity.
Qed.

Lemma spawnLoop_Forall (P : Collectible.t -> Prop) (rnd : nat -> R) :
  (forall id k, P (newCollectible id rnd k)) ->
  forall n i acc, Forall P acc -> Forall P (spawnLoop n i rnd acc).
Proof.
  intros HP. induction n as [|n IH]; intros i acc H; [assumption|].
  apply IH. apply Forall_app. split; [assumption|].
  constructor; [apply HP | constructor].
Qed.

Lemma js_gt_half : js_gt (1 / 2) (7 / 10) = false.
Proof. unfold js_gt. apply js_lt_false. lra. Qed.


Lemma newCollectible_half (id : string) (k : nat) :
  atCentre (newCollectible id half k).
Proof.
  unfold atCentre, newCollectible, half. simpl.
  rewrite js_gt_half. repeat split; lra.
Qed.

Lemma mount_state (player : Player.t) (canvas : option Canvas) (rnd : nat -> R) :
  gameState (state (mount player canvas rnd)) = waiting /\
  currentPlayer (state (mount player canvas rnd)) = player /\
  timeLeft (state (mount player canvas rnd)) = 60.
Proof.
  unfold mount. destruct canvas as [cv|]; [|repeat split].
  destruct (getContext cv); repeat split.
Qed.

Lemma started_state :
  state started =
  mkState playing propsPlayer (spawnLoop 10 0 half []) 60.
Proof.
  unfold started. destruct (step_click mounted half) as [H _]. rewrite H.
  destruct (mount_state propsPlayer (Some freshCanvas) half) as (_ & Hp & _).
  unfold mounted. rewrite Hp. reflexivity.
Qed.

Lemma started_reachable : reachable started.
Proof. unfold started, mounted. apply reach_step, reach_mount. Qed.

Lemma started_all_near :
  Forall (fun c => near (state started) c = true) (collectibles (state started)).
Proof.
  rewrite started_state. simpl collectibles.
  apply spawnLoop_Forall; [|constructor].
  intros id k. destruct (newCollectible_half id k) as (Hx & Hy & _).
  apply near_inside. rewrite Hx, Hy. simpl. lra.
Qed.

Lemma started_taken :
  takenBy (state started) = collectibles (state started) /\
  keptBy (state started) = [].
Proof. apply (filter_keep_all _ _ started_all_near). Qed.

Lemma started_count : count started = 10%nat.
Proof.
  unfold count. rewrite started_state. apply spawnLoop_length.
Qed.

(** The first frame of the concrete run takes all ten coins at once. *)
Lemma started_tick (rnd : nat -> R) (now : Z) :
  state (next (step started (AnimationFrame rnd now))) =
  mkState playing (withScore propsPlayer 10)
    [newCollectible ("collectible-" ++ showZ now) rnd 0] 60.
Proof.
  assert (Hp : gameState (state started) = playing)
    by (rewrite started_state; reflexivity).
  destruct (step_tick started rnd now (reachable_Inv _ started_reachable) Hp)
    as (d & _ & _ & Hs).
  rewrite Hs, tick_eq. destruct started_taken as [Ht Hk].
  pose proof started_count as Hn. unfold count in Hn.
  unfold collectiblesAfter. rewrite scoreAfter_eq, Ht, Hk.
  destruct (collectibles (state started)) as [|c cs] eqn:Ec; [discriminate|].
  assert (Hl : Collectible.value (last cs c) = 10).
  { assert (Hall : Forall atCentre (c :: cs)).
    { rewrite <- Ec, started_state. simpl collectibles.
      apply spawnLoop_Forall; [apply newCollectible_half | constructor]. }
    rewrite Forall_forall in Hall.
    pose proof (last_In cs c) as Hin.
    apply Hall in Hin. apply Hin. }
  rewrite Hl, started_state. reflexivity.
Qed.

(** ** Collision rule *)

Lemma keptBy_when_none_taken (s : State) :
  takenBy s = [] -> keptBy s = collectibles s.
Proof.
  intros H. apply filter_all.
  pose proof (filter_neg_length (near s) (collectibles s)) as E.
  fold (takenBy s) in E. rewrite H in E. simpl in E.
  unfold keptBy. lia.
Qed.

Lemma collectiblesAfter_split (s : State) (rnd : nat -> R) (now : Z) :
  exists spawned,
    collectiblesAfter s rnd now = keptBy s ++ spawned /\
    (List.length spawned <= 1)%nat.
Proof.
  unfold collectiblesAfter. destruct (takenBy s) eqn:E.
  - exists []. rewrite app_nil_r, keptBy_when_none_taken by assumption.
    split; [reflexivity | simpl; lia].
  - destruct (_ <? _)%nat; eexists; split; try reflexivity; simpl; lia.
Qed.

Lemma keptBy_In (s : State) (c : Collectible.t) :
  In c (keptBy s) <->
  In c (collectibles s) /\ (20 <= distance (currentPlayer s) c)%R.
Proof.
  unfold keptBy. rewrite filter_In, negb_true_iff. unfold near.
  rewrite js_lt_false. reflexivity.
Qed.

(** C4, as the code has it: one collision-check tick of an active round
    keeps, in order and unchanged, exactly the collectibles whose distance
    to the player, as [distance] computes it in double precision, is 20 or
    more, and removes exactly those for which it is strictly below 20; what
    follows the survivors is at most the one collectible the tick spawned.
    The computed distance decides as the Euclidean centre-to-centre
    distance does outside a band of 1e-13 around 20: a collectible at
    Euclidean distance at most 20 - 1e-13 is removed, one at 20 + 1e-13 or
    more is kept. *)
Theorem C4_removed_iff_within_20 (a : Arena) (rnd : nat -> R) (now : Z) :
  Inv a -> gameState (state a) = playing ->
  let p := currentPlayer (state a) in
  exists spawned,
    collectibles (state (next (step a (AnimationFrame rnd now)))) =
      keptBy (state a) ++ spawned /\
    (List.length spawned <= 1)%nat /\
    forall c, In c (collectibles (state a)) ->
      (In c (keptBy (state a)) <-> (20 <= distance p c)%R) /\
      (~ In c (keptBy (state a)) <-> (distance p c < 20)%R) /\
      ((euclid p c <= 20 - / 10000000000000)%R -> ~ In c (keptBy (state a))) /\
      ((20 + / 10000000000000 <= euclid p c)%R -> In c (keptBy (state a))).
Proof.
  intros HI Hp p.
  destruct (step_tick a rnd now HI Hp) as (d & _ & _ & Hs).
  destruct (collectiblesAfter_split (state a) rnd now) as (spawned & Hc & Hl).
  exists spawned. rewrite Hs, tick_eq. simpl collectibles.
  split; [assumption|]. split; [assumption|].
  intros c Hin. rewrite keptBy_In. fold p.
  split; [|split; [|split]].
  - split; intros H; [apply H | split; assumption].
  - split; intros H.
    + destruct (Rlt_dec (distance p c) 20) as [L|L]; [assumption|].
      exfalso. apply H. split; [assumption | lra].
    + intros [_ H']. lra.
  - intros H [_ H']. apply distance_inside in H. lra.
  - intros H. split; [assumption | apply distance_outside, H].
Qed.

Lemma C4_removed_iff_within_20_witness :
  exists spawned,
    collectibles (state (next (step started (AnimationFrame half 0)))) =
      keptBy (state started) ++ spawned /\
    (List.length spawned <= 1)%nat.
Proof.
  destruct (C4_removed_iff_within_20 started half 0
              (reachable_Inv _ started_reachable)) as (spawned & H1 & H2 & _).
  - rewrite started_state. reflexivity.
  - exists spawned. split; assumption.
Defined.

(** ** Pointer clamp *)

Lemma clamp_range (v hi : R) :
  (15 <= hi)%R -> (15 <= Rmax 15 (Rmin v hi) <= hi)%R.
Proof.
  intros H. unfold Rmax, Rmin.
  destruct (Rle_dec v hi); destruct (Rle_dec 15 _); lra.
Qed.

Lemma clamp_inside (v hi : R) :
  (15 <= v <= hi)%R -> Rmax 15 (Rmin v hi) = v.
Proof.
  intros H. unfold Rmax, Rmin.
  destruct (Rle_dec v hi); destruct (Rle_dec 15 _); lra.
Qed.

Lemma handleMouseMove_position (cv : Canvas) (s : State) (cx cy l t : R) :
  gameState s = playing ->
  30 <= width cv -> 30 <= height cv ->
  let p := currentPlayer (reduce s (handleMouseMove (Some cv) s cx cy l t)) in
  (15 <= Player.x p <= IZR (width cv) - 15)%R /\
  (15 <= Player.y p <= IZR (height cv) - 15)%R.
Proof.
  intros Hp Hw Hh. unfold handleMouseMove. rewrite Hp. simpl.
  apply IZR_le in Hw, Hh.
  split; apply clamp_range; lra.
Qed.

(** C5: while the round is active, a pointer-move event at any client
    position, with the canvas rectangle anywhere, leaves the player inside
    [15, 585] x [15, 385] on the 600 x 400 canvas. *)
Theorem C5_pointer_clamped (a : Arena) (cv : Canvas) (clientX clientY rectLeft rectTop : R) :
  gameState (state a) = playing ->
  canvasRef a = Some cv -> width cv = 600 -> height cv = 400 ->
  let p := currentPlayer
             (state (next (step a (MouseMove clientX clientY rectLeft rectTop)))) in
  (15 <= Player.x p <= 585)%R /\ (15 <= Player.y p <= 385)%R.
Proof.
  intros Hp Hc Hw Hh.
  destruct (step_mouse a clientX clientY rectLeft rectTop) as [Hs _].
  rewrite Hs, Hc.
  pose proof (handleMouseMove_position cv (state a) clientX clientY rectLeft rectTop Hp)
    as H.
  rewrite Hw, Hh in H. simpl in H.
  destruct H as [Hx Hy]; [lia | lia |].
  split; lra.
Qed.

Lemma settle_canvasRef (q : list Action) (a : Arena) :
  canvasRef (fst (settle 2 q a)) = canvasRef a.
Proof.
  destruct (snd (rerender q a)) eqn:E.
  - rewrite settle_ending by assumption. simpl.
    rewrite !rerender_canvasRef. reflexivity.
  - rewrite settle_plain by assumption. simpl. apply rerender_canvasRef.
Qed.

Lemma step_canvasRef (a : Arena) (e : Event) :
  canvasRef (next (step a e)) = canvasRef a.
Proof.
  destruct e; simpl.
  - rewrite next_settled. apply settle_canvasRef.
  - rewrite next_settled. apply settle_canvasRef.
  - destruct (frame a); [|reflexivity].
    destruct (gameLoop _ _ _ _) as [[[d q] again]|]; [|reflexivity].
    rewrite next_settled, settle_canvasRef. reflexivity.
  - destruct (timer a); [|reflexivity].
    rewrite next_settled, settle_canvasRef. reflexivity.
Qed.

(** Once mounted with a 2D context the canvas is 600 x 400 for good. *)
Lemma reachable_canvas (a : Arena) :
  reachable a ->
  forall cv, canvasRef a = Some cv -> has2d cv = true ->
  width cv = 600 /\ height cv = 400.
Proof.
  induction 1 as [player canvas rnd | a e _ IH]; intros cv Hc H2d.
  - unfold mount in Hc. destruct canvas as [c|]; [|discriminate].
    unfold getContext in Hc. destruct (has2d c) eqn:E.
    + rewrite settle_canvasRef in Hc. injection Hc as <-. split; reflexivity.
    + simpl in Hc. injection Hc as <-. congruence.
  - rewrite step_canvasRef in Hc. eapply IH; eassumption.
Qed.

Lemma started_canvasRef : canvasRef started = Some (mkCanvas 600 400 true).
Proof.
  unfold started. rewrite step_canvasRef. unfold mounted.
  change (mount propsPlayer (Some freshCanvas) half) with
    (fst (settle 2 (spawnCollectibles half)
            (mkArena (mkState waiting propsPlayer [] 60)
               (Some (mkCanvas 600 400 true)) None None))).
  apply settle_canvasRef.
Qed.

Lemma started_playing : gameState (state started) = playing.
Proof. rewrite started_state. reflexivity. Qed.

Lemma C5_pointer_clamped_witness :
  let p := currentPlayer (state (next (step started (MouseMove 1000 (-50) 0 0)))) in
  (15 <= Player.x p <= 585)%R /\ (15 <= Player.y p <= 385)%R.
Proof.
  apply (C5_pointer_clamped started (mkCanvas 600 400 true)).
  - apply started_playing.
  - apply started_canvasRef.
  - reflexivity.
  - reflexivity.
Defined.

(** ** The edge of the pickup radius *)

Lemma grazing_state :
  state grazing =
  mkState playing (withPosition (resetPlayer propsPlayer) 33 44)
    (spawnLoop 10 0 grazingDraws []) 60.
Proof.
  unfold grazing.
  destruct (step_mouse (next (step mounted (Click grazingDraws))) 33 44 0 0)
    as [H _].
  rewrite H, step_canvasRef.
  destruct (step_click mounted grazingDraws) as [Hc _]. rewrite Hc.
  destruct (mount_state propsPlayer (Some freshCanvas) half) as (_ & Hp & _).
  fold mounted in Hp. rewrite Hp.
  replace (canvasRef mounted) with (Some (mkCanvas 600 400 true)).
  - unfold handleMouseMove, reduce.
    cbn [gameState GameState_eqb negb width height fold_left reduce1
         currentPlayer collectibles timeLeft].
    replace (33 - 0)%R with 33%R by lra.
    replace (44 - 0)%R with 44%R by lra.
    rewrite !clamp_inside by (simpl; lra). reflexivity.
  - symmetry. unfold mounted.
    change (mount propsPlayer (Some freshCanvas) half) with
      (fst (settle 2 (spawnCollectibles half)
              (mkArena (mkState waiting propsPlayer [] 60)
                 (Some (mkCanvas 600 400 true)) None None))).
    apply settle_canvasRef.
Qed.

Lemma grazing_reachable : reachable grazing.
Proof. unfold grazing, mounted. apply reach_step, reach_step, reach_mount. Qed.

(** The two draws that place the first collectible are doubles, and the
    spawn arithmetic on them is exact in double precision: the position in
    the state is the one the doubles give. *)
Lemma grazing_spawn_exact :
  representable (grazingDraws 0) /\ representable (grazingDraws 1) /\
  js_add (js_mul (grazingDraws 0) 550) 25
    = Collectible.x (newCollectible "collectible-0" grazingDraws 0) /\
  js_add (js_mul (grazingDraws 1) 350) 25
    = Collectible.y (newCollectible "collectible-0" grazingDraws 0).
Proof.
  unfold newCollectible, grazingDraws, js_add, js_mul.
  cbn [Nat.eqb Nat.add Collectible.x Collectible.y].
  split; [dyadic 48438015311 45|]. split; [dyadic 575066896599 49|].
  split.
  - rewrite (double_representable (775008244976 / 562949953421312 * 550))
      by (dyadic 13320454210525 44).
    apply double_representable. dyadic 453125105320925 44.
  - rewrite (double_representable (575066896599 / 562949953421312 * 350))
      by (dyadic 100636706904825 48).
    apply double_representable. dyadic 7137511124671225 48.
Qed.

(** The first collectible lies closer than 20 to the player, by less than
    6e-14 on the squares. *)
Lemma grazing_euclid :
  (euclid (currentPlayer (state grazing))
     (newCollectible "collectible-0" grazingDraws 0) < 20)%R.
Proof.
  rewrite grazing_state. unfold euclid, newCollectible, grazingDraws.
  cbn [currentPlayer withPosition Player.x Player.y Collectible.x Collectible.y
       Nat.eqb Nat.add].
  rewrite <- (sqrt_square 20) by lra. apply sqrt_lt_1_alt.
  split; [|lra].
  apply Rplus_le_le_0_compat; apply pow2_ge_0.
Qed.

(** No collectible of that round passes the pickup test: for the first
    one the computed distance is 20. *)
Lemma grazing_none_taken : takenBy (state grazing) = [].
Proof.
  unfold takenBy. rewrite grazing_state.
  set (s := mkState _ _ _ _).
  assert (H : Forall (fun c => near s c = false) (collectibles s)).
  { apply spawnLoop_Forall; [|constructor].
    intros id k. destruct k as [|k].
    - unfold near, distance, newCollectible, grazingDraws, s.
      cbn [currentPlayer withPosition Player.x Player.y Collectible.x
           Collectible.y Nat.eqb Nat.add].
      replace (775008244976 / 562949953421312 * 550 + 25)%R
        with (453125105320925 / 17592186044416)%R by lra.
      replace (575066896599 / 562949953421312 * 350 + 25)%R
        with (7137511124671225 / 281474976710656)%R by lra.
      rewrite computed_grazing. apply js_lt_false. lra.
    - apply near_outside. unfold s.
      cbn [currentPlayer withPosition Player.x Player.y].
      assert (Ey : Collectible.y (newCollectible id grazingDraws (S k)) = 200%R).
      { unfold newCollectible, grazingDraws. cbn [Collectible.y].
        replace (S k + 1)%nat with (S (S k)) by lia. cbn [Nat.eqb]. lra. }
      rewrite Ey.
      pose proof
        (pow2_ge_0 (33 - Collectible.x (newCollectible id grazingDraws (S k)))).
      lra. }
  induction H as [|c cs Hc _ IH]; [reflexivity|].
  cbn [filter]. rewrite Hc. exact IH.
Qed.

Lemma grazingDraws_valid : validDraws grazingDraws.
Proof.
  intros k. unfold grazingDraws.
  destruct (k =? 0)%nat; [lra|]. destruct (k =? 1)%nat; lra.
Qed.

(** The claim as stated fails at the edge of the radius: in a state of an
    active round reached with draws in [0, 1) the first collectible lies
    at a Euclidean distance below 20 from the player, yet the tick keeps
    it, whatever it draws. *)
Lemma C4_counterexample :
  exists c,
    validDraws grazingDraws /\
    reachable grazing /\ gameState (state grazing) = playing /\
    In c (collectibles (state grazing)) /\
    (euclid (currentPlayer (state grazing)) c < 20)%R /\
    In c (keptBy (state grazing)) /\
    forall rnd now,
      In c (collectibles (state (next (step grazing (AnimationFrame rnd now))))).
Proof.
  exists (newCollectible "collectible-0" grazingDraws 0).
  assert (Hp : gameState (state grazing) = playing)
    by (rewrite grazing_state; reflexivity).
  assert (Hin : In (newCollectible "collectible-0" grazingDraws 0)
                  (collectibles (state grazing))).
  { rewrite grazing_state. left. reflexivity. }
  split; [apply grazingDraws_valid|].
  split; [apply grazing_reachable|]. split; [exact Hp|].
  split; [exact Hin|]. split; [apply grazing_euclid|]. split.
  - rewrite keptBy_when_none_taken by apply grazing_none_taken. exact Hin.
  - intros rnd now.
    destruct (step_tick grazing rnd now (reachable_Inv _ grazing_reachable) Hp)
      as (d & _ & _ & Hs).
    rewrite Hs, tick_eq. unfold collectiblesAfter.
    rewrite grazing_none_taken. exact Hin.
Qed.

(** ** Start *)

(** C6: the start handler, invoked in any state of the component (waiting,
    ended or playing), leaves the round playing with score 0, 60 seconds on
    the clock and the collectibles replaced by the ten freshly spawned ones. *)
Theorem C6_start_resets (a : Arena) (rnd : nat -> R) :
  let a' := next (step a (Click rnd)) in
  gameState (state a') = playing /\
  Player.score (currentPlayer (state a')) = 0 /\
  timeLeft (state a') = 60 /\
  collectibles (state a') = spawnLoop 10 0 rnd [] /\
  List.length (collectibles (state a')) = 10%nat.
Proof.
  intros a'. destruct (step_click a rnd) as [H _]. unfold a'. rewrite H.
  repeat split.
Qed.

(** ** Countdown *)

Lemma step_time (a : Arena) (e : Event) :
  Inv a ->
  match e with
  | Click _ => timeLeft (state (next (step a e))) = 60
  | Timeout =>
      match gameState (state a) with
      | playing =>
          0 < timeLeft (state a) /\
          timeLeft (state (next (step a e))) = timeLeft (state a) - 1
      | _ => timeLeft (state (next (step a e))) = timeLeft (state a)
      end
  | _ => timeLeft (state (next (step a e))) = timeLeft (state a)
  end.
Proof.
  intros HI. destruct e as [rnd | cx cy l t | rnd now | ].
  - destruct (step_click a rnd) as [H _]. rewrite H. reflexivity.
  - destruct (step_mouse a cx cy l t) as [H _]. rewrite H.
    apply reduce_handleMouseMove.
  - destruct (gameState (state a)) eqn:Eg;
      try (rewrite step_idle_frame by (auto; congruence); reflexivity).
    destruct (step_tick a rnd now HI Eg) as (d & _ & _ & H).
    rewrite H, tick_eq. reflexivity.
  - destruct (gameState (state a)) eqn:Eg;
      try (rewrite step_idle_timeout by (auto; congruence); reflexivity).
    destruct (step_timeout_state a HI Eg) as [H _]. rewrite H. simpl.
    destruct HI as [_ _ _ Ht]. unfold TimerOK in Ht. rewrite Eg in Ht.
    split; [apply Ht | reflexivity].
Qed.

(** C10: the countdown of every state the component can reach lies in
    [0, 60].  It is 60 at mount and after start; the timeout decrements it
    by exactly 1, and only while the round is playing, where it is positive;
    no other event changes it. *)
Theorem C10_time_in_range (a : Arena) :
  reachable a ->
  0 <= timeLeft (state a) <= 60 /\
  (forall player canvas rnd,
     a = mount player canvas rnd -> timeLeft (state a) = 60) /\
  forall e,
    match e with
    | Click _ => timeLeft (state (next (step a e))) = 60
    | Timeout =>
        match gameState (state a) with
        | playing =>
            0 < timeLeft (state a) /\
            timeLeft (state (next (step a e))) = timeLeft (state a) - 1
        | _ => timeLeft (state (next (step a e))) = timeLeft (state a)
        end
    | _ => timeLeft (state (next (step a e))) = timeLeft (state a)
    end.
Proof.
  intros Hr. pose proof (reachable_Inv a Hr) as HI.
  split; [apply HI|]. split.
  - intros player canvas rnd ->. apply mount_state.
  - intros e. apply step_time. assumption.
Qed.

Lemma C10_time_in_range_witness :
  0 <= timeLeft (state started) <= 60 /\
  timeLeft (state (next (step started Timeout))) = timeLeft (state started) - 1.
Proof.
  destruct (C10_time_in_range started started_reachable) as (H1 & _ & H3).
  split; [assumption|].
  specialize (H3 Timeout). cbv beta iota in H3. rewrite started_playing in H3.
  apply H3.
Defined.

(** ** Round end *)

Lemma GameState_eqb_refl (g : GameState) : GameState_eqb g g = true.
Proof. destruct g; reflexivity. Qed.

Lemma settled_nil (a : Arena) : settled [] a [] = mkOutcome a [] [].
Proof.
  unfold settled, settle, rerender. simpl.
  rewrite GameState_eqb_refl, Z.eqb_refl. simpl. destruct a; reflexivity.
Qed.

(** Outside a round only the start button does anything. *)
Lemma idle_step (a : Arena) (e : Event) :
  Inv a -> gameState (state a) <> playing -> isClick e = false ->
  step a e = mkOutcome a [] [].
Proof.
  intros HI Hp He. destruct e as [rnd | cx cy l t | rnd now | ].
  - discriminate.
  - unfold step, handleMouseMove.
    destruct (GameState_eqb (gameState (state a)) playing) eqn:E.
    + apply GameState_eqb_eq in E. contradiction.
    + simpl. apply settled_nil.
  - apply step_idle_frame; assumption.
  - apply step_idle_timeout; assumption.
Qed.

Lemma idle_run (a : Arena) (es : list Event) :
  Inv a -> gameState (state a) <> playing ->
  forallb (fun e => negb (isClick e)) es = true ->
  run a es = (a, []).
Proof.
  intros HI Hp. induction es as [|e es IH]; intros H; [reflexivity|].
  simpl in H. apply andb_true_iff in H as [He Hes].
  apply negb_true_iff in He.
  simpl. rewrite (idle_step a e HI Hp He). simpl.
  rewrite (IH Hes). reflexivity.
Qed.

(** C7: when an event of an active round brings the countdown to 0, that
    event is the timeout firing at 1; the round is ended by it, exactly one
    round-end notification is sent and it carries the score of that moment;
    no frame and no timeout remain pending, and every later sequence of
    events without a start changes nothing and notifies nothing. *)
Theorem C7_round_end (a : Arena) (e : Event) :
  Inv a -> gameState (state a) = playing ->
  timeLeft (state (next (step a e))) = 0 ->
  let o := step a e in
  e = Timeout /\
  timeLeft (state a) = 1 /\
  gameState (state (next o)) = ended /\
  notified o = [onGameEnd (scoreOf a)] /\
  scoreOf (next o) = scoreOf a /\
  frame (next o) = None /\
  timer (next o) = None /\
  forall es,
    forallb (fun e' => negb (isClick e')) es = true ->
    run (next o) es = (next o, []).
Proof.
  intros HI Hp Hz o.
  pose proof (step_time a e HI) as Ht.
  pose proof (inv_timer a HI) as Hpos. unfold TimerOK in Hpos.
  rewrite Hp in Hpos. destruct Hpos as [Hpos _].
  assert (He : e = Timeout).
  { destruct e; try reflexivity; try (rewrite Ht in Hz; lia). }
  subst e. rewrite Hp in Ht. destruct Ht as [_ Ht].
  assert (H1 : timeLeft (state a) = 1) by lia.
  destruct (step_timeout_state a HI Hp) as [Hs Hn].
  rewrite H1 in Hs, Hn. rewrite Z.eqb_refl in Hs, Hn.
  pose proof (step_Inv a Timeout HI) as HI'. fold o in HI', Hs, Hn.
  assert (Hg : gameState (state (next o)) = ended) by (rewrite Hs; reflexivity).
  split; [reflexivity|]. split; [assumption|]. split; [assumption|].
  split; [assumption|].
  split; [unfold scoreOf; rewrite Hs; reflexivity|].
  pose proof (inv_frame _ HI') as Hf. pose proof (inv_timer _ HI') as Htm.
  unfold FrameOK in Hf. unfold TimerOK in Htm. rewrite Hg in Hf, Htm.
  split; [assumption|]. split; [assumption|].
  intros es Hes. apply idle_run; [assumption | congruence | assumption].
Qed.

Lemma lastSecond_Inv : Inv lastSecond.
Proof.
  constructor; simpl.
  - lia.
  - constructor.
  - unfold FrameOK. simpl. eexists. split; [reflexivity | apply sameLoopView_refl].
  - unfold TimerOK. simpl. split; [lia|]. eexists. split; reflexivity.
Qed.

Lemma C7_round_end_witness :
  gameState (state (next (step lastSecond Timeout))) = ended /\
  notified (step lastSecond Timeout) = [onGameEnd 0].
Proof.
  destruct (C7_round_end lastSecond Timeout lastSecond_Inv)
    as (_ & _ & H1 & H2 & _).
  - reflexivity.
  - reflexivity.
  - split; assumption.
Defined.

(** ** Score *)

Lemma takenBy_values (s : State) :
  Forall spawnedValue (collectibles s) -> Forall spawnedValue (takenBy s).
Proof.
  unfold takenBy. intros H. rewrite Forall_forall in *.
  intros c Hc. apply filter_In in Hc as [Hc _]. auto.
Qed.

Lemma scoreAfter_ge (s : State) :
  Forall spawnedValue (collectibles s) ->
  Player.score (currentPlayer s) <= scoreAfter s.
Proof.
  intros H. apply takenBy_values in H. rewrite scoreAfter_eq.
  destruct (takenBy s) as [|c cs]; [lia|].
  rewrite Forall_forall in H.
  destruct (H _ (last_In cs c)) as [E|E]; rewrite E; lia.
Qed.

(** C8, as the code has it: pointer moves, collision-check ticks and timer
    ticks never lower the score; start sets it to 0. *)
Theorem C8_score_monotone_except_start (a : Arena) (e : Event) :
  Inv a ->
  match e with
  | Click _ => scoreOf (next (step a e)) = 0
  | _ => scoreOf a <= scoreOf (next (step a e))
  end.
Proof.
  intros HI. unfold scoreOf. destruct e as [rnd | cx cy l t | rnd now | ].
  - destruct (step_click a rnd) as [H _]. rewrite H. reflexivity.
  - destruct (step_mouse a cx cy l t) as [H _]. rewrite H.
    destruct (reduce_handleMouseMove (canvasRef a) (state a) cx cy l t)
      as (_ & _ & _ & Hs).
    rewrite Hs. lia.
  - destruct (gameState (state a)) eqn:Eg;
      try (rewrite step_idle_frame by (auto; congruence); simpl; lia).
    destruct (step_tick a rnd now HI Eg) as (d & _ & _ & H).
    rewrite H, tick_eq. simpl. apply scoreAfter_ge. apply HI.
  - destruct (gameState (state a)) eqn:Eg;
      try (rewrite step_idle_timeout by (auto; congruence); simpl; lia).
    destruct (step_timeout_state a HI Eg) as [H _]. rewrite H. simpl. lia.
Qed.

Lemma C8_score_monotone_except_start_witness :
  scoreOf started <= scoreOf (next (step started (AnimationFrame half 0))).
Proof.
  apply (C8_score_monotone_except_start started (AnimationFrame half 0)).
  apply reachable_Inv. apply started_reachable.
Defined.

(** The claim as stated fails: after the first frame of the concrete run
    the score is 10, and the start button brings it back to 0. *)
Lemma C8_counterexample :
  ~ (forall a e, reachable a -> scoreOf a <= scoreOf (next (step a e))).
Proof.
  intros H.
  assert (Hr : reachable (next (step started (AnimationFrame half 0))))
    by (apply reach_step, started_reachable).
  assert (E1 : scoreOf (next (step started (AnimationFrame half 0))) = 10).
  { unfold scoreOf. rewrite started_tick. reflexivity. }
  assert (E2 : scoreOf (next (step (next (step started (AnimationFrame half 0)))
                                (Click half))) = 0).
  { unfold scoreOf.
    destruct (step_click (next (step started (AnimationFrame half 0))) half)
      as [Hc _].
    rewrite Hc. reflexivity. }
  pose proof (H _ (Click half) Hr) as H1.
  rewrite E1, E2 in H1. lia.
Qed.

Lemma callbacks_pickups (s : State) (cs : list Collectible.t) :
  callbacks (flat_map (pickup s) cs) =
  map (fun c => onScoreUpdate (Player.score (currentPlayer s) + Collectible.value c))
    (filter (near s) cs).
Proof.
  induction cs as [|c cs IH]; [reflexivity|].
  simpl. rewrite callbacks_app, IH. unfold pickup at 1, collide.
  fold (near s c). destruct (near s c); reflexivity.
Qed.

(** A tick notifies one score per pickup, each computed from the captured
    score. *)
Lemma callbacks_checkCollisions (s : State) (rnd : nat -> R) (now : Z) :
  callbacks (checkCollisions s rnd now) =
  map (fun c => onScoreUpdate (Player.score (currentPlayer s) + Collectible.value c))
    (takenBy s).
Proof.
  rewrite checkCollisions_eq, callbacks_app, callbacks_pickups.
  fold (takenBy s). rewrite <- app_nil_r. f_equal.
  destruct (takenBy s); [reflexivity|].
  destruct (_ <? _)%nat; reflexivity.
Qed.

(** With at most one pickup per tick the score does add up. *)
Lemma single_pickup_score (s : State) :
  (List.length (takenBy s) <= 1)%nat ->
  scoreAfter s = Player.score (currentPlayer s) + sumValues (takenBy s).
Proof.
  intros H. rewrite scoreAfter_eq.
  destruct (takenBy s) as [|c [|c' cs]]; simpl in *; lia.
Qed.

Lemma sumValues_const (v : Z) (cs : list Collectible.t) :
  Forall (fun c => Collectible.value c = v) cs ->
  sumValues cs = v * Z.of_nat (List.length cs).
Proof.
  induction 1 as [|c cs Hc _ IH]; [simpl; lia|].
  change (sumValues (c :: cs)) with (Collectible.value c + sumValues cs).
  rewrite IH, Hc. simpl List.length. lia.
Qed.

Lemma map_const_repeat {A B : Type} (f : A -> B) (y : B) (l : list A) :
  Forall (fun x => f x = y) l -> map f l = repeat y (List.length l).
Proof.
  induction 1 as [|x l Hx _ IH]; [reflexivity|].
  simpl. rewrite Hx, IH. reflexivity.
Qed.

Lemma started_values :
  Forall (fun c => Collectible.value c = 10) (collectibles (state started)).
Proof.
  rewrite started_state. simpl collectibles.
  apply spawnLoop_Forall; [|constructor].
  intros id k. apply newCollectible_half.
Qed.

(** C3 at the failing input: in the concrete run the first frame picks up
    ten coins worth 10 each, 100 in all, from score 0; ten score updates are
    notified, every one of them 10, and the score after the tick is 10. *)
Theorem C3_lost_pickups :
  let o := step started (AnimationFrame half 0) in
  scoreOf started = 0 /\
  takenBy (state started) = collectibles (state started) /\
  List.length (takenBy (state started)) = 10%nat /\
  sumValues (takenBy (state started)) = 100 /\
  notified o = repeat (onScoreUpdate 10) 10 /\
  scoreOf (next o) = 10.
Proof.
  intros o. destruct started_taken as [Ht _].
  pose proof started_count as Hn. unfold count in Hn.
  pose proof started_values as Hv.
  split; [unfold scoreOf; rewrite started_state; reflexivity|].
  split; [assumption|].
  rewrite Ht. split; [assumption|].
  split; [rewrite (sumValues_const 10) by assumption; rewrite Hn; reflexivity|].
  split.
  - destruct (step_tick started half 0 (reachable_Inv _ started_reachable)
                started_playing) as (d & _ & Hs & _).
    unfold o. rewrite Hs. cbn [notified].
    rewrite callbacks_checkCollisions, Ht.
    rewrite (map_const_repeat _ (onScoreUpdate 10)), Hn; [reflexivity|].
    eapply Forall_impl; [|exact Hv]. intros c Hc. simpl in Hc.
    rewrite Hc, started_state. reflexivity.
  - unfold o, scoreOf. rewrite started_tick. reflexivity.
Qed.

(** ** Replenishment *)

(** The count a tick leaves: unchanged without a pickup, else the survivors
    plus one when fewer than 5 survive. *)
Lemma tick_count (s : State) (rnd : nat -> R) (now : Z) :
  List.length (collectibles (tick s rnd now)) =
  match takenBy s with
  | [] => List.length (collectibles s)
  | _ :: _ =>
      (List.length (keptBy s) + (if (List.length (keptBy s) <? 5)%nat then 1 else 0))%nat
  end.
Proof.
  rewrite tick_eq. simpl. unfold collectiblesAfter.
  destruct (takenBy s); [reflexivity|].
  rewrite length_app. destruct (_ <? _)%nat; reflexivity.
Qed.

(** C2, as the code has it: a tick of an active round that takes no
    collectible leaves their number as it was; a tick that takes at least
    one leaves the survivors and, when fewer than 5 survive, the one
    collectible it spawns, so that the count after it is at least 5
    exactly when at least 4 collectibles survive.  From 5 or more
    collectibles the count therefore stays at 5 or more exactly when the
    tick takes none or leaves at least 4 survivors, in particular whenever
    it takes at most one. *)
Theorem C2_min_count_iff_four_survive (a : Arena) (rnd : nat -> R) (now : Z) :
  Inv a -> gameState (state a) = playing ->
  let after := count (next (step a (AnimationFrame rnd now))) in
  let survivors := List.length (keptBy (state a)) in
  (takenBy (state a) = [] -> after = count a) /\
  (takenBy (state a) <> [] ->
   after = (survivors + (if (survivors <? 5)%nat then 1 else 0))%nat /\
   ((5 <= after)%nat <-> (4 <= survivors)%nat)) /\
  ((5 <= count a)%nat ->
   ((5 <= after)%nat <-> takenBy (state a) = [] \/ (4 <= survivors)%nat) /\
   ((List.length (takenBy (state a)) <= 1)%nat -> (5 <= after)%nat)).
Proof.
  intros HI Hp after survivors. unfold after, survivors, count.
  destruct (step_tick a rnd now HI Hp) as (d & _ & _ & Hs).
  rewrite Hs, tick_count.
  pose proof (filter_neg_length (near (state a)) (collectibles (state a))) as E.
  fold (keptBy (state a)) in E. fold (takenBy (state a)) in E.
  destruct (takenBy (state a)) as [|c cs].
  - split; [reflexivity|]. split; [intros H; contradiction|].
    intros H5. split; [|intros _; assumption].
    split; [left; reflexivity | intros _; assumption].
  - simpl in E. split; [discriminate|].
    destruct (Nat.ltb_spec (List.length (keptBy (state a))) 5) as [L|L].
    + split; [intros _; split; [reflexivity | lia]|].
      intros H5. split; [|simpl; lia].
      split; [intros H; right; lia | intros [H|H]; [discriminate | lia]].
    + split; [intros _; split; [reflexivity | lia]|].
      intros H5. split; [|simpl; lia].
      split; [intros H; right; lia | intros [H|H]; [discriminate | lia]].
Qed.

Lemma fiveCoins_Inv : Inv fiveCoins.
Proof.
  constructor; simpl.
  - lia.
  - repeat constructor.
  - unfold FrameOK. simpl. eexists. split; [reflexivity | apply sameLoopView_refl].
  - unfold TimerOK. simpl. split; [lia|]. eexists. split; reflexivity.
Qed.

Lemma fiveCoins_taken :
  takenBy (state fiveCoins) = [Collectible.mk "collectible-0" 300 200 coin 10].
Proof.
  set (c0 := Collectible.mk "collectible-0" 300 200 coin 10).
  set (far := Collectible.mk "collectible-1" 25 25 coin 10).
  unfold takenBy. set (s := state fiveCoins).
  assert (Hn : near s c0 = true) by (apply near_inside; simpl; lra).
  assert (Hf : near s far = false) by (apply near_outside; simpl; lra).
  change (collectibles s) with [c0; far; far; far; far].
  cbn [filter]. rewrite Hn, Hf. reflexivity.
Qed.

Lemma C2_min_count_iff_four_survive_witness :
  (5 <= count (next (step fiveCoins (AnimationFrame half 0))))%nat.
Proof.
  destruct (C2_min_count_iff_four_survive fiveCoins half 0)
    as (_ & _ & H).
  - apply fiveCoins_Inv.
  - reflexivity.
  - destruct H as [_ H]; [unfold count; simpl; lia|].
    apply H. rewrite fiveCoins_taken. simpl. lia.
Defined.

(** The claim as stated fails: the first frame of the concrete run removes
    all ten collectibles at once and spawns one. *)
Lemma C2_counterexample :
  ~ (forall a rnd now,
       reachable a -> gameState (state a) = playing ->
       (5 <= count (next (step a (AnimationFrame rnd now))))%nat).
Proof.
  intros H.
  specialize (H started half 0 started_reachable started_playing).
  unfold count in H. rewrite started_tick in H. simpl in H. lia.
Qed.

Lemma js_gt_true (a b : R) : js_gt a b = true <-> (b < a)%R.
Proof. unfold js_gt. apply js_lt_true. Qed.

Lemma js_gt_false (a b : R) : js_gt a b = false <-> (a <= b)%R.
Proof. unfold js_gt. apply js_lt_false. Qed.

(** What the four draws decide. *)
Lemma newCollectible_spec (id : string) (rnd : nat -> R) :
  validDraws rnd ->
  let c := newCollectible id rnd 0 in
  (25 <= Collectible.x c < 575)%R /\
  (25 <= Collectible.y c < 375)%R /\
  (Collectible.type c = powerup <-> (7 / 10 < rnd 2%nat)%R) /\
  (Collectible.type c = coin <-> (rnd 2%nat <= 7 / 10)%R) /\
  (Collectible.value c = 50 <-> (7 / 10 < rnd 3%nat)%R) /\
  (Collectible.value c = 10 <-> (rnd 3%nat <= 7 / 10)%R).
Proof.
  intros Hv c. unfold c, newCollectible. simpl.
  pose proof (Hv 0%nat) as H0. pose proof (Hv 1%nat) as H1.
  split; [lra|]. split; [lra|].
  pose proof (js_gt_true (rnd 2%nat) (7 / 10)) as T2.
  pose proof (js_gt_false (rnd 2%nat) (7 / 10)) as F2.
  pose proof (js_gt_true (rnd 3%nat) (7 / 10)) as T3.
  pose proof (js_gt_false (rnd 3%nat) (7 / 10)) as F3.
  destruct (js_gt (rnd 2%nat) (7 / 10)), (js_gt (rnd 3%nat) (7 / 10));
    repeat split; intros H; try reflexivity; try discriminate;
    try (apply T2; reflexivity); try (apply T3; reflexivity);
    try (apply F2; reflexivity); try (apply F3; reflexivity);
    exfalso;
    first [ assert (E : (rnd 2%nat <= 7 / 10)%R) by (apply F2; reflexivity); lra
          | assert (E : (7 / 10 < rnd 2%nat)%R) by (apply T2; reflexivity); lra
          | assert (E : (rnd 3%nat <= 7 / 10)%R) by (apply F3; reflexivity); lra
          | assert (E : (7 / 10 < rnd 3%nat)%R) by (apply T3; reflexivity); lra ].
Qed.

(** C1, as the code has it: a tick of an active round whose pickups leave
    fewer than 5 collectibles appends exactly one new collectible, placed
    in [25, 575) x [25, 375).  Its kind is the power-up exactly when the
    third draw exceeds 0.7, three tenths of the unit interval, and a coin
    otherwise; its value is 50 exactly when the fourth draw exceeds 0.7 and
    10 otherwise.  Kind and value come from separate draws. *)
Theorem C1_replenish_one (a : Arena) (rnd : nat -> R) (now : Z) :
  Inv a -> gameState (state a) = playing -> validDraws rnd ->
  takenBy (state a) <> [] ->
  (List.length (keptBy (state a)) < 5)%nat ->
  exists c,
    collectibles (state (next (step a (AnimationFrame rnd now)))) =
      keptBy (state a) ++ [c] /\
    (25 <= Collectible.x c < 575)%R /\
    (25 <= Collectible.y c < 375)%R /\
    (Collectible.type c = powerup <-> (7 / 10 < rnd 2%nat)%R) /\
    (Collectible.type c = coin <-> (rnd 2%nat <= 7 / 10)%R) /\
    (Collectible.value c = 50 <-> (7 / 10 < rnd 3%nat)%R) /\
    (Collectible.value c = 10 <-> (rnd 3%nat <= 7 / 10)%R).
Proof.
  intros HI Hp Hv Ht Hk.
  destruct (step_tick a rnd now HI Hp) as (d & _ & _ & Hs).
  exists (newCollectible ("collectible-" ++ showZ now) rnd 0).
  split; [|apply newCollectible_spec; assumption].
  rewrite Hs, tick_eq. simpl collectibles. unfold collectiblesAfter.
  destruct (takenBy (state a)); [congruence|].
  apply Nat.ltb_lt in Hk. rewrite Hk. reflexivity.
Qed.

Lemma half_valid : validDraws half.
Proof. intros k. unfold half. lra. Qed.

Lemma mixed_valid : validDraws mixed.
Proof. intros k. unfold mixed. destruct (k =? 2)%nat; lra. Qed.

Lemma started_taken_some : takenBy (state started) <> [].
Proof.
  destruct started_taken as [Ht _]. rewrite Ht. intros E.
  pose proof started_count as Hn. unfold count in Hn. rewrite E in Hn.
  discriminate.
Qed.

Lemma started_kept_few : (List.length (keptBy (state started)) < 5)%nat.
Proof. destruct started_taken as [_ Hk]. rewrite Hk. simpl. lia. Qed.

Lemma C1_replenish_one_witness :
  exists c,
    collectibles (state (next (step started (AnimationFrame half 0)))) =
      keptBy (state started) ++ [c] /\
    (Collectible.value c = 10 <-> (half 3%nat <= 7 / 10)%R).
Proof.
  destruct (C1_replenish_one started half 0
              (reachable_Inv _ started_reachable) started_playing half_valid
              started_taken_some started_kept_few)
    as (c & H1 & _ & _ & _ & _ & _ & H2).
  exists c. split; assumption.
Defined.

(** The claim as stated fails: with a type draw of 0.8 and a value draw of
    0.5 the replenishment spawn of the concrete run is a power-up worth 10. *)
Lemma C1_counterexample :
  ~ (forall a rnd now c,
       reachable a -> gameState (state a) = playing -> validDraws rnd ->
       takenBy (state a) <> [] ->
       (List.length (keptBy (state a)) < 5)%nat ->
       collectibles (state (next (step a (AnimationFrame rnd now)))) =
         keptBy (state a) ++ [c] ->
       (Collectible.type c = coin -> Collectible.value c = 10) /\
       (Collectible.type c = powerup -> Collectible.value c = 50)).
Proof.
  intros H.
  specialize (H started mixed 0 (newCollectible ("collectible-" ++ showZ 0) mixed 0)
                started_reachable started_playing mixed_valid
                started_taken_some started_kept_few).
  destruct H as [_ H].
  - rewrite started_tick. destruct started_taken as [_ Hk]. rewrite Hk.
    reflexivity.
  - assert (E : Collectible.value (newCollectible ("collectible-" ++ showZ 0) mixed 0)
                = 10).
    { apply (newCollectible_spec _ mixed mixed_valid). unfold mixed. simpl. lra. }
    rewrite E in H. assert (C : 10 = 50); [|discriminate C].
    apply H. apply (newCollectible_spec _ mixed mixed_valid).
    unfold mixed. simpl. lra.
Qed.

(** ** Drawing surface *)

Lemma render_unavailable (cv : option Canvas) (s : State) :
  surfaceAvailable cv = false -> render cv s = Normal [].
Proof.
  unfold surfaceAvailable, render, getContext.
  destruct cv as [c|]; [|reflexivity].
  intros H. rewrite H. reflexivity.
Qed.

Lemma render_available (cv : Canvas) (s : State) :
  has2d cv = true -> render (Some cv) s = Normal (paint cv s).
Proof.
  intros H. unfold render, getContext. rewrite H. reflexivity.
Qed.

Lemma paint_not_nil (cv : Canvas) (s : State) : paint cv s <> [].
Proof. unfold paint. simpl. discriminate. Qed.

Lemma withCanvas_Inv (a : Arena) (canvas : option Canvas) :
  Inv a -> Inv (withCanvas a canvas).
Proof.
  intros [H1 H2 H3 H4]. constructor; assumption.
Qed.

(** C9: with no canvas or no 2D context, [gameLoop] completes without
    throwing for every state: it draws nothing and still runs the collision
    check and its re-request.  The frame of an active round therefore
    leaves the state a collision check leaves and a frame pending, and the
    next frame, once the ref holds a canvas with a context, paints it. *)
Theorem C9_tick_without_surface (a : Arena) (rnd : nat -> R) (now : Z) :
  Inv a -> gameState (state a) = playing ->
  surfaceAvailable (canvasRef a) = false ->
  let o := step a (AnimationFrame rnd now) in
  (forall s,
     gameLoop (canvasRef a) s rnd now =
     Normal ([], checkCollisions s rnd now, GameState_eqb (gameState s) playing)) /\
  drawn o = [] /\
  state (next o) = tick (state a) rnd now /\
  (exists c, frame (next o) = Some c) /\
  forall cv rnd' now',
    has2d cv = true ->
    drawn (step (withCanvas (next o) (Some cv)) (AnimationFrame rnd' now')) =
      paint cv (state (next o)) /\
    paint cv (state (next o)) <> [].
Proof.
  intros HI Hp Hs o.
  destruct (step_tick a rnd now HI Hp) as (d & Hd & Ho & Hst).
  rewrite render_unavailable in Hd by assumption.
  injection Hd as <-. fold o in Ho, Hst.
  pose proof (step_Inv a (AnimationFrame rnd now) HI) as HI'. fold o in HI'.
  assert (Hp' : gameState (state (next o)) = playing).
  { rewrite Hst, tick_eq. assumption. }
  split.
  { intros s. unfold gameLoop. rewrite render_unavailable by assumption.
    reflexivity. }
  split; [rewrite Ho; reflexivity|].
  split; [assumption|].
  split.
  { pose proof (inv_frame _ HI') as Hf. unfold FrameOK in Hf.
    rewrite Hp' in Hf. destruct Hf as (c & Hc & _). exists c. assumption. }
  intros cv rnd' now' H2d.
  split; [|apply paint_not_nil].
  destruct (step_tick (withCanvas (next o) (Some cv)) rnd' now'
              (withCanvas_Inv _ _ HI') Hp') as (d' & Hd' & Ho' & _).
  simpl canvasRef in Hd'. simpl state in Hd'.
  rewrite render_available in Hd' by assumption.
  injection Hd' as <-. rewrite Ho'. reflexivity.
Qed.

Lemma startedBlind_reachable : reachable startedBlind.
Proof. unfold startedBlind. apply reach_step, reach_mount. Qed.

Lemma startedBlind_playing : gameState (state startedBlind) = playing.
Proof.
  unfold startedBlind.
  destruct (step_click (mount propsPlayer None half) half) as [H _].
  rewrite H. reflexivity.
Qed.

Lemma startedBlind_canvasRef : canvasRef startedBlind = None.
Proof. unfold startedBlind. rewrite step_canvasRef. reflexivity. Qed.

Lemma C9_tick_without_surface_witness :
  drawn (step startedBlind (AnimationFrame half 0)) = [] /\
  exists c, frame (next (step startedBlind (AnimationFrame half 0))) = Some c.
Proof.
  destruct (C9_tick_without_surface startedBlind half 0
              (reachable_Inv _ startedBlind_reachable) startedBlind_playing)
    as (_ & H1 & _ & H2 & _).
  - rewrite startedBlind_canvasRef. reflexivity.
  - split; assumption.
Defined.

(** * Further properties of the arena *)

(** ** Spawning *)

Lemma newCollectible_inSpawnArea (id : string) (rnd : nat -> R) (k : nat) :
  validDraws rnd -> inSpawnArea (newCollectible id rnd k).
Proof.
  intros Hv. unfold inSpawnArea, newCollectible. simpl.
  pose proof (Hv k) as H0. pose proof (Hv (k + 1)%nat) as H1. split; lra.
Qed.

(** X1: with draws in [0, 1), start leaves exactly the ten collectibles
    [collectible-0] to [collectible-9], in that order, each at a position
    in [25, 575) x [25, 375) and worth 10 or 50. *)
Theorem start_spawns_ten_inside (a : Arena) (rnd : nat -> R) :
  validDraws rnd ->
  let cs := collectibles (state (next (step a (Click rnd)))) in
  map Collectible.id cs =
    ["collectible-0"; "collectible-1"; "collectible-2"; "collectible-3";
     "collectible-4"; "collectible-5"; "collectible-6"; "collectible-7";
     "collectible-8"; "collectible-9"]%string /\
  Forall (fun c => inSpawnArea c /\ spawnedValue c) cs.
Proof.
  intros Hv cs. destruct (step_click a rnd) as [H _]. unfold cs. rewrite H.
  simpl collectibles. split; [reflexivity|].
  apply spawnLoop_Forall; [|constructor].
  intros id k. split;
    [apply newCollectible_inSpawnArea; assumption | apply newCollectible_value].
Qed.

Lemma start_spawns_ten_inside_witness :
  Forall (fun c => inSpawnArea c /\ spawnedValue c)
    (collectibles (state (next (step mounted (Click half))))).
Proof.
  apply (start_spawns_ten_inside mounted half). apply half_valid.
Defined.

(** ** Pointer *)



(** Outside a round, or without a canvas, the pointer handler does
    nothing. *)
Lemma handleMouseMove_ignored (cv : option Canvas) (s : State) (cx cy l t : R) :
  gameState s <> playing \/ cv = None ->
  handleMouseMove cv s cx cy l t = [].
Proof.
  intros [H | ->]; unfold handleMouseMove.
  - destruct (GameState_eqb (gameState s) playing) eqn:E; [|reflexivity].
    apply GameState_eqb_eq in E. contradiction.
  - destruct (negb _); reflexivity.
Qed.

Lemma step_mouse_position (a : Arena) (cx cy l t : R) :
  arenaCanvas (canvasRef a) -> inArena (currentPlayer (state a)) ->
  inArena (currentPlayer (state (next (step a (MouseMove cx cy l t))))).
Proof.
  intros Hc Hi. destruct (step_mouse a cx cy l t) as [Hs _]. rewrite Hs.
  destruct (GameState_eqb (gameState (state a)) playing) eqn:E.
  - apply GameState_eqb_eq in E. destruct (canvasRef a) as [cv|] eqn:Ec.
    + destruct Hc as [Hw Hh].
      pose proof (handleMouseMove_position cv (state a) cx cy l t E) as H.
      rewrite Hw, Hh in H. simpl in H. destruct H as [Hx Hy]; [lia | lia |].
      unfold inArena. split; lra.
    + rewrite handleMouseMove_ignored by (right; reflexivity). assumption.
  - rewrite handleMouseMove_ignored; [assumption|].
    left. intros C. apply GameState_eqb_eq in C. congruence.
Qed.

Lemma run_cons (a : Arena) (e : Event) (es : list Event) :
  run a (e :: es) =
  (fst (run (next (step a e)) es),
   notified (step a e) ++ snd (run (next (step a e)) es)).
Proof. simpl. destruct (run (next (step a e)) es). reflexivity. Qed.

Lemma step_position (a : Arena) (e : Event) :
  Inv a -> arenaCanvas (canvasRef a) -> inArena (currentPlayer (state a)) ->
  inArena (currentPlayer (state (next (step a e)))).
Proof.
  intros HI Hc Hi. destruct e as [rnd | cx cy l t | rnd now | ].
  - destruct (step_click a rnd) as [H _]. rewrite H. exact Hi.
  - apply step_mouse_position; assumption.
  - destruct (gameState (state a)) eqn:Eg;
      try (rewrite step_idle_frame by (auto; congruence); assumption).
    destruct (step_tick a rnd now HI Eg) as (d & _ & _ & H).
    rewrite H, tick_eq. exact Hi.
  - destruct (gameState (state a)) eqn:Eg;
      try (rewrite step_idle_timeout by (auto; congruence); assumption).
    destruct (step_timeout_state a HI Eg) as [H _]. rewrite H. exact Hi.
Qed.

(** X3: on the 600 x 400 canvas a player inside [15, 585] x [15, 385]
    stays inside it through every sequence of events: starts, pointer moves
    anywhere, frames and timeouts. *)
Theorem position_stays_in_arena (a : Arena) (es : list Event) :
  Inv a -> arenaCanvas (canvasRef a) -> inArena (currentPlayer (state a)) ->
  inArena (currentPlayer (state (fst (run a es)))).
Proof.
  revert a. induction es as [|e es IH]; intros a HI Hc Hi; [exact Hi|].
  rewrite run_cons. simpl fst. apply IH.
  - apply step_Inv. assumption.
  - rewrite step_canvasRef. assumption.
  - apply step_position; assumption.
Qed.

Lemma position_stays_in_arena_witness :
  inArena (currentPlayer (state (fst (run started
    [MouseMove 5000 (-3) 0 0; AnimationFrame half 0; Timeout; Click half])))).
Proof.
  apply position_stays_in_arena.
  - apply reachable_Inv, started_reachable.
  - rewrite started_canvasRef. simpl. split; reflexivity.
  - rewrite started_state. unfold inArena. simpl. split; lra.
Defined.

(** ** Frames *)

Lemma rerender_nil (a : Arena) : rerender [] a = (a, false).
Proof.
  unfold rerender. simpl.
  rewrite GameState_eqb_refl, Z.eqb_refl. simpl. destruct a; reflexivity.
Qed.

Lemma pickups_none (s : State) (cs : list Collectible.t) :
  filter (near s) cs = [] -> flat_map (pickup s) cs = [].
Proof.
  induction cs as [|c cs IH]; [reflexivity|].
  simpl. unfold pickup at 1. destruct (near s c); [discriminate|].
  intros H. simpl. apply IH. assumption.
Qed.

(** X4: a frame of an active round with no collectible within 20 of the
    player changes nothing at all: same state, same pending callbacks, no
    notification. *)
Theorem frame_without_pickup_is_noop (a : Arena) (rnd : nat -> R) (now : Z) :
  Inv a -> gameState (state a) = playing ->
  takenBy (state a) = [] ->
  next (step a (AnimationFrame rnd now)) = a /\
  notified (step a (AnimationFrame rnd now)) = [].
Proof.
  intros HI Hp Ht.
  destruct (step_tick a rnd now HI Hp) as (d & _ & Ho & _).
  assert (Hq : checkCollisions (state a) rnd now = []).
  { rewrite checkCollisions_eq, Ht, app_nil_r. apply pickups_none. exact Ht. }
  rewrite Ho, Hq, rerender_nil. split; reflexivity.
Qed.

Lemma fiveCoins_moved_Inv :
  Inv (next (step fiveCoins (MouseMove 500 300 0 0))).
Proof. apply step_Inv, fiveCoins_Inv. Qed.

Lemma frame_without_pickup_is_noop_witness :
  notified (step (next (step fiveCoins (MouseMove 500 300 0 0)))
              (AnimationFrame half 0)) = [].
Proof.
  set (a := next (step fiveCoins (MouseMove 500 300 0 0))).
  assert (Hs : state a =
               mkState playing (withPosition propsPlayer (500 - 0) (300 - 0))
                 (collectibles (state fiveCoins)) 60).
  { unfold a. destruct (step_mouse fiveCoins 500 300 0 0) as [H _].
    rewrite H. unfold handleMouseMove, reduce. simpl.
    rewrite !clamp_inside by lra. reflexivity. }
  apply (frame_without_pickup_is_noop a half 0).
  - apply fiveCoins_moved_Inv.
  - rewrite Hs. reflexivity.
  - unfold takenBy. rewrite Hs.
    set (s := mkState _ _ _ _).
    set (c0 := Collectible.mk "collectible-0" 300 200 coin 10).
    set (far := Collectible.mk "collectible-1" 25 25 coin 10).
    assert (H0 : near s c0 = false) by (apply near_outside; simpl; lra).
    assert (H1 : near s far = false) by (apply near_outside; simpl; lra).
    change (collectibles s) with [c0; far; far; far; far].
    cbn [filter]. rewrite H0, H1. reflexivity.
Defined.

(** X5: a frame of an active round notifies one score per collectible it
    takes, and the last notification carries exactly the score the frame
    commits. *)
Theorem frame_notifies_committed_score (a : Arena) (rnd : nat -> R) (now : Z) :
  Inv a -> gameState (state a) = playing ->
  takenBy (state a) <> [] ->
  let o := step a (AnimationFrame rnd now) in
  List.length (notified o) = List.length (takenBy (state a)) /\
  exists earlier,
    notified o = earlier ++ [onScoreUpdate (scoreOf (next o))].
Proof.
  intros HI Hp Ht o.
  destruct (step_tick a rnd now HI Hp) as (d & _ & Ho & Hs).
  unfold o, scoreOf. rewrite Hs, tick_eq. rewrite Ho. cbn [notified].
  rewrite callbacks_checkCollisions. split; [apply length_map|].
  simpl. rewrite scoreAfter_eq.
  destruct (takenBy (state a)) as [|c cs]; [congruence|].
  destruct (@exists_last _ (c :: cs)) as (l' & z & E); [discriminate|].
  assert (Hz : last cs c = z).
  { rewrite <- (last_cons cs c c), E. apply last_last. }
  rewrite Hz, E, map_app. eexists. reflexivity.
Qed.

Lemma frame_notifies_committed_score_witness :
  exists earlier,
    notified (step started (AnimationFrame half 0)) =
    earlier ++ [onScoreUpdate
                  (scoreOf (next (step started (AnimationFrame half 0))))].
Proof.
  apply (frame_notifies_committed_score started half 0).
  - apply reachable_Inv, started_reachable.
  - apply started_playing.
  - apply started_taken_some.
Defined.

(** ** Countdown and notifications *)

Lemma step_timeout_playing (a : Arena) :
  Inv a -> gameState (state a) = playing -> 1 < timeLeft (state a) ->
  gameState (state (next (step a Timeout))) = playing /\
  timeLeft (state (next (step a Timeout))) = timeLeft (state a) - 1 /\
  currentPlayer (state (next (step a Timeout))) = currentPlayer (state a) /\
  collectibles (state (next (step a Timeout))) = collectibles (state a) /\
  notified (step a Timeout) = [].
Proof.
  intros HI Hp H1. destruct (step_timeout_state a HI Hp) as [Hs Hn].
  destruct (Z.eqb_spec (timeLeft (state a)) 1) as [E|E]; [lia|].
  rewrite Hs, Hn. repeat split.
Qed.

Lemma countdown_from (n : nat) : forall a,
  Inv a -> gameState (state a) = playing ->
  timeLeft (state a) = Z.of_nat (S n) ->
  state (fst (run a (repeat Timeout (S n)))) =
    mkState ended (currentPlayer (state a)) (collectibles (state a)) 0 /\
  snd (run a (repeat Timeout (S n))) = [onGameEnd (scoreOf a)].
Proof.
  induction n as [|n IH]; intros a HI Hp Ht.
  - change (repeat Timeout 1) with [Timeout]. rewrite run_cons. cbn [run fst snd].
    destruct (step_timeout_state a HI Hp) as [Hs Hn].
    rewrite Ht in Hs, Hn. change (Z.of_nat 1 =? 1) with true in Hs, Hn.
    cbv iota in Hs, Hn. rewrite Hs, Hn, app_nil_r. split; reflexivity.
  - change (repeat Timeout (S (S n))) with (Timeout :: repeat Timeout (S n)).
    rewrite run_cons. cbn [fst snd].
    destruct (step_timeout_playing a HI Hp) as (Hg & Hl & Hc & Hcs & Hn); [lia|].
    destruct (IH (next (step a Timeout))) as [Hs Ho].
    + apply step_Inv. assumption.
    + assumption.
    + lia.
    + rewrite Hs, Ho, Hn, Hc, Hcs. unfold scoreOf. rewrite Hc.
      split; reflexivity.
Qed.

(** X6: an active round left to its timeouts ends after exactly as many
    of them as the countdown shows: the state is then ended with the
    countdown at 0, player and collectibles untouched, and the whole run
    sends exactly one notification, the round end with the score. *)
Theorem countdown_runs_out (a : Arena) :
  Inv a -> gameState (state a) = playing ->
  let r := run a (repeat Timeout (Z.to_nat (timeLeft (state a)))) in
  state (fst r) =
    mkState ended (currentPlayer (state a)) (collectibles (state a)) 0 /\
  snd r = [onGameEnd (scoreOf a)].
Proof.
  intros HI Hp r.
  pose proof (inv_timer a HI) as Ht. unfold TimerOK in Ht. rewrite Hp in Ht.
  destruct Ht as [Hpos _].
  destruct (Z.to_nat (timeLeft (state a))) as [|n] eqn:E; [lia|].
  unfold r. apply countdown_from; [assumption | assumption | lia].
Qed.

Lemma countdown_runs_out_witness :
  snd (run started (repeat Timeout 60)) = [onGameEnd 0].
Proof.
  destruct (countdown_runs_out started
              (reachable_Inv _ started_reachable) started_playing) as [_ H].
  rewrite started_state in H. exact H.
Defined.

(** X7: the two notifications have one source each.  A round end is sent
    only by the timeout that fires with the countdown at 1, and carries the
    score; a score update is sent only by a frame of an active round, for a
    collectible within 20 of the player, and carries the score the frame
    started with plus that collectible's value. *)
Theorem notification_sources (a : Arena) (e : Event) (n : Z) :
  Inv a ->
  (In (onGameEnd n) (notified (step a e)) ->
     e = Timeout /\ gameState (state a) = playing /\
     timeLeft (state a) = 1 /\ n = scoreOf a) /\
  (In (onScoreUpdate n) (notified (step a e)) ->
     (exists rnd now, e = AnimationFrame rnd now) /\
     gameState (state a) = playing /\
     exists c, In c (collectibles (state a)) /\
       (distance (currentPlayer (state a)) c < 20)%R /\
       n = scoreOf a + Collectible.value c).
Proof.
  intros HI.
  assert (Hidle : gameState (state a) <> playing -> isClick e = false ->
                  notified (step a e) = []).
  { intros Hp He. rewrite idle_step by assumption. reflexivity. }
  destruct e as [rnd | cx cy l t | rnd now | ].
  - destruct (step_click a rnd) as [_ H]. rewrite H. split; intros [].
  - destruct (step_mouse a cx cy l t) as [_ H]. rewrite H. split; intros [].
  - destruct (gameState (state a)) eqn:Eg;
      try (rewrite Hidle by (congruence || reflexivity); split; intros []).
    destruct (step_tick a rnd now HI Eg) as (d & _ & Ho & _).
    rewrite Ho. cbn [notified]. rewrite callbacks_checkCollisions.
    split; intros H; apply in_map_iff in H as (c & Hc & Hin); [discriminate|].
    injection Hc as <-. unfold takenBy in Hin.
    apply filter_In in Hin as [Hin Hn]. unfold near in Hn.
    apply js_lt_true in Hn.
    split; [eauto|]. split; [reflexivity|]. exists c. repeat split; assumption.
  - destruct (gameState (state a)) eqn:Eg;
      try (rewrite Hidle by (congruence || reflexivity); split; intros []).
    destruct (step_timeout_state a HI Eg) as [_ Hn]. rewrite Hn.
    destruct (Z.eqb_spec (timeLeft (state a)) 1) as [E|E].
    + split; intros [H|[]]; [|discriminate].
      injection H as <-. repeat split; assumption.
    + split; intros [].
Qed.

Lemma notification_sources_witness :
  In (onGameEnd 0) (notified (step lastSecond Timeout)) /\
  timeLeft (state lastSecond) = 1.
Proof.
  assert (H : In (onGameEnd 0) (notified (step lastSecond Timeout)))
    by (left; reflexivity).
  split; [exact H|].
  destruct (notification_sources lastSecond Timeout 0 lastSecond_Inv) as [H1 _].
  apply H1 in H. apply H.
Defined.

(** X8: in every state the component can reach, a frame and a timeout are
    pending exactly while the round is playing; the frame's closure holds
    the committed game state, player and collectibles, the timeout's the
    committed countdown, which is then positive. *)
Theorem pending_callbacks_match_round (a : Arena) :
  reachable a ->
  match gameState (state a) with
  | playing =>
      0 < timeLeft (state a) /\
      (exists c, frame a = Some c /\ gameState c = playing /\
                 currentPlayer c = currentPlayer (state a) /\
                 collectibles c = collectibles (state a)) /\
      (exists c, timer a = Some c /\ timeLeft c = timeLeft (state a))
  | _ => frame a = None /\ timer a = None
  end.
Proof.
  intros Hr. destruct (reachable_Inv a Hr) as [_ _ Hf Ht].
  unfold FrameOK in Hf. unfold TimerOK in Ht.
  destruct (gameState (state a)) eqn:Eg; try (split; assumption).
  destruct Hf as (c & Hc & Hg & Hp & Hcs). destruct Ht as (Hpos & Htm).
  split; [assumption|]. split; [|assumption].
  exists c. repeat split; congruence.
Qed.

Lemma pending_callbacks_match_round_witness :
  frame mounted = None /\ timer mounted = None.
Proof.
  pose proof (pending_callbacks_match_round mounted) as H.
  destruct (mount_state propsPlayer (Some freshCanvas) half) as (Hg & _ & _).
  fold mounted in Hg. rewrite Hg in H. apply H.
  unfold mounted. apply reach_mount.
Defined.

(** ** Score arithmetic *)

Lemma tenfold_add (z v : Z) : tenfold z -> v = 10 \/ v = 50 -> tenfold (z + v).
Proof.
  intros [Hz [k Hk]] [-> | ->]; split; try lia.
  - exists (k + 1). lia.
  - exists (k + 5). lia.
Qed.

Lemma step_tenfold (a : Arena) (e : Event) :
  Inv a -> tenfold (scoreOf a) -> tenfold (scoreOf (next (step a e))).
Proof.
  intros HI Ht. unfold scoreOf in *.
  destruct e as [rnd | cx cy l t | rnd now | ].
  - destruct (step_click a rnd) as [H _]. rewrite H. simpl.
    split; [lia | exists 0; lia].
  - destruct (step_mouse a cx cy l t) as [H _]. rewrite H.
    destruct (reduce_handleMouseMove (canvasRef a) (state a) cx cy l t)
      as (_ & _ & _ & Hs).
    rewrite Hs. assumption.
  - destruct (gameState (state a)) eqn:Eg;
      try (rewrite step_idle_frame by (auto; congruence); assumption).
    destruct (step_tick a rnd now HI Eg) as (d & _ & _ & H).
    rewrite H, tick_eq. simpl. rewrite scoreAfter_eq.
    pose proof (takenBy_values _ (inv_values a HI)) as Hv.
    destruct (takenBy (state a)) as [|c cs]; [assumption|].
    rewrite Forall_forall in Hv.
    apply tenfold_add; [assumption | apply (Hv _ (last_In cs c))].
  - destruct (gameState (state a)) eqn:Eg;
      try (rewrite step_idle_timeout by (auto; congruence); assumption).
    destruct (step_timeout_state a HI Eg) as [H _]. rewrite H. assumption.
Qed.

Lemma run_tenfold (es : list Event) : forall a,
  Inv a -> tenfold (scoreOf a) -> tenfold (scoreOf (fst (run a es))).
Proof.
  induction es as [|e es IH]; intros a HI Ht; [assumption|].
  rewrite run_cons. cbn [fst]. apply IH.
  - apply step_Inv. assumption.
  - apply step_tenfold; assumption.
Qed.

(** X9: once start has been pressed the score is a non-negative multiple
    of 10, whatever events follow and whatever score the player prop
    brought in. *)
Theorem score_multiple_of_ten (a : Arena) (rnd : nat -> R) (es : list Event) :
  Inv a ->
  let s := scoreOf (fst (run (next (step a (Click rnd))) es)) in
  0 <= s /\ (10 | s).
Proof.
  intros HI. apply run_tenfold.
  - apply step_Inv. assumption.
  - unfold scoreOf. destruct (step_click a rnd) as [H _]. rewrite H. simpl.
    split; [lia | exists 0; lia].
Qed.

Lemma score_multiple_of_ten_witness :
  (10 | scoreOf (fst (run (next (step mounted (Click half)))
                        [AnimationFrame half 0; Timeout]))).
Proof.
  apply (score_multiple_of_ten mounted half [AnimationFrame half 0; Timeout]).
  apply mount_Inv.
Defined.

(** ** Mounting *)

(** X10: mounting never starts a round.  The component waits with the
    player of its prop and 60 seconds, no frame and no timeout pending; it
    holds the ten spawned collectibles and a 600 x 400 canvas exactly when
    the canvas and its 2D context exist, and no collectible otherwise.
    Until a start is pressed no sequence of pointer moves, frames and
    timeouts changes or notifies anything. *)
Theorem mount_waits (player : Player.t) (canvas : option Canvas) (rnd : nat -> R) :
  let a := mount player canvas rnd in
  state a =
    mkState waiting player
      (if surfaceAvailable canvas then spawnLoop 10 0 rnd [] else []) 60 /\
  canvasRef a =
    match canvas with
    | Some cv => Some (if has2d cv then mkCanvas 600 400 true else cv)
    | None => None
    end /\
  frame a = None /\ timer a = None /\
  forall es,
    forallb (fun e => negb (isClick e)) es = true -> run a es = (a, []).
Proof.
  intros a.
  assert (H : state a =
              mkState waiting player
                (if surfaceAvailable canvas then spawnLoop 10 0 rnd [] else []) 60 /\
              canvasRef a =
                match canvas with
                | Some cv => Some (if has2d cv then mkCanvas 600 400 true else cv)
                | None => None
                end /\
              frame a = None /\ timer a = None).
  { unfold a, mount, getContext. destruct canvas as [cv|]; [|repeat split].
    simpl surfaceAvailable. destruct (has2d cv) eqn:E; repeat split. }
  destruct H as (Hs & Hc & Hf & Ht). repeat split; try assumption.
  intros es Hes. apply idle_run.
  - apply mount_Inv.
  - fold a. rewrite Hs. discriminate.
  - assumption.
Qed.

(** ** Rendering *)

Lemma flat_map_map {A B C : Type} (f : A -> B) (g : B -> list C) (l : list A) :
  flat_map (fun x => g (f x)) l = flat_map g (map f l).
Proof.
  induction l as [|x l IH]; [reflexivity|]. simpl. rewrite IH. reflexivity.
Qed.

Lemma gridStops_In (bound i : Z) :
  In i (gridStops bound) <-> 0 <= i < bound /\ (50 | i).
Proof.
  unfold gridStops. rewrite in_map_iff. split.
  - intros (k & <- & Hk). apply in_seq in Hk. simpl in Hk.
    assert (Hq : Z.of_nat k < (bound + 49) / 50) by lia.
    pose proof (Z.mul_div_le (bound + 49) 50 ltac:(lia)) as Hd.
    split; [lia|]. exists (Z.of_nat k). lia.
  - intros [[H0 Hb] [q Hq]]. exists (Z.to_nat q).
    assert (Hq0 : 0 <= q) by lia.
    split; [lia|]. apply in_seq. simpl.
    assert (Hle : q + 1 <= (bound + 49) / 50)
      by (apply Z.div_le_lower_bound; lia).
    lia.
Qed.

(** X11: the grid loops of [render], [for (let i = 0; i < bound; i += 50)],
    run their body once for each multiple of 50 from 0 up to but excluding
    the bound, in increasing order, and not at all when the bound is not
    positive. *)
Theorem grid_loop_stops (bound : Z) (body : Z -> list DrawCmd) :
  forStep50 bound body = flat_map body (gridStops bound) /\
  (forall i, In i (gridStops bound) <-> 0 <= i < bound /\ (50 | i)) /\
  (forall j k x y,
     nth_error (gridStops bound) j = Some x ->
     nth_error (gridStops bound) k = Some y ->
     (j < k)%nat -> x < y) /\
  (bound <= 0 -> forStep50 bound body = []).
Proof.
  split; [|split; [|split]].
  - unfold forStep50, gridStops. apply flat_map_map.
  - intros i. apply gridStops_In.
  - unfold gridStops. intros j k x y Hj Hk Hlt.
    rewrite nth_error_map in Hj, Hk.
    destruct (nth_error (seq 0 _) j) as [a|] eqn:Ea; [|discriminate].
    destruct (nth_error (seq 0 _) k) as [b|] eqn:Eb; [|discriminate].
    cbn [option_map] in Hj, Hk. injection Hj as <-. injection Hk as <-.
    assert (Hja : a = j).
    { pose proof (nth_error_Some (seq 0 (Z.to_nat ((bound + 49) / 50))) j) as L.
      rewrite Ea in L. rewrite length_seq in L.
      rewrite nth_error_nth' with (d := 0%nat) in Ea
        by (rewrite length_seq; apply L; discriminate).
      rewrite seq_nth in Ea by (apply L; discriminate).
      injection Ea as <-. reflexivity. }
    assert (Hkb : b = k).
    { pose proof (nth_error_Some (seq 0 (Z.to_nat ((bound + 49) / 50))) k) as L.
      rewrite Eb in L. rewrite length_seq in L.
      rewrite nth_error_nth' with (d := 0%nat) in Eb
        by (rewrite length_seq; apply L; discriminate).
      rewrite seq_nth in Eb by (apply L; discriminate).
      injection Eb as <-. reflexivity. }
    change (50 * Z.of_nat a < 50 * Z.of_nat b). lia.
  - intros Hb. unfold forStep50.
    assert (E : (bound + 49) / 50 <= 0).
    { assert ((bound + 49) / 50 < 1); [|lia].
      apply Z.div_lt_upper_bound; lia. }
    replace (Z.to_nat ((bound + 49) / 50)) with 0%nat by lia. reflexivity.
Qed.

Lemma filter_isArc_flat_map {A : Type} (body : A -> list DrawCmd) (l : list A) :
  (forall x, filter isArc (body x) = []) ->
  filter isArc (flat_map body l) = [].
Proof.
  intros H. induction l as [|x l IH]; [reflexivity|].
  simpl. rewrite filter_app, H, IH. reflexivity.
Qed.

Lemma filter_isArc_collectibles (cs : list Collectible.t) :
  filter isArc (flat_map drawCollectible cs) =
  map (fun c => arc (Collectible.x c) (Collectible.y c) 8 0 (PI * 2)) cs.
Proof.
  induction cs as [|c cs IH]; [reflexivity|].
  simpl. rewrite IH. reflexivity.
Qed.

(** X12: with a canvas and its context, [render] draws one circle of
    radius 8 at each collectible, in list order, then one circle of radius
    15 at the player, and no other arc. *)
Theorem render_circles (cv : Canvas) (s : State) :
  has2d cv = true ->
  exists d,
    render (Some cv) s = Normal d /\
    filter isArc d =
      map (fun c => arc (Collectible.x c) (Collectible.y c) 8 0 (PI * 2))
        (collectibles s)
      ++ [arc (Player.x (currentPlayer s)) (Player.y (currentPlayer s))
            15 0 (PI * 2)].
Proof.
  intros H. exists (paint cv s). split; [apply render_available; assumption|].
  unfold paint, forStep50. rewrite !filter_app.
  rewrite !(filter_isArc_flat_map _ (seq 0 _)) by reflexivity.
  rewrite filter_isArc_collectibles. reflexivity.
Qed.

Lemma render_circles_witness :
  exists d,
    render (Some (mkCanvas 600 400 true)) (state lastSecond) = Normal d /\
    filter isArc d = [arc 300 200 15 0 (PI * 2)].
Proof.
  destruct (render_circles (mkCanvas 600 400 true) (state lastSecond))
    as (d & H1 & H2).
  - reflexivity.
  - exists d. split; assumption.
Defined.

(** * Properties of the page *)

(** ** Strings and floors *)

Lemma length_append (s1 s2 : string) :
  String.length (s1 ++ s2) = (String.length s1 + String.length s2)%nat.
Proof.
  induction s1 as [|c s1 IH]; [reflexivity|]. simpl. rewrite IH. reflexivity.
Qed.

Lemma length_substring (n m : nat) (s : string) :
  (String.length (substring n m s) <= m)%nat.
Proof.
  revert n m. induction s as [|c s IH]; intros n m.
  - destruct n, m; simpl; lia.
  - destruct n as [|n].
    + destruct m as [|m]; simpl; [lia|]. specialize (IH 0%nat m). lia.
    + simpl. apply IH.
Qed.

Lemma length_repeatString_char (c : Ascii.ascii) (n : nat) :
  String.length (repeatString (String c "") n) = n.
Proof. induction n as [|n IH]; [reflexivity|]. simpl. rewrite IH. reflexivity. Qed.

(** [Math.floor(r * n)] for a draw [r] and a positive integer [n]. *)
Lemma floor_draw (r : R) (n : Z) :
  (0 <= r < 1)%R -> 0 < n -> 0 <= Zfloor (r * IZR n) < n.
Proof.
  intros Hr Hn. pose proof (Zfloor_bound (r * IZR n)) as Hb.
  assert (Hn' : (0 < IZR n)%R) by (apply IZR_lt; assumption).
  split.
  - apply (Zfloor_lub 0). simpl. nra.
  - apply lt_IZR. nra.
Qed.

(** ** Transactions *)

Lemma createTransaction_normal
    (toString36 : R -> string) (h : Host) (type : TxType) (details : string)
    (options : Partial.t) :
  createTransaction toString36 h type details options =
  Normal (spread
    (Transaction.mk
       ("tx-" ++ showZ (now h 0%nat)) type pending
       ("0x" ++ baseHashOf toString36 h
        ++ repeatString "0"
             (64 - String.length (baseHashOf toString36 h)))
       None None None None
       (Some (Zfloor (random h 1%nat * 100000) + 21000))
       (now h 1%nat)
       (Some (Zfloor (random h 2%nat * 1000000) + 18000000))
       details)
    options).
Proof.
  unfold createTransaction, js_repeat. fold (baseHashOf toString36 h).
  pose proof (length_substring 2 13 (toString36 (random h 0%nat))) as Hl.
  fold (baseHashOf toString36 h) in Hl.
  destruct (Z.ltb_spec (64 - Z.of_nat (String.length (baseHashOf toString36 h))) 0)
    as [C|C]; [lia|].
  cbn [bind].
  replace (Z.to_nat (64 - Z.of_nat (String.length (baseHashOf toString36 h))))
    with (64 - String.length (baseHashOf toString36 h))%nat by lia.
  reflexivity.
Qed.

Lemma baseHash_length (toString36 : R -> string) (h : Host) :
  (String.length (baseHashOf toString36 h) <= 13)%nat.
Proof. apply length_substring. Qed.

(** X13: [createTransaction] never throws, whatever the draws, the clock
    and the text of the draw.  Without a hash in the options the hash is
    [0x] followed by 64 characters, 66 in all; without a status the
    transaction is pending; type and details are the arguments unless the
    options override them, and amount, currency, sender and receiver are
    exactly those of the options. *)
Theorem createTransaction_never_throws
    (toString36 : R -> string) (h : Host) (type : TxType) (details : string)
    (options : Partial.t) :
  exists tx,
    createTransaction toString36 h type details options = Normal tx /\
    (Partial.hash options = None ->
       String.length (Transaction.hash tx) = 66%nat /\
       substring 0 2 (Transaction.hash tx) = "0x"%string) /\
    Transaction.status tx = over pending (Partial.status options) /\
    Transaction.type tx = over type (Partial.type options) /\
    Transaction.details tx = over details (Partial.details options) /\
    Transaction.amount tx = Partial.amount options /\
    Transaction.currency tx = Partial.currency options /\
    Transaction.from tx = Partial.from options /\
    Transaction.to tx = Partial.to options.
Proof.
  rewrite createTransaction_normal. eexists. split; [reflexivity|].
  pose proof (baseHash_length toString36 h) as Hl.
  destruct options as [oi oty ost oh ofr oto oam ocu og ots ob od].
  unfold spread.
  cbn [Transaction.hash Transaction.status Transaction.type Transaction.details
       Transaction.amount Transaction.currency Transaction.from Transaction.to
       Partial.hash Partial.status Partial.type Partial.details Partial.amount
       Partial.currency Partial.from Partial.to over overOpt].
  split; [|repeat split;
           first [ destruct oam; reflexivity | destruct ocu; reflexivity
                 | destruct ofr; reflexivity | destruct oto; reflexivity ]].
  intros ->. cbn [over]. split.
  - rewrite !length_append, length_repeatString_char. simpl String.length. lia.
  - cbn [append substring]. destruct (_ ++ _)%string; reflexivity.
Qed.

(** X14: with draws in [0, 1) and no gas or block number in the options,
    the gas used lies in [21000, 121000) and the block number in
    [18000000, 19000000). *)
Theorem createTransaction_ranges
    (toString36 : R -> string) (h : Host) (type : TxType) (details : string)
    (options : Partial.t) :
  validHost h ->
  Partial.gasUsed options = None -> Partial.blockNumber options = None ->
  exists tx g b,
    createTransaction toString36 h type details options = Normal tx /\
    Transaction.gasUsed tx = Some g /\ 21000 <= g < 121000 /\
    Transaction.blockNumber tx = Some b /\ 18000000 <= b < 19000000.
Proof.
  intros Hv Hg Hb. rewrite createTransaction_normal.
  destruct options as [oi oty ost oh ofr oto oam ocu og ots ob od].
  simpl in Hg, Hb. subst og ob.
  do 3 eexists. split; [reflexivity|]. unfold spread. simpl.
  pose proof (floor_draw (random h 1%nat) 100000 (Hv 1%nat) ltac:(lia)).
  pose proof (floor_draw (random h 2%nat) 1000000 (Hv 2%nat) ltac:(lia)).
  split; [reflexivity|]. split; [lia|]. split; [reflexivity | lia].
Qed.

Lemma halfHost_valid : validHost halfHost.
Proof. exact half_valid. Qed.

Lemma createTransaction_ranges_witness :
  exists tx g b,
    createTransaction halfText halfHost mint "Minted" noOptions = Normal tx /\
    Transaction.gasUsed tx = Some g /\ 21000 <= g < 121000 /\
    Transaction.blockNumber tx = Some b /\ 18000000 <= b < 19000000.
Proof.
  apply (createTransaction_ranges halfText halfHost mint "Minted" noOptions).
  - apply halfHost_valid.
  - reflexivity.
  - reflexivity.
Defined.

(** ** Round end on the page *)



(** X16: when the oldest pending confirmation fires, the modal is open on
    that transaction marked confirmed, with a fresh block number and every
    other property (id, type, hash, sender, receiver, amount, currency,
    gas, timestamp and details) as it was shown, whatever the modal held
    before, closed or showing another transaction; one toast naming the
    transaction's details is added and the remaining confirmations stay
    pending in order.  Characters, score and earnings are untouched.  With
    draws in [0, 1) the block number lies in [18000000, 19000000). *)
Theorem confirmation_shows_confirmed
    (h : Host) (page : Index.t) (tx : Transaction.t) (rest : list Transaction.t) :
  validHost h ->
  Index.confirmations page = tx :: rest ->
  let page' := Index.confirmationDue page h in
  exists b,
    18000000 <= b < 19000000 /\
    Index.transactionModal page' =
      Index.mkModal true
        (Some (Transaction.mk
                 (Transaction.id tx) (Transaction.type tx) confirmed
                 (Transaction.hash tx) (Transaction.from tx) (Transaction.to tx)
                 (Transaction.amount tx) (Transaction.currency tx)
                 (Transaction.gasUsed tx) (Transaction.timestamp tx)
                 (Some b) (Transaction.details tx))) /\
    Index.confirmations page' = rest /\
    Index.toasts page' =
      Index.toasts page ++
      [mkToast "✅ Transaction Confirmed"
         (Transaction.details tx ++ " - View on Endless Explorer") None] /\
    Index.playerCharacter page' = Index.playerCharacter page /\
    Index.playerCollection page' = Index.playerCollection page /\
    Index.totalEarnings page' = Index.totalEarnings page /\
    Index.currentScore page' = Index.currentScore page.
Proof.
  intros Hv Hc page'. unfold page', Index.confirmationDue. rewrite Hc.
  eexists. cbn [Index.transactionModal Index.confirmations Index.toasts
                Index.totalEarnings Index.currentScore Index.playerCharacter
                Index.playerCollection].
  pose proof (floor_draw (random h 0%nat) 1000000 (Hv 0%nat) ltac:(lia)).
  split; [|repeat split]. lia.
Qed.

Lemma confirmation_shows_confirmed_witness :
  exists shown,
    Index.transactionModal
      (Index.confirmationDue
         (Index.closeTransactionModal (Index.showTransaction freshPage demoTx))
         halfHost)
    = Index.mkModal true (Some shown) /\
    Transaction.status shown = confirmed.
Proof.
  destruct (confirmation_shows_confirmed halfHost
              (Index.closeTransactionModal (Index.showTransaction freshPage demoTx))
              demoTx [] halfHost_valid)
    as (b & _ & H1 & _).
  - reflexivity.
  - eexists. split; [exact H1 | reflexivity].
Defined.

(** ** The arena's notifications on the page *)

Lemma deliverAll_scores (toString36 : R -> string) (zs : list Z) :
  forall hosts page,
    Index.deliverAll toString36 hosts page (map onScoreUpdate zs) =
    Normal (match zs with
            | [] => page
            | z :: zs' => Index.handleScoreUpdate page (last zs' z)
            end).
Proof.
  induction zs as [|z zs IH]; intros hosts page; [reflexivity|].
  simpl. rewrite IH. destruct zs as [|z' zs]; [reflexivity|].
  rewrite last_cons. reflexivity.
Qed.

Lemma last_map_cons {A B : Type} (f : A -> B) (cs : list A) : forall c,
  last (map f cs) (f c) = f (last cs c).
Proof.
  induction cs as [|d cs IH]; intros c; [reflexivity|].
  cbn [map]. rewrite !last_cons. apply IH.
Qed.

(** X17: delivered to the page, the notifications of a frame that takes a
    collectible leave the page's current score equal to the score the arena
    committed, and nothing else of the page changed. *)
Theorem page_score_follows_frame
    (toString36 : R -> string) (hosts : nat -> Host) (page : Index.t)
    (a : Arena) (rnd : nat -> R) (now : Z) :
  Inv a -> gameState (state a) = playing ->
  takenBy (state a) <> [] ->
  let o := step a (AnimationFrame rnd now) in
  Index.deliverAll toString36 hosts page (notified o) =
  Normal (Index.handleScoreUpdate page (scoreOf (next o))).
Proof.
  intros HI Hp Ht o.
  destruct (step_tick a rnd now HI Hp) as (d & _ & Ho & Hs).
  unfold o, scoreOf. rewrite Hs, tick_eq, Ho. cbn [notified].
  rewrite callbacks_checkCollisions.
  rewrite <- (map_map
                (fun c => Player.score (currentPlayer (state a)) + Collectible.value c)
                onScoreUpdate).
  rewrite deliverAll_scores. simpl. rewrite scoreAfter_eq.
  destruct (takenBy (state a)) as [|c cs]; [congruence|].
  cbn [map].
  rewrite (last_map_cons
             (fun c => Player.score (currentPlayer (state a)) + Collectible.value c)).
  reflexivity.
Qed.

Lemma page_score_follows_frame_witness :
  Index.deliverAll halfText (fun _ => halfHost) freshPage
    (notified (step started (AnimationFrame half 0))) =
  Normal (Index.handleScoreUpdate freshPage
            (scoreOf (next (step started (AnimationFrame half 0))))).
Proof.
  apply (page_score_follows_frame halfText (fun _ => halfHost) freshPage
           started half 0).
  - apply reachable_Inv, started_reachable.
  - apply started_playing.
  - apply started_taken_some.
Defined.

(** X18: an active round left to its timeouts reaches the page as exactly
    one call of its round-end handler, with the arena's score. *)
Theorem round_end_reaches_page
    (toString36 : R -> string) (hosts : nat -> Host) (page : Index.t) (a : Arena) :
  Inv a -> gameState (state a) = playing ->
  Index.deliverAll toString36 hosts page
    (snd (run a (repeat Timeout (Z.to_nat (timeLeft (state a)))))) =
  Index.handleGameEnd toString36 (hosts 0%nat) page (scoreOf a).
Proof.
  intros HI Hp.
  pose proof (inv_timer a HI) as Ht. unfold TimerOK in Ht. rewrite Hp in Ht.
  destruct Ht as [Hpos _].
  destruct (Z.to_nat (timeLeft (state a))) as [|n] eqn:E; [lia|].
  destruct (countdown_from n a HI Hp) as [_ Hn]; [lia|].
  rewrite Hn. simpl.
  destruct (Index.handleGameEnd toString36 (hosts 0%nat) page (scoreOf a));
    reflexivity.
Qed.

Lemma round_end_reaches_page_witness :
  Index.deliverAll halfText (fun _ => halfHost) freshPage
    (snd (run started (repeat Timeout (Z.to_nat (timeLeft (state started)))))) =
  Index.handleGameEnd halfText halfHost freshPage (scoreOf started).
Proof.
  apply (round_end_reaches_page halfText (fun _ => halfHost) freshPage started).
  - apply reachable_Inv, started_reachable.
  - apply started_playing.
Defined.

(** X19: start tells the page nothing.  The arena's score becomes 0, no
    notification is sent, and the page keeps the current score it had. *)
Theorem start_is_silent
    (toString36 : R -> string) (hosts : nat -> Host) (page : Index.t)
    (a : Arena) (rnd : nat -> R) :
  scoreOf (next (step a (Click rnd))) = 0 /\
  notified (step a (Click rnd)) = [] /\
  Index.deliverAll toString36 hosts page (notified (step a (Click rnd))) =
    Normal page.
Proof.
  destruct (step_click a rnd) as [Hs Hn]. unfold scoreOf.
  rewrite Hs, Hn. repeat split.
Qed.

(** ** Upgrades *)

Lemma nth_error_map_if {A : Type} (f : A -> A) (l : list A) (i : nat) (c : A) :
  nth_error l i = Some c -> nth_error (map f l) i = Some (f c).
Proof. intros H. rewrite nth_error_map, H. reflexivity. Qed.

(** X20: upgrading a character id that is not in the collection leaves
    the page exactly as it was.  For an id that is, the handler never
    throws: the collection keeps its length and order, every character
    with another id is untouched, every character with that id becomes the
    upgraded copy of the first of them, the selected character is replaced
    exactly when it has that id, the modal opens on a pending upgrade
    transaction of 0.1 ETH with its confirmation queued, and score and
    earnings stay. *)
Theorem handleUpgradeNFT_effect
    (toString36 : R -> string) (h : Host) (page : Index.t) (characterId : string) :
  (Index.findCharacter (Index.playerCollection page) characterId = None ->
     Index.handleUpgradeNFT toString36 h page characterId = Normal page) /\
  (forall character,
     Index.findCharacter (Index.playerCollection page) characterId = Some character ->
     exists page' tx,
       Index.handleUpgradeNFT toString36 h page characterId = Normal page' /\
       List.length (Index.playerCollection page') =
         List.length (Index.playerCollection page) /\
       (forall i c,
          nth_error (Index.playerCollection page) i = Some c ->
          nth_error (Index.playerCollection page') i =
            Some (if (NFTCharacterData.id c =? characterId)%string
                  then Index.upgraded character else c)) /\
       Index.playerCharacter page' =
         match Index.playerCharacter page with
         | Some pc =>
             if (NFTCharacterData.id pc =? characterId)%string
             then Some (Index.upgraded character) else Some pc
         | None => None
         end /\
       Index.transactionModal page' = Index.mkModal true (Some tx) /\
       Transaction.type tx = upgrade /\ Transaction.status tx = pending /\
       Transaction.amount tx = Some (1 / 10)%R /\
       Transaction.currency tx = Some "ETH"%string /\
       Index.confirmations page' = Index.confirmations page ++ [tx] /\
       Index.currentScore page' = Index.currentScore page /\
       Index.totalEarnings page' = Index.totalEarnings page).
Proof.
  unfold Index.handleUpgradeNFT. split.
  - intros ->. reflexivity.
  - intros character ->. rewrite createTransaction_normal. cbn [bind].
    do 2 eexists. split; [reflexivity|].
    cbn [Index.playerCollection Index.playerCharacter Index.transactionModal
         Index.confirmations Index.currentScore Index.totalEarnings
         Index.showTransaction].
    split; [apply length_map|].
    split.
    { intros i c Hc.
      apply (nth_error_map_if
               (fun c => if (NFTCharacterData.id c =? characterId)%string
                         then Index.upgraded character else c)).
      assumption. }
    repeat split.
Qed.

Lemma rookie_found :
  Index.findCharacter (Index.playerCollection freshPage) "starter-001" = Some rookie.
Proof. reflexivity. Qed.

Lemma handleUpgradeNFT_effect_witness :
  exists page',
    Index.handleUpgradeNFT halfText halfHost freshPage "starter-001" = Normal page' /\
    Index.playerCharacter page' = Some (Index.upgraded rookie).
Proof.
  destruct (handleUpgradeNFT_effect halfText halfHost freshPage "starter-001")
    as [_ H].
  destruct (H rookie rookie_found) as (page' & tx & H1 & _ & _ & H2 & _).
  exists page'. split; [exact H1 | exact H2].
Defined.

Lemma iter_upgraded (n : nat) (c : NFTCharacterData.t) :
  let u := Nat.iter n Index.upgraded c in
  NFTCharacterData.level u = NFTCharacterData.level c + Z.of_nat n /\
  (NFTCharacterData.power c <= 100 ->
     NFTCharacterData.power u =
       Z.min 100 (NFTCharacterData.power c + 5 * Z.of_nat n)) /\
  (NFTCharacterData.defense c <= 100 ->
     NFTCharacterData.defense u =
       Z.min 100 (NFTCharacterData.defense c + 5 * Z.of_nat n)) /\
  (NFTCharacterData.speed c <= 100 ->
     NFTCharacterData.speed u =
       Z.min 100 (NFTCharacterData.speed c + 5 * Z.of_nat n)) /\
  NFTCharacterData.id u = NFTCharacterData.id c /\
  NFTCharacterData.name u = NFTCharacterData.name c /\
  NFTCharacterData.rarity u = NFTCharacterData.rarity c /\
  NFTCharacterData.wins u = NFTCharacterData.wins c /\
  NFTCharacterData.totalGames u = NFTCharacterData.totalGames c.
Proof.
  induction n as [|n IH].
  - simpl. repeat split; lia.
  - cbv zeta in *. rewrite Nat.iter_succ.
    destruct IH as (Hl & Hp & Hd & Hs & Hi & Hn & Hr & Hw & Ht).
    unfold Index.upgraded at 1 3 5 7 9 11 13 15 17.
    cbn [NFTCharacterData.level NFTCharacterData.power NFTCharacterData.defense
         NFTCharacterData.speed NFTCharacterData.id NFTCharacterData.name
         NFTCharacterData.rarity NFTCharacterData.wins NFTCharacterData.totalGames].
    repeat split; try assumption; try lia;
      intros H; first [rewrite (Hp H) | rewrite (Hd H) | rewrite (Hs H)]; lia.
Qed.

(** X21: [n] upgrades of a character whose power, defense and speed are
    at most 100 raise its level by [n] and each of the three by [5 n],
    capped at 100; id, name, rarity, wins and games are untouched.  A
    single upgrade never leaves a stat above 100. *)
Theorem upgrades_accumulate (n : nat) (c : NFTCharacterData.t) :
  NFTCharacterData.power c <= 100 ->
  NFTCharacterData.defense c <= 100 ->
  NFTCharacterData.speed c <= 100 ->
  let u := Nat.iter n Index.upgraded c in
  NFTCharacterData.level u = NFTCharacterData.level c + Z.of_nat n /\
  NFTCharacterData.power u = Z.min 100 (NFTCharacterData.power c + 5 * Z.of_nat n) /\
  NFTCharacterData.defense u = Z.min 100 (NFTCharacterData.defense c + 5 * Z.of_nat n) /\
  NFTCharacterData.speed u = Z.min 100 (NFTCharacterData.speed c + 5 * Z.of_nat n) /\
  NFTCharacterData.id u = NFTCharacterData.id c /\
  NFTCharacterData.name u = NFTCharacterData.name c /\
  NFTCharacterData.rarity u = NFTCharacterData.rarity c /\
  NFTCharacterData.wins u = NFTCharacterData.wins c /\
  NFTCharacterData.totalGames u = NFTCharacterData.totalGames c /\
  (forall d,
     NFTCharacterData.power (Index.upgraded d) <= 100 /\
     NFTCharacterData.defense (Index.upgraded d) <= 100 /\
     NFTCharacterData.speed (Index.upgraded d) <= 100).
Proof.
  intros Hp Hd Hs u.
  destruct (iter_upgraded n c) as (H1 & H2 & H3 & H4 & H5 & H6 & H7 & H8 & H9).
  fold u in H1, H2, H3, H4, H5, H6, H7, H8, H9.
  repeat split; auto; simpl; lia.
Qed.

Lemma upgrades_accumulate_witness :
  NFTCharacterData.speed (Nat.iter 3 Index.upgraded rookie) = 100 /\
  NFTCharacterData.power (Nat.iter 3 Index.upgraded rookie) = 55.
Proof.
  assert (Hp : NFTCharacterData.power rookie <= 100) by (simpl; lia).
  assert (Hd : NFTCharacterData.defense rookie <= 100) by (simpl; lia).
  assert (Hs : NFTCharacterData.speed rookie <= 100) by (simpl; lia).
  destruct (upgrades_accumulate 3 rookie Hp Hd Hs) as (_ & H1 & _ & H2 & _).
  split; [rewrite H2 | rewrite H1]; reflexivity.
Defined.

(** ** Generated characters *)

Lemma at_draw {A : Type} (l : list A) (r : R) :
  (0 <= r < 1)%R -> l <> [] ->
  exists x, at_ l (Zfloor (r * IZR (Z.of_nat (List.length l)))) = Some x /\ In x l.
Proof.
  intros Hr Hl.
  assert (Hn : 0 < Z.of_nat (List.length l)) by (destruct l; [congruence | simpl; lia]).
  pose proof (floor_draw r _ Hr Hn) as [H0 H1].
  unfold at_. destruct (Z.ltb_spec (Zfloor (r * IZR (Z.of_nat (List.length l)))) 0);
    [lia|].
  destruct (nth_error l (Z.to_nat (Zfloor (r * IZR (Z.of_nat (List.length l))))))
    as [x|] eqn:E.
  - exists x. split; [reflexivity|]. eapply nth_error_In. exact E.
  - apply nth_error_None in E. lia.
Qed.

Lemma rank_range (r : Rarity) : 1 <= indexOf rarities r + 1 <= 4.
Proof. destruct r; cbv; split; discriminate. Qed.

Lemma generated_games
    (toString36 : R -> string) (h : Host) (id : option string) :
  validHost h ->
  exists c,
    generateRandomNFT toString36 h id = Some c /\
    0 <= NFTCharacterData.wins c <= 19 /\
    5 <= NFTCharacterData.totalGames c <= 34.
Proof.
  intros Hv. unfold generateRandomNFT.
  set (k := if isFalsy id then 1%nat else 0%nat).
  destruct (at_draw rarities (random h 0%nat) (Hv 0%nat)) as (rar & Er & _);
    [discriminate|].
  destruct (at_draw names (random h (1 + k)%nat) (Hv _)) as (nm & En & _);
    [discriminate|].
  destruct (at_draw specials (random h (6 + k)%nat) (Hv _)) as (sp & Es & _);
    [discriminate|].
  destruct (at_draw colors (random h (7 + k)%nat) (Hv _)) as (co & Ec & _);
    [discriminate|].
  rewrite Er, En, Es, Ec. eexists. split; [reflexivity|].
  cbn [NFTCharacterData.wins NFTCharacterData.totalGames].
  pose proof (floor_draw (random h (8 + k)%nat) 20 (Hv _) ltac:(lia)) as H8.
  pose proof (floor_draw (random h (9 + k)%nat) 30 (Hv _) ltac:(lia)) as H9.
  lia.
Qed.

(** X22: with draws in [0, 1) the generator always yields a character with
    every field defined: name, special ability and colour from their
    tables, level 1 to 10, wins 0 to 19, total games 5 to 34, and power,
    defense and speed each between 10 m and 10 m + 49 where m, from 1 to 4,
    is the rank of the rarity drawn, hence never above 89.  A non-empty id
    argument is kept as the id. *)
Theorem generateRandomNFT_ranges
    (toString36 : R -> string) (h : Host) (id : option string) :
  validHost h ->
  exists c,
    generateRandomNFT toString36 h id = Some c /\
    In (NFTCharacterData.name c) names /\
    In (NFTCharacterData.special c) specials /\
    In (NFTCharacterData.color c) colors /\
    1 <= NFTCharacterData.level c <= 10 /\
    (let m := indexOf rarities (NFTCharacterData.rarity c) + 1 in
     1 <= m <= 4 /\
     10 * m <= NFTCharacterData.power c <= 10 * m + 49 /\
     10 * m <= NFTCharacterData.defense c <= 10 * m + 49 /\
     10 * m <= NFTCharacterData.speed c <= 10 * m + 49) /\
    NFTCharacterData.power c <= 89 /\
    NFTCharacterData.defense c <= 89 /\
    NFTCharacterData.speed c <= 89 /\
    0 <= NFTCharacterData.wins c <= 19 /\
    5 <= NFTCharacterData.totalGames c <= 34 /\
    (forall s, id = Some s -> s <> ""%string -> NFTCharacterData.id c = s).
Proof.
  intros Hv. unfold generateRandomNFT.
  set (k := if isFalsy id then 1%nat else 0%nat).
  destruct (at_draw rarities (random h 0%nat) (Hv 0%nat)) as (rar & Er & _);
    [discriminate|].
  destruct (at_draw names (random h (1 + k)%nat) (Hv _)) as (nm & En & Hn);
    [discriminate|].
  destruct (at_draw specials (random h (6 + k)%nat) (Hv _)) as (sp & Es & Hs);
    [discriminate|].
  destruct (at_draw colors (random h (7 + k)%nat) (Hv _)) as (co & Ec & Hc);
    [discriminate|].
  rewrite Er, En, Es, Ec. eexists. split; [reflexivity|].
  cbn [NFTCharacterData.name NFTCharacterData.special NFTCharacterData.color
       NFTCharacterData.level NFTCharacterData.rarity NFTCharacterData.power
       NFTCharacterData.defense NFTCharacterData.speed NFTCharacterData.wins
       NFTCharacterData.totalGames NFTCharacterData.id].
  pose proof (rank_range rar) as Hm.
  pose proof (floor_draw (random h (2 + k)%nat) 10 (Hv _) ltac:(lia)) as H2.
  pose proof (floor_draw (random h (3 + k)%nat) 50 (Hv _) ltac:(lia)) as H3.
  pose proof (floor_draw (random h (4 + k)%nat) 50 (Hv _) ltac:(lia)) as H4.
  pose proof (floor_draw (random h (5 + k)%nat) 50 (Hv _) ltac:(lia)) as H5.
  pose proof (floor_draw (random h (8 + k)%nat) 20 (Hv _) ltac:(lia)) as H8.
  pose proof (floor_draw (random h (9 + k)%nat) 30 (Hv _) ltac:(lia)) as H9.
  repeat split; try assumption; try lia.
  intros s -> Hne. unfold orElse.
  destruct (String.eqb_spec s ""); [contradiction | reflexivity].
Qed.


Lemma generateRandomNFT_ranges_witness :
  exists c,
    generateRandomNFT halfText halfHost (Some "starter-001"%string) = Some c /\
    NFTCharacterData.id c = "starter-001"%string /\
    NFTCharacterData.power c <= 89.
Proof.
  destruct (generateRandomNFT_ranges halfText halfHost (Some "starter-001"%string)
              halfHost_valid)
    as (c & H1 & _ & _ & _ & _ & _ & H2 & _ & _ & _ & _ & H3).
  exists c. split; [exact H1|]. split; [|exact H2].
  apply H3; [reflexivity | discriminate].
Defined.

(** ** Win rate *)

Lemma js_round_between (x : R) (lo hi : Z) :
  (IZR lo <= x <= IZR hi)%R -> lo <= js_round x <= hi.
Proof.
  intros [Hl Hh]. unfold js_round.
  pose proof (Zfloor_bound (x + 1 / 2)) as Hb. split.
  - apply Zfloor_lub. lra.
  - assert (Zfloor (x + 1 / 2) < hi + 1); [|lia].
    apply lt_IZR. rewrite plus_IZR. simpl. lra.
Qed.

(** The percentage as [winRate] computes it, against the exact one. *)
Lemma percentage_close (w g : R) :
  (0 <= w)%R -> (0 < g)%R ->
  let p := (100 * w / g)%R in
  let q := js_mul (js_div w g) 100 in
  (0 <= q)%R /\ (Rabs (q - p) <= (p + 1) / 1125899906842624)%R.
Proof.
  intros Hw Hg p q.
  assert (Hx : (0 <= w / g)%R).
  { unfold Rdiv. apply Rmult_le_pos; [assumption|].
    apply Rlt_le, Rinv_0_lt_compat, Hg. }
  assert (Hq1 : (0 <= js_div w g)%R) by (apply double_nonneg, Hx).
  assert (Hy : (0 <= js_div w g * 100)%R) by lra.
  assert (Hq : (0 <= q)%R) by (apply double_nonneg, Hy).
  split; [assumption|].
  destruct (double_bounds (w / g)) as (t & Ht & Et & B1).
  destruct (double_bounds (js_div w g * 100)) as (t' & _ & Et' & B2).
  rewrite <- Et in Et'. subst t'.
  rewrite (Rabs_pos_eq (w / g)) in B1 by assumption.
  rewrite (Rabs_pos_eq (js_div w g * 100)) in B2 by assumption.
  fold (js_div w g) in B1. fold (js_mul (js_div w g) 100) in B2. fold q in B2.
  rewrite (Rabs_pos_eq (js_div w g)) in B1 by assumption.
  rewrite (Rabs_pos_eq q) in B2 by assumption.
  assert (Ep : (p = 100 * (w / g))%R) by (unfold p, Rdiv; ring).
  set (x := (w / g)%R) in *. set (q1 := js_div w g) in *.
  clearbody x q1 q. clear Et.
  set (u := (/ 9007199254740992)%R) in *.
  assert (Hu : (0 < u <= / 9007199254740992)%R) by (unfold u; lra).
  clearbody u.
  assert (K1 : (q1 * u <= (x * (1 + u) + t) * u)%R)
    by (apply Rmult_le_compat_r; lra).
  assert (K2 : ((x * (1 - u) - t) * u <= q1 * u)%R)
    by (apply Rmult_le_compat_r; lra).
  assert (K3 : (0 <= x * u)%R) by (apply Rmult_le_pos; lra).
  assert (K4 : (x * u * u <= x * u * 1)%R)
    by (apply Rmult_le_compat_l; lra).
  assert (K5 : (0 <= t * u <= t * 1)%R).
  { split; [apply Rmult_le_pos; lra | apply Rmult_le_compat_l; lra]. }
  assert (K6 : (0 <= x * u * u)%R) by (apply Rmult_le_pos; lra).
  apply Rabs_le. rewrite Ep. split; nra.
Qed.

Lemma js_round_error (x : R) : (Rabs (IZR (js_round x) - x) <= 1 / 2)%R.
Proof.
  unfold js_round. pose proof (Zfloor_bound (x + 1 / 2)) as Hb.
  apply Rabs_le. lra.
Qed.

Lemma winRate_played (c : NFTCharacterData.t) :
  0 < NFTCharacterData.totalGames c ->
  winRate c =
  js_round
    (js_mul
       (js_div (IZR (NFTCharacterData.wins c))
               (IZR (NFTCharacterData.totalGames c)))
       100).
Proof.
  intros H. unfold winRate.
  destruct (Z.gtb_spec (NFTCharacterData.totalGames c) 0); [reflexivity | lia].
Qed.

(** The rate of a played character is within a half, and the rounding of
    the division and the multiplication, of the exact percentage. *)
Lemma winRate_close (c : NFTCharacterData.t) :
  0 < NFTCharacterData.totalGames c -> 0 <= NFTCharacterData.wins c ->
  let p := (100 * IZR (NFTCharacterData.wins c)
            / IZR (NFTCharacterData.totalGames c))%R in
  0 <= winRate c /\
  (Rabs (IZR (winRate c) - p) <= 1 / 2 + (p + 1) / 1125899906842624)%R.
Proof.
  intros Hg Hw p. rewrite winRate_played by assumption.
  apply IZR_lt in Hg. apply IZR_le in Hw.
  destruct (percentage_close _ _ Hw Hg) as [Hq Hc]. fold p in Hc.
  set (q := js_mul _ 100) in *. split.
  - unfold js_round. apply (Zfloor_lub 0). simpl. lra.
  - pose proof (js_round_error q) as He.
    apply Rabs_le. apply Rabs_le_inv in He, Hc. lra.
Qed.

(** The rounded quotient and product of 23 wins in 40 games. *)
Lemma seasoned_percentage :
  js_mul (js_div 23 40) 100 = (8092405580431359 / 140737488355328)%R.
Proof.
  unfold js_mul, js_div.
  assert (Q : double (23 / 40) = (5179139571476070 / 9007199254740992)%R)
    by (rounds_to 5179139571476070 53).
  rewrite Q. rounds_to 8092405580431359 47.
Qed.

(** X23: the win rate of the character card is 0 when no game was played,
    without dividing.  Otherwise it is the percentage of wins rounded to
    the nearest integer as the doubles give it: quotient and product are
    rounded before [Math.round], so the rate lies within a half plus
    (p + 1) / 2^50 of the exact percentage p, equals p when p is a whole
    number, and lies between 0 and 100 whenever the wins do not exceed the
    games played.  It is not always the rounding of p: 23 wins in 40 games
    show 57, not 58.  For a generated character games are always played
    and the rate lies between 0 and 380: wins are drawn up to 19 with as
    few as 5 games. *)
Theorem winRate_rounded_percentage
    (toString36 : R -> string) (h : Host) (id : option string) :
  (forall c, NFTCharacterData.totalGames c <= 0 -> winRate c = 0) /\
  (forall c,
     0 < NFTCharacterData.totalGames c -> 0 <= NFTCharacterData.wins c ->
     let p := (100 * IZR (NFTCharacterData.wins c)
               / IZR (NFTCharacterData.totalGames c))%R in
     (Rabs (IZR (winRate c) - p) <= 1 / 2 + (p + 1) / 1125899906842624)%R /\
     (forall n, p = IZR n -> n <= 1000000 -> winRate c = n) /\
     (NFTCharacterData.wins c <= NFTCharacterData.totalGames c ->
      0 <= winRate c <= 100)) /\
  (winRate seasoned = 57 /\
   js_round (100 * IZR (NFTCharacterData.wins seasoned)
             / IZR (NFTCharacterData.totalGames seasoned)) = 58) /\
  (validHost h ->
   exists c,
     generateRandomNFT toString36 h id = Some c /\
     0 < NFTCharacterData.totalGames c /\ 0 <= winRate c <= 380).
Proof.
  split; [|split; [|split]].
  - intros c H. unfold winRate.
    destruct (Z.gtb_spec (NFTCharacterData.totalGames c) 0); [lia | reflexivity].
  - intros c Hg Hw p.
    destruct (winRate_close c Hg Hw) as [H0 Hc]. fold p in Hc.
    split; [exact Hc|]. split.
    + intros n En Hn. rewrite En in Hc. apply Rabs_le_inv in Hc.
      assert (Pn : (0 <= IZR n)%R).
      { rewrite <- En. unfold p, Rdiv. apply Rmult_le_pos.
        - apply Rmult_le_pos; [lra | apply IZR_le, Hw].
        - apply Rlt_le, Rinv_0_lt_compat, IZR_lt, Hg. }
      apply IZR_le in Hn.
      assert (L : winRate c < n + 1)
        by (apply lt_IZR; rewrite plus_IZR; lra).
      assert (U : n - 1 < winRate c)
        by (apply lt_IZR; rewrite minus_IZR; lra).
      lia.
    + intros Hle. rewrite winRate_played by assumption.
      apply IZR_lt in Hg. apply IZR_le in Hw, Hle.
      set (w := IZR (NFTCharacterData.wins c)) in *.
      set (g := IZR (NFTCharacterData.totalGames c)) in *.
      assert (Hx : (0 <= w / g <= 1)%R).
      { split.
        - unfold Rdiv. apply Rmult_le_pos; [assumption|].
          apply Rlt_le, Rinv_0_lt_compat, Hg.
        - apply (Rmult_le_reg_r g); [assumption|].
          replace (w / g * g)%R with w by (field; lra). lra. }
      assert (H1 : (0 <= js_div w g <= 1)%R).
      { split; [apply double_nonneg; lra|].
        apply double_le; [apply (representable_IZR 1); reflexivity | lra]. }
      apply js_round_between. simpl. split.
      * apply double_nonneg. lra.
      * apply double_le; [apply (representable_IZR 100); reflexivity | lra].
  - split.
    + rewrite winRate_played by reflexivity.
      change (IZR (NFTCharacterData.wins seasoned)) with 23%R.
      change (IZR (NFTCharacterData.totalGames seasoned)) with 40%R.
      rewrite seasoned_percentage. unfold js_round.
      apply Zfloor_eq. simpl. lra.
    + change (IZR (NFTCharacterData.wins seasoned)) with 23%R.
      change (IZR (NFTCharacterData.totalGames seasoned)) with 40%R.
      unfold js_round. apply Zfloor_eq. simpl. lra.
  - intros Hv.
    destruct (generated_games toString36 h id Hv) as (c & E & Hw & Ht).
    exists c. split; [exact E|]. split; [lia|].
    destruct (winRate_close c ltac:(lia) ltac:(lia)) as [H0 Hc].
    split; [assumption|].
    assert (Hg : (5 <= IZR (NFTCharacterData.totalGames c))%R)
      by (apply (IZR_le 5); lia).
    assert (Hw' : (0 <= IZR (NFTCharacterData.wins c) <= 19)%R)
      by (split; [apply (IZR_le 0) | apply (IZR_le _ 19)]; lia).
    set (w := IZR (NFTCharacterData.wins c)) in *.
    set (g := IZR (NFTCharacterData.totalGames c)) in *.
    assert (Hp : (100 * w / g <= 380)%R).
    { apply (Rmult_le_reg_r g); [lra|].
      replace (100 * w / g * g)%R with (100 * w)%R by (field; lra). nra. }
    assert (Pp : (0 <= 100 * w / g)%R).
    { unfold Rdiv. apply Rmult_le_pos; [lra|].
      apply Rlt_le, Rinv_0_lt_compat. lra. }
    apply Rabs_le_inv in Hc.
    assert (L : winRate c < 381) by (apply lt_IZR; lra).
    lia.
Qed.

Lemma winRate_rounded_percentage_witness :
  (Rabs (IZR (winRate rookie) - 40) <= 1 / 2 + (40 + 1) / 1125899906842624)%R.
Proof.
  destruct (winRate_rounded_percentage halfText halfHost None)
    as (_ & H & _).
  destruct (H rookie) as (Hc & _); [reflexivity | simpl; lia |].
  replace 40%R
    with (100 * IZR (NFTCharacterData.wins rookie)
          / IZR (NFTCharacterData.totalGames rookie))%R
    by (simpl; lra).
  exact Hc.
Defined.

(** * Properties of the leaderboard *)

Lemma insertBy_head {A : Type} (cmp : A -> A -> Z) (x : A) (l : list A) :
  (forall y, In y l -> cmp x y <= 0) -> insertBy cmp x l = x :: l.
Proof.
  destruct l as [|y l]; [reflexivity|]. intros H. simpl.
  destruct (Z.leb_spec (cmp x y) 0) as [L|L]; [reflexivity|].
  specialize (H y (or_introl eq_refl)). lia.
Qed.

Lemma filter_none {A : Type} (f : A -> bool) (l : list A) :
  (forall x, In x l -> f x = false) -> filter f l = [].
Proof.
  induction l as [|x l IH]; intros H; [reflexivity|].
  simpl. rewrite (H x (or_introl eq_refl)). apply IH.
  intros y Hy. apply H. right. assumption.
Qed.

Lemma filter_every {A : Type} (f : A -> bool) (l : list A) :
  (forall x, In x l -> f x = true) -> filter f l = l.
Proof.
  induction l as [|x l IH]; intros H; [reflexivity|].
  simpl. rewrite (H x (or_introl eq_refl)). f_equal. apply IH.
  intros y Hy. apply H. right. assumption.
Qed.

(** Sorting a list that is already from high to low, with one entry
    appended: the entry goes below every entry of at least its score. *)
Lemma sort_appended (p : LeaderboardEntry.t) (ms : list LeaderboardEntry.t) :
  StronglySorted scoreOrder ms ->
  js_sort byScoreDesc (ms ++ [p]) =
  aboveScore (LeaderboardEntry.score p) ms
  ++ p :: belowScore (LeaderboardEntry.score p) ms.
Proof.
  induction 1 as [|m ms Hs IH Hm]; [reflexivity|].
  rewrite Forall_forall in Hm. unfold scoreOrder in Hm.
  change (js_sort byScoreDesc ((m :: ms) ++ [p]))
    with (insertBy byScoreDesc m (js_sort byScoreDesc (ms ++ [p]))).
  rewrite IH. unfold aboveScore, belowScore. cbn [filter].
  destruct (Z.leb_spec (LeaderboardEntry.score p) (LeaderboardEntry.score m))
    as [L|L].
  - destruct (Z.ltb_spec (LeaderboardEntry.score m) (LeaderboardEntry.score p));
      [lia|].
    apply insertBy_head. intros y Hy. unfold byScoreDesc.
    apply in_app_or in Hy as [Hy|[<-|Hy]].
    + apply filter_In in Hy as [Hy _]. specialize (Hm y Hy). lia.
    + lia.
    + apply filter_In in Hy as [Hy _]. specialize (Hm y Hy). lia.
  - destruct (Z.ltb_spec (LeaderboardEntry.score m) (LeaderboardEntry.score p));
      [|lia].
    rewrite filter_none, filter_every.
    + cbn [app insertBy]. unfold byScoreDesc at 1.
      destruct (Z.leb_spec (LeaderboardEntry.score p - LeaderboardEntry.score m) 0);
        [lia|].
      rewrite insertBy_head; [reflexivity|].
      intros y Hy. unfold byScoreDesc. specialize (Hm y Hy). lia.
    + intros x Hx. specialize (Hm x Hx). apply Z.ltb_lt. lia.
    + intros x Hx. specialize (Hm x Hx). apply Z.leb_gt. lia.
Qed.

Lemma mockEntries_sorted (now : nat -> Z) :
  StronglySorted scoreOrder (mockEntries now).
Proof.
  unfold mockEntries, scoreOrder.
  repeat (constructor; [|repeat constructor; simpl; lia]). constructor.
Qed.

Lemma nth_error_mapIndexFrom {A B : Type} (f : A -> Z -> B) (l : list A) :
  forall i k,
    nth_error (mapIndexFrom f i l) k =
    option_map (fun x => f x (i + Z.of_nat k)) (nth_error l k).
Proof.
  induction l as [|x l IH]; intros i k.
  - destruct k; reflexivity.
  - destruct k as [|k]; simpl.
    + rewrite Z.add_0_r. reflexivity.
    + rewrite IH. destruct (nth_error l k); simpl; [|reflexivity].
      f_equal. f_equal. lia.
Qed.

Lemma length_mapIndexFrom {A B : Type} (f : A -> Z -> B) (l : list A) :
  forall i, List.length (mapIndexFrom f i l) = List.length l.
Proof.
  induction l as [|x l IH]; intros i; [reflexivity|]. simpl. rewrite IH. reflexivity.
Qed.

Lemma generateLeaderboard_eq (now : nat -> Z) (cp : CurrentPlayer.t) :
  0 < CurrentPlayer.score cp ->
  generateLeaderboard now (Some cp) =
  mapIndexFrom withRank 0
    (aboveScore (CurrentPlayer.score cp) (mockEntries now)
     ++ playerEntry now cp :: belowScore (CurrentPlayer.score cp) (mockEntries now)).
Proof.
  intros H. unfold generateLeaderboard.
  destruct (Z.gtb_spec (CurrentPlayer.score cp) 0); [|lia].
  rewrite sort_appended by apply mockEntries_sorted. reflexivity.
Qed.

Ltac split_scores :=
  repeat match goal with
    | |- context [?a <=? ?b] => destruct (Z.leb_spec a b); try (exfalso; lia)
    | |- context [?a <? ?b] => destruct (Z.ltb_spec a b); try (exfalso; lia)
    end.

(** X24: without a current player, or with one whose score is 0 or less,
    the leaderboard is the five fixed entries.  With a positive score it
    has six rows: ranks are 1 to 6 from the top, scores run from high to
    low, the five fixed entries keep their order, and the player's row,
    unverified, stands below every fixed entry whose score is at least the
    player's, so its rank is one more than the number of those; on a tie
    the fixed entry is ranked first. *)
Theorem leaderboard_ranking (now : nat -> Z) (currentPlayer : option CurrentPlayer.t) :
  let board := generateLeaderboard now currentPlayer in
  ((currentPlayer = None \/
    exists cp, currentPlayer = Some cp /\ CurrentPlayer.score cp <= 0) ->
   board = mockEntries now) /\
  (forall cp,
     currentPlayer = Some cp -> 0 < CurrentPlayer.score cp ->
     let above :=
       List.length (aboveScore (CurrentPlayer.score cp) (mockEntries now)) in
     List.length board = 6%nat /\
     (forall k e,
        nth_error board k = Some e -> LeaderboardEntry.rank e = Z.of_nat k + 1) /\
     StronglySorted Z.ge (map LeaderboardEntry.score board) /\
     nth_error board above =
       Some (withRank (playerEntry now cp) (Z.of_nat above)) /\
     filter (fun i => negb (i =? "current-player")%string)
       (map LeaderboardEntry.id board) =
       ["entry-1"; "entry-2"; "entry-3"; "entry-4"; "entry-5"]%string).
Proof.
  intros board. split.
  - intros [-> | (cp & -> & H)]; [reflexivity|].
    unfold board, generateLeaderboard.
    destruct (Z.gtb_spec (CurrentPlayer.score cp) 0); [lia | reflexivity].
  - intros cp -> Hpos above. unfold board, above.
    rewrite generateLeaderboard_eq by assumption.
    split; [|split].
    + rewrite length_mapIndexFrom, length_app. cbn [List.length].
      pose proof (filter_neg_length
                    (fun e => CurrentPlayer.score cp <=? LeaderboardEntry.score e)
                    (mockEntries now)) as E.
      unfold aboveScore, belowScore.
      replace (filter (fun e => LeaderboardEntry.score e <? CurrentPlayer.score cp)
                 (mockEntries now))
        with (filter (fun e => negb (CurrentPlayer.score cp <=? LeaderboardEntry.score e))
                (mockEntries now)).
      * change (List.length (mockEntries now)) with 5%nat in E. lia.
      * apply filter_ext. intros e. rewrite Z.ltb_antisym. reflexivity.
    + intros k e Hk. rewrite nth_error_mapIndexFrom in Hk.
      destruct (nth_error _ k); [|discriminate].
      simpl in Hk. injection Hk as <-. simpl. lia.
    + unfold aboveScore, belowScore, mockEntries.
      cbn [filter LeaderboardEntry.score].
      split_scores; cbn [app List.length mapIndexFrom map nth_error];
        (split; [|split; [reflexivity|reflexivity]]);
        cbn [withRank playerEntry LeaderboardEntry.score];
        repeat (constructor; [|repeat constructor; lia]); constructor.
Qed.

Lemma leaderboard_ranking_witness :
  nth_error
    (generateLeaderboard (fun _ => 0) (Some (CurrentPlayer.mk "You" "starter-001" 2420)))
    2 =
  Some (withRank (playerEntry (fun _ => 0) (CurrentPlayer.mk "You" "starter-001" 2420)) 2).
Proof.
  destruct (leaderboard_ranking (fun _ => 0)
              (Some (CurrentPlayer.mk "You" "starter-001" 2420))) as [_ H].
  destruct (H (CurrentPlayer.mk "You" "starter-001" 2420) eq_refl) as (_ & _ & _ & H1 & _).
  - simpl. lia.
  - exact H1.
Defined.

(** X25: the age label of a leaderboard row.  A row at least an hour old
    is labelled in whole hours, at least 1; a younger one in whole minutes
    from 0 to 59; a timestamp ahead of the clock is never labelled in hours
    but in minutes from -60 to 0. *)
Theorem formatTimestamp_labels (nowMs timestamp : Z) :
  let diff := nowMs - timestamp in
  (3600000 <= diff ->
     formatTimestamp nowMs timestamp = (showZ (diff / 3600000) ++ "h ago")%string /\
     1 <= diff / 3600000) /\
  (0 <= diff < 3600000 ->
     formatTimestamp nowMs timestamp = (showZ (diff / 60000) ++ "m ago")%string /\
     0 <= diff / 60000 <= 59) /\
  (diff < 0 ->
     exists m,
       formatTimestamp nowMs timestamp = (showZ m ++ "m ago")%string /\
       -60 <= m <= 0).
Proof.
  intros diff. unfold formatTimestamp. fold diff.
  split; [|split]; intros H.
  - destruct (Z.gtb_spec (diff / 3600000) 0) as [G|G].
    + split; [reflexivity | lia].
    + exfalso. assert (1 <= diff / 3600000) by (apply Z.div_le_lower_bound; lia).
      lia.
  - rewrite Z.rem_small by lia.
    rewrite (Z.div_small diff 3600000) by lia. simpl (0 >? 0).
    split; [reflexivity|]. split.
    + apply Z.div_pos; lia.
    + assert (diff / 60000 < 60) by (apply Z.div_lt_upper_bound; lia). lia.
  - assert (Hh : diff / 3600000 < 0) by (apply Z.div_lt_upper_bound; lia).
    destruct (Z.gtb_spec (diff / 3600000) 0) as [G|G]; [lia|].
    eexists. split; [reflexivity|].
    assert (Hr : -3600000 < Z.rem diff 3600000 <= 0).
    { pose proof (Z.rem_bound_pos (- diff) 3600000 ltac:(lia) ltac:(lia)) as B.
      rewrite Z.rem_opp_l in B by lia. lia. }
    split.
    + apply Z.div_le_lower_bound; lia.
    + assert (Z.rem diff 3600000 / 60000 < 1) by (apply Z.div_lt_upper_bound; lia).
      lia.
Qed.

Lemma formatTimestamp_labels_witness :
  formatTimestamp 1700000000000 (1700000000000 - 7200000) = "2h ago"%string.
Proof.
  destruct (formatTimestamp_labels 1700000000000 (1700000000000 - 7200000))
    as [H _].
  destruct H as [H _]; [lia|]. rewrite H. reflexivity.
Defined.

(** * Further page handlers *)

Lemma nearestEven_half (n : Z) :
  nearestEven (IZR n + 1 / 2) = if Z.even n then n else n + 1.
Proof.
  unfold nearestEven.
  assert (E : Zfloor (IZR n + 1 / 2) = n) by (apply Zfloor_eq; lra).
  rewrite E.
  destruct (Rlt_dec _ _) as [H|_]; [exfalso; lra|].
  destruct (Rlt_dec _ _) as [H|_]; [exfalso; lra|]. reflexivity.
Qed.

(** The listing price: between 0.5 and 2.5, and 2.5 itself for the
    largest draw, where the sum lies half-way between two doubles. *)
Lemma listing_price (r : R) :
  (0 <= r < 1)%R ->
  (1 / 2 <= js_add (js_mul r 2) (1 / 2) <= 5 / 2)%R /\
  (r = 1 - / 9007199254740992 -> js_add (js_mul r 2) (1 / 2) = 5 / 2)%R.
Proof.
  intros Hr. unfold js_add, js_mul.
  assert (H2 : (0 <= double (r * 2) <= 2)%R).
  { split; [apply double_nonneg; lra|].
    apply double_le; [apply (representable_IZR 2); reflexivity | lra]. }
  assert (Rh : representable (1 / 2)) by (dyadic 1 1).
  assert (R5 : representable (5 / 2)) by (dyadic 5 1).
  split; [split|].
  - apply double_ge; [exact Rh | lra].
  - apply double_le; [exact R5 | lra].
  - intros ->.
    assert (E : double ((1 - / 9007199254740992) * 2)
                = (2 - / 4503599627370496)%R).
    { rewrite double_representable; [lra|]. dyadic 9007199254740991 52. }
    rewrite E.
    set (x := (2 - / 4503599627370496 + 1 / 2)%R).
    assert (Eu : ulpExp x = -51).
    { apply Z.le_antisymm.
      - apply ulpExp_le; [lia|]. change (-51 + 53) with 2.
        rewrite (pow2_IZR 2) by lia. simpl. unfold x.
        apply Rabs_def1; lra.
      - apply ulpExp_ge; [lia|]. change (-51 + 52) with 1.
        rewrite (pow2_IZR 1) by lia. simpl. unfold x.
        rewrite Rabs_pos_eq; lra. }
    unfold double. rewrite Eu. change (-51) with (- (51)).
    literal_pow2 51.
    replace (x / / 2251799813685248)%R
      with (IZR 5629499534213119 + 1 / 2)%R by (unfold x; lra).
    rewrite nearestEven_half. simpl. lra.
Qed.

(** X26: listing a character for trade removes nothing.  For an id not in
    the collection the page is unchanged; for one that is, the handler
    never throws, collection, selected character, score and earnings stay
    as they were, the modal opens on a pending trade transaction in ETH,
    its confirmation is queued and one toast is added.  With draws in
    [0, 1) the amount lies between 0.5 and 2.5, both included: for the
    largest draw a double can hold, 1 - 2^-53, the rounded sum is 2.5. *)
Theorem handleTradeNFT_keeps_collection
    (toString36 : R -> string) (h : Host) (page : Index.t) (characterId : string) :
  validHost h ->
  (Index.findCharacter (Index.playerCollection page) characterId = None ->
     Index.handleTradeNFT toString36 h page characterId = Normal page) /\
  (forall character,
     Index.findCharacter (Index.playerCollection page) characterId = Some character ->
     exists page' tx amount,
       Index.handleTradeNFT toString36 h page characterId = Normal page' /\
       Index.playerCollection page' = Index.playerCollection page /\
       Index.playerCharacter page' = Index.playerCharacter page /\
       Index.currentScore page' = Index.currentScore page /\
       Index.totalEarnings page' = Index.totalEarnings page /\
       Index.transactionModal page' = Index.mkModal true (Some tx) /\
       Transaction.type tx = trade /\ Transaction.status tx = pending /\
       Transaction.currency tx = Some "ETH"%string /\
       Transaction.amount tx = Some amount /\
       (1 / 2 <= amount <= 5 / 2)%R /\
       (random h 0%nat = (1 - / 9007199254740992)%R -> amount = (5 / 2)%R) /\
       Index.confirmations page' = Index.confirmations page ++ [tx] /\
       List.length (Index.toasts page') = S (List.length (Index.toasts page))).
Proof.
  intros Hv. unfold Index.handleTradeNFT. split.
  - intros ->. reflexivity.
  - intros character ->. rewrite createTransaction_normal. cbn [bind].
    do 3 eexists. split; [reflexivity|].
    cbn [Index.playerCollection Index.playerCharacter Index.transactionModal
         Index.confirmations Index.currentScore Index.totalEarnings Index.toasts
         Index.showTransaction].
    destruct (listing_price (random h 0%nat) (Hv 0%nat)) as [[Hl Hu] Ht].
    repeat split.
    + exact Hl.
    + exact Hu.
    + exact Ht.
    + rewrite length_app. simpl. lia.
Qed.

Lemma handleTradeNFT_keeps_collection_witness :
  exists page',
    Index.handleTradeNFT halfText halfHost freshPage "starter-001" = Normal page' /\
    Index.playerCollection page' = [rookie].
Proof.
  destruct (handleTradeNFT_keeps_collection halfText halfHost freshPage
              "starter-001" halfHost_valid) as [_ H].
  destruct (H rookie rookie_found) as (page' & tx & amount & H1 & H2 & _).
  exists page'. split; [exact H1 | exact H2].
Defined.

(** X27: viewing a leaderboard entry's transaction never throws.  The
    modal opens on a leaderboard transaction that is confirmed from the
    start, so no confirmation is queued and no toast shown; its hash is
    [0x], the entry id and 60 zeros, that is 62 characters more than the
    id, and the rest of the page is untouched. *)
Theorem handleViewTransaction_shape
    (toString36 : R -> string) (h : Host) (page : Index.t) (entryId : string) :
  exists page' tx,
    Index.handleViewTransaction toString36 h page entryId = Normal page' /\
    Index.transactionModal page' = Index.mkModal true (Some tx) /\
    Transaction.type tx = leaderboard /\
    Transaction.status tx = confirmed /\
    Transaction.details tx = "Leaderboard entry verification transaction"%string /\
    Transaction.hash tx = ("0x" ++ entryId ++ repeatString "0" 60)%string /\
    String.length (Transaction.hash tx) = (62 + String.length entryId)%nat /\
    Index.confirmations page' = Index.confirmations page /\
    Index.toasts page' = Index.toasts page /\
    Index.currentScore page' = Index.currentScore page /\
    Index.totalEarnings page' = Index.totalEarnings page /\
    Index.playerCollection page' = Index.playerCollection page /\
    Index.playerCharacter page' = Index.playerCharacter page.
Proof.
  unfold Index.handleViewTransaction.
  change (js_repeat "0" 60) with (Normal (repeatString "0" 60)). cbn [bind].
  rewrite createTransaction_normal. cbn [bind].
  do 2 eexists. split; [reflexivity|].
  cbn [Index.transactionModal Index.confirmations Index.toasts
       Index.currentScore Index.totalEarnings Index.playerCollection
       Index.playerCharacter].
  unfold spread.
  cbn [Transaction.hash Transaction.status Transaction.type Transaction.details
       Partial.hash Partial.status Partial.type Partial.details over].
  repeat split.
  cbn [Transaction.hash Partial.hash over].
  rewrite !length_append, length_repeatString_char. simpl String.length. lia.
Qed.

(** * Properties of the bridge *)

(** The selection after a series of clicks is the live game clicked
    last, or what was selected before when none of them is live. *)
Lemma selectGames_lastLive (clicks : list PartnerGame.t) : forall selected,
  BridgeModal.selectGames selected clicks =
  match lastLive clicks with
  | Some game => Some (PartnerGame.id game)
  | None => selected
  end.
Proof.
  unfold BridgeModal.selectGames.
  induction clicks as [|g clicks IH]; intros selected; [reflexivity|].
  cbn [fold_left lastLive]. rewrite IH.
  destruct (lastLive clicks); [reflexivity|].
  unfold BridgeModal.selectGame. destruct (PartnerGame.isLive g); reflexivity.
Qed.

Lemma lastLive_Some (clicks : list PartnerGame.t) (game : PartnerGame.t) :
  lastLive clicks = Some game ->
  In game clicks /\ PartnerGame.isLive game = true.
Proof.
  induction clicks as [|g clicks IH]; [discriminate|].
  cbn [lastLive]. destruct (lastLive clicks) as [later|].
  - intros E. injection E as <-. destruct (IH eq_refl) as [Hin Hl].
    split; [right; assumption | assumption].
  - destruct (PartnerGame.isLive g) eqn:El; [|discriminate].
    intros E. injection E as <-. split; [left; reflexivity | assumption].
Qed.

Lemma lastLive_None (clicks : list PartnerGame.t) :
  lastLive clicks = None <->
  Forall (fun g => PartnerGame.isLive g = false) clicks.
Proof.
  induction clicks as [|g clicks IH]; [split; [constructor | reflexivity]|].
  cbn [lastLive]. destruct (lastLive clicks) as [later|].
  - split; [discriminate|]. intros H. inversion H as [|? ? _ Hr]; subst.
    apply IH in Hr. discriminate.
  - destruct (PartnerGame.isLive g) eqn:El.
    + split; [discriminate|]. intros H. inversion H; subst. congruence.
    + split; [|reflexivity]. intros _. constructor; [assumption|].
      apply IH. reflexivity.
Qed.

(** X28: whatever cards of the four partner games are clicked, in any
    order and number, the bridge button makes exactly two calls when a
    character is shown and a live game was clicked: the bridge request for
    the live game clicked last (Endless RPG, Cyber Racers or Guild Wars,
    never Magic Realms) with the id of the character, and then the close.
    Without a character, or when no live game was clicked, it makes no
    call at all. *)
Theorem bridge_only_to_live_games
    (clicks : list PartnerGame.t) (character : option NFTCharacterData.t) :
  Forall (fun g => In g partnerGames) clicks ->
  let calls := BridgeModal.handleBridge (BridgeModal.selectGames None clicks) character in
  calls =
    match character, lastLive clicks with
    | Some c, Some game =>
        [BridgeModal.onBridge (PartnerGame.id game) (NFTCharacterData.id c);
         BridgeModal.onClose]
    | _, _ => []
    end /\
  (forall game, lastLive clicks = Some game ->
     In game clicks /\ PartnerGame.isLive game = true /\
     (PartnerGame.id game = "endless-rpg" \/ PartnerGame.id game = "cyber-racers" \/
      PartnerGame.id game = "guild-wars")%string) /\
  (lastLive clicks = None <->
   Forall (fun g => PartnerGame.isLive g = false) clicks) /\
  (character = None \/ Forall (fun g => PartnerGame.isLive g = false) clicks ->
   calls = []).
Proof.
  intros Hc calls.
  assert (Hg : forall game, lastLive clicks = Some game ->
     In game clicks /\ PartnerGame.isLive game = true /\
     (PartnerGame.id game = "endless-rpg" \/ PartnerGame.id game = "cyber-racers" \/
      PartnerGame.id game = "guild-wars")%string).
  { intros game E. destruct (lastLive_Some clicks game E) as [Hin Hl].
    split; [assumption|]. split; [assumption|].
    rewrite Forall_forall in Hc. specialize (Hc game Hin).
    simpl in Hc. destruct Hc as [<-|[<-|[<-|[<-|[]]]]]; cbn in Hl |- *;
      try discriminate Hl; auto. }
  assert (Ec : calls =
    match character, lastLive clicks with
    | Some c, Some game =>
        [BridgeModal.onBridge (PartnerGame.id game) (NFTCharacterData.id c);
         BridgeModal.onClose]
    | _, _ => []
    end).
  { unfold calls, BridgeModal.handleBridge. rewrite selectGames_lastLive.
    destruct (lastLive clicks) as [game|] eqn:E;
      [|destruct character; reflexivity].
    destruct character as [c|]; [|reflexivity].
    destruct (Hg game eq_refl) as (_ & _ & [-> | [-> | ->]]); reflexivity. }
  split; [exact Ec|]. split; [exact Hg|].
  split; [apply lastLive_None|].
  intros [-> | Hn]; rewrite Ec; [reflexivity|].
  apply lastLive_None in Hn. rewrite Hn. destruct character; reflexivity.
Qed.

Lemma bridge_only_to_live_games_witness :
  BridgeModal.handleBridge (BridgeModal.selectGames None partnerGames) (Some rookie)
  = match lastLive partnerGames with
    | Some game =>
        [BridgeModal.onBridge (PartnerGame.id game) (NFTCharacterData.id rookie);
         BridgeModal.onClose]
    | None => []
    end.
Proof.
  apply (bridge_only_to_live_games partnerGames (Some rookie)).
  apply Forall_forall. intros g Hg. exact Hg.
Defined.

Lemma length_padEnd (s : string) (n : nat) (c : Ascii.ascii) :
  String.length (padEnd s n c) = Nat.max n (String.length s).
Proof.
  unfold padEnd. rewrite length_append, length_repeatString_char. lia.
Qed.

(** X29: bridging a character that is not in the collection leaves the
    page unchanged.  For one that is, the handler never throws, keeps
    collection, score and earnings, opens the modal on a pending bridge
    transaction, queues its confirmation and adds one toast.  The receiver
    is [0x], the game id without its first dash, and zeros up to 40
    characters: 42 in all unless the id is longer.  For each of the four
    partner games the receiver has 42 characters and the details name the
    game's title. *)
Theorem handleBridgeNFT_receiver
    (toString36 : R -> string) (inherited : string -> string) (h : Host)
    (page : Index.t) (gameId characterId : string) :
  (Index.findCharacter (Index.playerCollection page) characterId = None ->
     handleBridgeNFT toString36 inherited h page gameId characterId = Normal page) /\
  (forall character,
     Index.findCharacter (Index.playerCollection page) characterId = Some character ->
     exists page' tx,
       handleBridgeNFT toString36 inherited h page gameId characterId = Normal page' /\
       Index.transactionModal page' = Index.mkModal true (Some tx) /\
       Transaction.type tx = bridge /\ Transaction.status tx = pending /\
       Transaction.to tx = Some (bridgeAddress gameId) /\
       String.length (bridgeAddress gameId) =
         (2 + Nat.max 40 (String.length (removeFirst "-"%char gameId)))%nat /\
       (forall title,
          In (gameId, title) games ->
          String.length (bridgeAddress gameId) = 42%nat /\
          Transaction.details tx =
            ("Bridged " ++ NFTCharacterData.name character ++ " to " ++ title)%string) /\
       Index.playerCollection page' = Index.playerCollection page /\
       Index.currentScore page' = Index.currentScore page /\
       Index.totalEarnings page' = Index.totalEarnings page /\
       Index.confirmations page' = Index.confirmations page ++ [tx] /\
       List.length (Index.toasts page') = S (List.length (Index.toasts page))).
Proof.
  unfold handleBridgeNFT. split.
  - intros ->. reflexivity.
  - intros character ->. rewrite createTransaction_normal. cbn [bind].
    do 2 eexists. split; [reflexivity|].
    cbn [Index.playerCollection Index.transactionModal Index.confirmations
         Index.currentScore Index.totalEarnings Index.toasts Index.showTransaction].
    split; [reflexivity|].
    unfold spread.
    cbn [Transaction.type Transaction.status Transaction.to Transaction.details
         Partial.type Partial.status Partial.to Partial.details over overOpt].
    split; [reflexivity|]. split; [reflexivity|]. split; [reflexivity|].
    assert (Hlen : String.length (bridgeAddress gameId) =
                   (2 + Nat.max 40 (String.length (removeFirst "-"%char gameId)))%nat).
    { unfold bridgeAddress. rewrite length_append, length_padEnd. reflexivity. }
    split; [exact Hlen|]. split.
    + intros title Hin. simpl in Hin.
      destruct Hin as [E|[E|[E|[E|[]]]]]; injection E as <- <-;
        (split; [reflexivity | reflexivity]).
    + repeat split. rewrite length_app. simpl. lia.
Qed.

Lemma handleBridgeNFT_receiver_witness :
  exists page' tx,
    handleBridgeNFT halfText (fun _ => "undefined"%string) halfHost freshPage
      "guild-wars" "starter-001" = Normal page' /\
    Index.transactionModal page' = Index.mkModal true (Some tx) /\
    Transaction.to tx = Some (bridgeAddress "guild-wars").
Proof.
  destruct (handleBridgeNFT_receiver halfText (fun _ => "undefined"%string)
              halfHost freshPage "guild-wars" "starter-001") as [_ H].
  destruct (H rookie rookie_found) as (page' & tx & H1 & H2 & _ & _ & H3 & _).
  exists page', tx. split; [exact H1|]. split; [exact H2 | exact H3].
Defined.

(** X30: the benefits the bridge modal lists.  Without a character there
    are none.  With one the list starts with cross-game progression and
    unique rewards, has between two and five items, and names VIP access
    exactly for a Legendary character, the power bonus exactly for power
    above 70 and the level advantage exactly for an RPG with a character
    above level 5. *)
Theorem getBridgeBenefits_spec (c : NFTCharacterData.t) (game : PartnerGame.t) :
  getBridgeBenefits None game = [] /\
  let benefits := getBridgeBenefits (Some c) game in
  (exists more,
     benefits = ("Cross-game progression" :: "Unique rewards" :: more)%string /\
     (List.length more <= 3)%nat) /\
  (In "VIP access"%string benefits <-> NFTCharacterData.rarity c = Legendary) /\
  (In "Power bonus"%string benefits <-> 70 < NFTCharacterData.power c) /\
  (In "Level advantage"%string benefits <->
     PartnerGame.type game = RPG /\ 5 < NFTCharacterData.level c).
Proof.
  split; [reflexivity|]. intros benefits. unfold benefits, getBridgeBenefits.
  assert (HL : Rarity_eqb (NFTCharacterData.rarity c) Legendary = true <->
               NFTCharacterData.rarity c = Legendary).
  { destruct (NFTCharacterData.rarity c); simpl; split; intros; congruence. }
  assert (HR : isRPG (PartnerGame.type game) = true <-> PartnerGame.type game = RPG).
  { destruct (PartnerGame.type game); simpl; split; intros; congruence. }
  destruct (Rarity_eqb (NFTCharacterData.rarity c) Legendary);
    destruct (Z.gtb_spec (NFTCharacterData.power c) 70) as [Gp|Gp];
    destruct (isRPG (PartnerGame.type game));
    destruct (Z.gtb_spec (NFTCharacterData.level c) 5) as [Gl|Gl];
    cbn [andb app];
    (split; [eexists; split; [reflexivity | simpl; lia]|]);
    (split; [|split]); (split; intros H);
    first
      [ apply HL; reflexivity
      | lia
      | split; [apply HR; reflexivity | lia]
      | solve [simpl; auto 10]
      | exfalso; apply HL in H; discriminate H
      | exfalso; lia
      | exfalso; destruct H as [H1 H2]; first [lia | apply HR in H1; discriminate H1]
      | exfalso; simpl in H;
        repeat (destruct H as [H|H]; [discriminate H|]); exact H ].
Qed.

(** * Instances *)

Lemma mount_waits_witness :
  run (mount propsPlayer (Some freshCanvas) half)
    [MouseMove 100 100 0 0; AnimationFrame half 0; Timeout] =
  (mount propsPlayer (Some freshCanvas) half, []).
Proof.
  destruct (mount_waits propsPlayer (Some freshCanvas) half)
    as (_ & _ & _ & _ & H).
  apply H. reflexivity.
Defined.

Lemma grid_loop_stops_witness :
  In 550 (gridStops 600) /\ ~ In 600 (gridStops 600).
Proof.
  destruct (grid_loop_stops 600 (fun _ => [])) as (_ & H & _).
  split.
  - apply H. split; [lia|]. exists 11. reflexivity.
  - intros C. apply H in C. lia.
Defined.

Lemma createTransaction_never_throws_witness :
  exists tx,
    createTransaction halfText halfHost mint "Minted" noOptions = Normal tx /\
    String.length (Transaction.hash tx) = 66%nat.
Proof.
  destruct (createTransaction_never_throws halfText halfHost mint "Minted" noOptions)
    as (tx & H1 & H2 & _).
  exists tx. split; [exact H1|]. apply H2. reflexivity.
Defined.
